(** * Observable assets and the batch loader

    A shallow embedding of [asset] and [loader] (the TypeScript module that
    exports [Status], [asset], [loader]) and the proofs of their protocol
    properties.

    Modelling conventions.
    - A closure variable of the source ([data], [error], [loading], [p], ...)
      is a field of the record standing for the closure; the properties the
      returned object literal copies by value ([error], [loading], [promise])
      are separate fields, written once by the constructor.
    - A JavaScript [Set] is the list of its entries in insertion order;
      [Set.prototype.forEach] walks the entries and skips those deleted
      before they are reached.
    - A JavaScript number is a binary64 floating-point number ([number],
      the kernel's primitive [float]) with its rounding, its two zeros, its
      infinities and [NaN]; [+] and [/] are the primitive operations.
      Counts (array lengths, byte counts) are natural numbers; they are
      below 2^53 and convert exactly.
    - A subscriber callback is an observer: when it is invoked it sees the
      current state of the objects, may unsubscribe callbacks (itself or
      others) from the object that is broadcasting, and returns normally.
      Callbacks that throw, that subscribe, or that call back into [load]
      or [start] (directly, or by reading [data] on an asset that has none)
      are outside the model.
    - Suspension points ([await], promise reactions) split a function into
      the transitions that run atomically between them. *)

From Stdlib Require Import ZArith Floats Uint63.
From stdpp Require Import base decidable option numbers list gmap strings.

(** ** Numbers *)

Definition number := PrimFloat.float.

#[global] Instance number_eq_dec : EqDecision number.
Proof.
  intros x y. destruct (PrimFloat.Leibniz.eqb x y) eqn:He.
  - left. by apply FloatAxioms.Leibniz.eqb_spec.
  - right. intros Hxy. apply FloatAxioms.Leibniz.eqb_spec in Hxy. congruence.
Defined.

(** A count as a number. *)
Definition number_of_nat (n : nat) : number :=
  PrimFloat.of_uint63 (Uint63.of_Z (Z.of_nat n)).

(** [x || 0] on a number: [NaN] and the two zeros are falsy. *)
Definition or_zero (x : number) : number :=
  if (PrimFloat.is_nan x || PrimFloat.is_zero x)%bool then 0%float else x.

(** ** Status events *)

Inductive Status := LOADING | LOADED | ERROR | PROGRESS.

#[global] Instance Status_eq_dec : EqDecision Status.
Proof. solve_decision. Defined.

(** A thrown value: an [Error] with its [message]. *)
Record Error := mkError { message : string }.

#[global] Instance Error_eq_dec : EqDecision Error.
Proof. solve_decision. Defined.

(** What a [catch] receives: the value a load function threw or the reason
    its promise was rejected with. It is an [Error], or [undefined]
    ([None]), as after [throw undefined] or [Promise.reject()]. *)
Definition Thrown := option Error.

(** ** Data model *)

(** What sits in an asset's subscriber set: a callback the caller passed to
    [subscribe], named by a number (its identity as a function object), or
    the loader's own [updateProgress], which [addToLoader] subscribes. *)
Inductive Callback := User (k : nat) | Aggregate.

#[global] Instance Callback_eq_dec : EqDecision Callback.
Proof. solve_decision. Defined.

(** What one invocation of a load function does before it returns: the
    values it passes to [updateProgress], then a plain value
    ([undefined] is [None]), an exception, or a [Promise]. *)
Inductive LoadResult (T : Type) :=
| Value (v : option T)
| Raise (e : Thrown)
| Promised.
Arguments Value {T} v.
Arguments Raise {T} e.
Arguments Promised {T}.

Record LoadRun (T : Type) := mkRun {
  reports : list number;
  result : LoadResult T
}.
Arguments mkRun {T} _ _.
Arguments reports {T} _.
Arguments result {T} _.

(** The closure created by one call of [asset(loader, options)], together
    with the data properties of the object it returns. [a_loader n] is the
    behaviour of the n-th invocation of the load function; [invocations]
    counts the invocations made so far. *)
Record Asset (T : Type) := mkAsset {
  a_loader : nat -> LoadRun T;
  options_id : option string;
  data : option T;
  error : option Error;
  promise : option nat;
  loading : bool;
  p : number;
  subscribers : list Callback;
  obj_error : option Error;
  obj_loading : bool;
  obj_promise : option nat;
  invocations : nat
}.
Arguments mkAsset {T}.
Arguments a_loader {T} _ _.
Arguments options_id {T} _.
Arguments data {T} _.
Arguments error {T} _.
Arguments promise {T} _.
Arguments loading {T} _.
Arguments p {T} _.
Arguments subscribers {T} _.
Arguments obj_error {T} _.
Arguments obj_loading {T} _.
Arguments obj_promise {T} _.
Arguments invocations {T} _.

(** [LoaderInput = Asset<any> | (() => Promise<Asset<any>[]>)]: an asset of
    the store, or a factory function named by a number. *)
Inductive LoaderInput := Direct (i : nat) | Factory (f : nat).

(** The promise [assets.map] produces for one loader input. *)
Inductive Branch :=
| AwaitFactory (f : nat)          (* [asset()] has not settled *)
| Registered (ixs : list nat)     (* first [then] ran, second has not *)
| AwaitLoads (ixs : list nat)     (* the [load()] promises still pending *)
| Failed (e : Thrown).

#[global] Instance Branch_eq_dec : EqDecision Branch.
Proof. solve_decision. Defined.

(** The promise [Promise.all] returns, and how far the reactions attached
    to it have run: [Caught] once the [catch] reaction of a rejection has
    run, [Handled] once the [finally] reaction has. *)
Inductive Join :=
| Unsettled
| Fulfilled
| Rejected (e : Thrown)
| Caught
| Handled.

(** The closure created by one call of [loader(...assets)] and the data
    properties of the object it returns. *)
Record Loader := mkLoader {
  assets : list LoaderInput;
  l_subscribers : list nat;
  _assets : list nat;
  mapOfAssetsWithID : gmap string nat;
  l_promise : option nat;
  l_loading : bool;
  l_error : option Error;
  progress : number;
  lobj_loading : bool;
  lobj_error : option Error;
  branches : list Branch;
  join : Join;
  factory_calls : list nat
}.

(** The heap: the assets that exist, one loader, and the number of promises
    [start] has created. *)
Record Core (T : Type) := mkCore {
  c_store : list (Asset T);
  c_ldr : Loader;
  c_promises : nat
}.
Arguments mkCore {T}.
Arguments c_store {T} _.
Arguments c_ldr {T} _.
Arguments c_promises {T} _.

Inductive Source := OfAsset (i : nat) | OfLoader.

#[global] Instance Source_eq_dec : EqDecision Source.
Proof. solve_decision. Defined.

(** What happened, in order: [Called src cb st now] is the invocation
    [cb(st)] by the broadcast of [src], with the heap as the callback finds
    it; [Recomputed now] is the assignment to the loader's [progress]. *)
Inductive Entry (T : Type) :=
| Called (src : Source) (cb : Callback) (st : Status) (now : Core T)
| Recomputed (now : Core T).
Arguments Called {T}.
Arguments Recomputed {T}.

Record World (T : Type) := mkWorld {
  store : list (Asset T);
  ldr : Loader;
  promises : nat;
  log : list (Entry T)
}.
Arguments mkWorld {T}.
Arguments store {T} _.
Arguments ldr {T} _.
Arguments promises {T} _.
Arguments log {T} _.

(** The state of the promise an [async] function returned. *)
Inductive Promise (A : Type) :=
| Resolved (v : A)
| Rejecting (e : Thrown)
| Waiting.
Arguments Resolved {A} v.
Arguments Rejecting {A} e.
Arguments Waiting {A}.

(** ** Assignments to the closure variables *)

Section Semantics.
Context {T : Type}.

(** [unsubs k st]: the callbacks the user callback [k] unsubscribes from the
    broadcasting object when it is invoked with [st]. *)
Variable unsubs : nat -> Status -> list nat.

Definition set_data (v : option T) (a : Asset T) : Asset T :=
  mkAsset (a_loader a) (options_id a) v (error a) (promise a) (loading a)
          (p a) (subscribers a) (obj_error a) (obj_loading a) (obj_promise a)
          (invocations a).

Definition set_error (e : option Error) (a : Asset T) : Asset T :=
  mkAsset (a_loader a) (options_id a) (data a) e (promise a) (loading a)
          (p a) (subscribers a) (obj_error a) (obj_loading a) (obj_promise a)
          (invocations a).

Definition set_promise (pr : option nat) (a : Asset T) : Asset T :=
  mkAsset (a_loader a) (options_id a) (data a) (error a) pr (loading a)
          (p a) (subscribers a) (obj_error a) (obj_loading a) (obj_promise a)
          (invocations a).

Definition set_loading (b : bool) (a : Asset T) : Asset T :=
  mkAsset (a_loader a) (options_id a) (data a) (error a) (promise a) b
          (p a) (subscribers a) (obj_error a) (obj_loading a) (obj_promise a)
          (invocations a).

Definition set_p (q : number) (a : Asset T) : Asset T :=
  mkAsset (a_loader a) (options_id a) (data a) (error a) (promise a)
          (loading a) q (subscribers a) (obj_error a) (obj_loading a)
          (obj_promise a) (invocations a).

Definition set_subscribers (s : list Callback) (a : Asset T) : Asset T :=
  mkAsset (a_loader a) (options_id a) (data a) (error a) (promise a)
          (loading a) (p a) s (obj_error a) (obj_loading a) (obj_promise a)
          (invocations a).

Definition count_invocation (a : Asset T) : Asset T :=
  mkAsset (a_loader a) (options_id a) (data a) (error a) (promise a)
          (loading a) (p a) (subscribers a) (obj_error a) (obj_loading a)
          (obj_promise a) (S (invocations a)).

Definition set_l_subscribers (s : list nat) (l : Loader) : Loader :=
  mkLoader (assets l) s (_assets l) (mapOfAssetsWithID l) (l_promise l)
           (l_loading l) (l_error l) (progress l) (lobj_loading l)
           (lobj_error l) (branches l) (join l) (factory_calls l).

Definition set__assets (s : list nat) (l : Loader) : Loader :=
  mkLoader (assets l) (l_subscribers l) s (mapOfAssetsWithID l) (l_promise l)
           (l_loading l) (l_error l) (progress l) (lobj_loading l)
           (lobj_error l) (branches l) (join l) (factory_calls l).

Definition set_mapOfAssetsWithID (m : gmap string nat) (l : Loader) : Loader :=
  mkLoader (assets l) (l_subscribers l) (_assets l) m (l_promise l)
           (l_loading l) (l_error l) (progress l) (lobj_loading l)
           (lobj_error l) (branches l) (join l) (factory_calls l).

Definition set_l_promise (pr : option nat) (l : Loader) : Loader :=
  mkLoader (assets l) (l_subscribers l) (_assets l) (mapOfAssetsWithID l) pr
           (l_loading l) (l_error l) (progress l) (lobj_loading l)
           (lobj_error l) (branches l) (join l) (factory_calls l).

Definition set_l_loading (b : bool) (l : Loader) : Loader :=
  mkLoader (assets l) (l_subscribers l) (_assets l) (mapOfAssetsWithID l)
           (l_promise l) b (l_error l) (progress l) (lobj_loading l)
           (lobj_error l) (branches l) (join l) (factory_calls l).

Definition set_l_error (e : option Error) (l : Loader) : Loader :=
  mkLoader (assets l) (l_subscribers l) (_assets l) (mapOfAssetsWithID l)
           (l_promise l) (l_loading l) e (progress l) (lobj_loading l)
           (lobj_error l) (branches l) (join l) (factory_calls l).

Definition set_progress (q : number) (l : Loader) : Loader :=
  mkLoader (assets l) (l_subscribers l) (_assets l) (mapOfAssetsWithID l)
           (l_promise l) (l_loading l) (l_error l) q (lobj_loading l)
           (lobj_error l) (branches l) (join l) (factory_calls l).

Definition set_branches (bs : list Branch) (l : Loader) : Loader :=
  mkLoader (assets l) (l_subscribers l) (_assets l) (mapOfAssetsWithID l)
           (l_promise l) (l_loading l) (l_error l) (progress l)
           (lobj_loading l) (lobj_error l) bs (join l) (factory_calls l).

Definition set_join (j : Join) (l : Loader) : Loader :=
  mkLoader (assets l) (l_subscribers l) (_assets l) (mapOfAssetsWithID l)
           (l_promise l) (l_loading l) (l_error l) (progress l)
           (lobj_loading l) (lobj_error l) (branches l) j (factory_calls l).

Definition count_factory (f : nat) (l : Loader) : Loader :=
  mkLoader (assets l) (l_subscribers l) (_assets l) (mapOfAssetsWithID l)
           (l_promise l) (l_loading l) (l_error l) (progress l)
           (lobj_loading l) (lobj_error l) (branches l) (join l)
           (factory_calls l ++ [f]).

Definition with_asset (i : nat) (f : Asset T -> Asset T) (w : World T) : World T :=
  mkWorld (alter f i (store w)) (ldr w) (promises w) (log w).

Definition with_ldr (f : Loader -> Loader) (w : World T) : World T :=
  mkWorld (store w) (f (ldr w)) (promises w) (log w).

Definition snap (w : World T) : Core T :=
  mkCore (store w) (ldr w) (promises w).

Definition record (e : Entry T) (w : World T) : World T :=
  mkWorld (store w) (ldr w) (promises w) (log w ++ [e]).

(** ** [Set]: [add], [delete], [forEach] *)

Definition set_add {A} `{EqDecision A} (x : A) (s : list A) : list A :=
  if decide (x ∈ s) then s else s ++ [x].

Definition set_delete {A} `{EqDecision A} (x : A) (s : list A) : list A :=
  list_difference s [x].

(** [forEach entries callback pending w]: the rest of a [forEach] whose
    entries still to visit are [pending]; [entries w] is the content of the
    set in [w]. An entry deleted before its turn is not visited. *)
Fixpoint forEach {A} `{EqDecision A} (entries : World T -> list A)
    (callback : A -> World T -> World T) (pending : list A)
    (w : World T) : World T :=
  match pending with
  | [] => w
  | x :: rest =>
      forEach entries callback rest
        (if decide (x ∈ entries w) then callback x w else w)
  end.

(** ** The loader's broadcast and [updateProgress] (lines 155-163) *)

(** One user callback of the loader is invoked: it observes, then runs its
    unsubscriptions. *)
Definition l_notify (st : Status) (k : nat) (w : World T) : World T :=
  with_ldr (fun l => set_l_subscribers
                       (list_difference (l_subscribers l) (unsubs k st)) l)
           (record (Called OfLoader (User k) st (snap w)) w).

(** [subscribers.forEach((callback) => callback(st))] in [loader]. *)
Definition l_broadcast (st : Status) (w : World T) : World T :=
  forEach (fun w => l_subscribers (ldr w)) (l_notify st)
          (l_subscribers (ldr w)) w.

(** [asset.progress] read through the getter. *)
Definition progress_of (w : World T) (i : nat) : number :=
  match store w !! i with Some a => p a | None => 0%float end.

(** Lines 156-161: the assignment to [progress]. *)
Definition recompute (w : World T) : World T :=
  let total := length (_assets (ldr w)) in
  let loaded :=
    fold_left (fun acc i => (acc + or_zero (progress_of w i))%float)
              (_assets (ldr w)) 0%float in
  with_ldr (set_progress
              (if decide (total = 0%nat) then 0%float
               else (loaded / number_of_nat total)%float)) w.

Definition l_updateProgress (w : World T) : World T :=
  let w1 := recompute w in
  l_broadcast PROGRESS (record (Recomputed (snap w1)) w1).

(** ** The asset (lines 76-142) *)

Definition subs_of (i : nat) (w : World T) : list Callback :=
  match store w !! i with Some a => subscribers a | None => [] end.

(** One subscriber of asset [i] is invoked. *)
Definition a_notify (i : nat) (st : Status) (cb : Callback)
    (w : World T) : World T :=
  let w1 := record (Called (OfAsset i) cb st (snap w)) w in
  match cb with
  | User k =>
      with_asset i (fun a => set_subscribers
                               (list_difference (subscribers a)
                                                (User <$> unsubs k st)) a) w1
  | Aggregate => l_updateProgress w1
  end.

(** [subscribers.forEach((callback) => callback(st))] in [asset]. *)
Definition broadcast (i : nat) (st : Status) (w : World T) : World T :=
  forEach (subs_of i) (a_notify i st) (subs_of i w) w.

(** [updateProgress] of the asset (lines 96-99). *)
Definition updateProgress (i : nat) (q : number) (w : World T) : World T :=
  broadcast i PROGRESS (with_asset i (set_p q) w).

(** [subscribe] of the asset (lines 89-94) and the function it returns. *)
Definition subscribe (i : nat) (cb : Callback) (w : World T) : World T :=
  with_asset i (fun a => set_subscribers (set_add cb (subscribers a)) a) w.

Definition unsubscribe (i : nat) (cb : Callback) (w : World T) : World T :=
  with_asset i (fun a => set_subscribers (set_delete cb (subscribers a)) a) w.

Definition data_of (i : nat) (w : World T) : option T :=
  match store w !! i with Some a => data a | None => None end.

(** The rest of [load] once the outcome of the load function is known: the
    assignment to [data] (line 109 or 111) or the [catch] block (lines
    113-116), then lines 117-119. *)
Definition settle (i : nat) (r : Thrown + option T) (w : World T) : World T :=
  let w1 :=
    match r with
    | inr v => with_asset i (set_data v) w
    | inl e => broadcast i ERROR (with_asset i (set_error e) w)
    end in
  let w2 := with_asset i (fun a => set_p 1%float (set_loading false a)) w1 in
  broadcast i LOADED w2.

(** [load] (lines 101-121) up to its first suspension: the new world and the
    state of the promise the call returned. *)
Definition load (i : nat) (w : World T) : World T * Promise (option T) :=
  match store w !! i with
  | None => (w, Resolved None)
  | Some a =>
      if loading a then (w, Resolved None)
      else
        let w1 := with_asset i (set_loading true) w in
        let w2 := broadcast i LOADING w1 in
        let run := a_loader a (invocations a) in
        let w3 := with_asset i count_invocation w2 in
        let w4 := fold_left (fun w q => updateProgress i q w) (reports run) w3 in
        match result run with
        | Value v =>
            let w5 := settle i (inr v) w4 in (w5, Resolved (data_of i w5))
        | Raise e =>
            let w5 := settle i (inl e) w4 in (w5, Resolved (data_of i w5))
        | Promised =>
            (with_asset i (set_promise (Some (invocations a))) w4, Waiting)
        end
  end.

(** The [data] getter (lines 124-129). *)
Definition get_data (i : nat) (w : World T) : World T * option T :=
  match store w !! i with
  | None => (w, None)
  | Some a =>
      let w1 :=
        match data a with
        | None => if loading a then w else fst (load i w)
        | Some _ => w
        end in
      (w1, data_of i w1)
  end.

(** ** The loader (lines 146-228) *)

Definition id_of (i : nat) (w : World T) : option string :=
  match store w !! i with Some a => options_id a | None => None end.

(** [addToLoader] (lines 165-169). [asset.id && ...] lets a non-empty
    string through: [undefined] and the empty string are falsy. *)
Definition addToLoader (i : nat) (w : World T) : World T :=
  let w1 := with_ldr (fun l => set__assets (_assets l ++ [i]) l) w in
  let w2 :=
    match id_of i w1 with
    | Some s =>
        if decide (s = EmptyString) then w1
        else with_ldr (fun l => set_mapOfAssetsWithID
                                  (<[s := i]> (mapOfAssetsWithID l)) l) w1
    | None => w1
    end in
  subscribe i Aggregate w2.

(** [get] (lines 206-208). *)
Definition get (id : string) (w : World T) : option nat :=
  mapOfAssetsWithID (ldr w) !! id.

(** [subscribe] of the loader (lines 210-215) and the function it returns. *)
Definition l_subscribe (k : nat) (w : World T) : World T :=
  with_ldr (fun l => set_l_subscribers (set_add k (l_subscribers l)) l) w.

Definition l_unsubscribe (k : nat) (w : World T) : World T :=
  with_ldr (fun l => set_l_subscribers (set_delete k (l_subscribers l)) l) w.

(** A branch whose promise is fulfilled. *)
Definition branch_done (b : Branch) : bool :=
  match b with AwaitLoads [] => true | _ => false end.

Definition branch_failure (b : Branch) : option Thrown :=
  match b with Failed e => Some e | _ => None end.

(** [Promise.all]: rejected with the first rejection, fulfilled once every
    branch is. Evaluated after each transition that changes a branch, so the
    failure found is the first in time. *)
Definition Promise_all (bs : list Branch) : Join :=
  match omap branch_failure bs with
  | e :: _ => Rejected e
  | [] => if forallb branch_done bs then Fulfilled else Unsettled
  end.

Definition update_join (w : World T) : World T :=
  match join (ldr w) with
  | Unsettled => with_ldr (fun l => set_join (Promise_all (branches l)) l) w
  | _ => w
  end.

(** The callback of [assets.map] (lines 176-192) on one input. *)
Definition start_input (acc : World T * list Branch) (x : LoaderInput)
    : World T * list Branch :=
  match x with
  | Factory f =>
      (with_ldr (count_factory f) (fst acc), snd acc ++ [AwaitFactory f])
  | Direct i =>
      let w1 := addToLoader i (fst acc) in
      let r := load i w1 in
      (fst r,
       snd acc ++ [match snd r with
                   | Waiting => AwaitLoads [i]
                   | _ => AwaitLoads []
                   end])
  end.

(** [start] (lines 171-204): the new world and the promise returned. *)
Definition start (w : World T) : World T * nat :=
  let w0 := with_ldr (set_l_loading true) w in
  match l_promise (ldr w0) with
  | Some pr => (w0, pr)
  | None =>
      let w1 := l_broadcast LOADING w0 in
      let r := fold_left start_input (assets (ldr w1)) (w1, []) in
      let w2 := fst r in
      let pr := promises w2 in
      let w3 :=
        mkWorld (store w2)
                (set_branches (snd r) (set_l_promise (Some pr) (ldr w2)))
                (S pr) (log w2) in
      (update_join w3, pr)
  end.

(** The reaction of the first [then] of a factory branch (lines 179-184). *)
Definition factory_resolved (b : nat) (ixs : list nat) (w : World T) : World T :=
  match branches (ldr w) !! b with
  | Some (AwaitFactory _) =>
      let w1 := fold_left (fun w i => addToLoader i w) ixs w in
      with_ldr (fun l => set_branches (<[b := Registered ixs]> (branches l)) l) w1
  | _ => w
  end.

(** The factory's promise rejects: both [then]s are skipped. *)
Definition factory_rejected (b : nat) (e : Thrown) (w : World T) : World T :=
  match branches (ldr w) !! b with
  | Some (AwaitFactory _) =>
      update_join
        (with_ldr (fun l => set_branches (<[b := Failed e]> (branches l)) l) w)
  | _ => w
  end.

(** [result.map((asset) => asset.load())]: each [load] runs up to its first
    suspension; the promises still pending are collected. *)
Definition load_each (acc : World T * list nat) (i : nat) : World T * list nat :=
  let r := load i (fst acc) in
  (fst r, match snd r with Waiting => snd acc ++ [i] | _ => snd acc end).

(** The reaction of the second [then] of a factory branch (lines 185-187). *)
Definition factory_loads (b : nat) (w : World T) : World T :=
  match branches (ldr w) !! b with
  | Some (Registered ixs) =>
      let r := fold_left load_each ixs (w, []) in
      update_join
        (with_ldr (fun l => set_branches (<[b := AwaitLoads (snd r)]> (branches l)) l)
                  (fst r))
  | _ => w
  end.

(** The promise of [load()] on asset [i] is fulfilled. *)
Definition loaded_branch (i : nat) (b : Branch) : Branch :=
  match b with
  | AwaitLoads ixs => AwaitLoads (list_difference ixs [i])
  | _ => b
  end.

(** The promise the load function of asset [i] returned settles: the
    suspended [load] resumes and runs to its end. *)
Definition resume (i : nat) (r : Thrown + option T) (w : World T) : World T :=
  match store w !! i with
  | Some a =>
      if loading a then
        update_join
          (with_ldr (fun l => set_branches (loaded_branch i <$> branches l) l)
                    (settle i r w))
      else w
  | None => w
  end.

(** The reactions attached to the joined promise (lines 194-202): the
    [catch] reaction and the [finally] reaction are two jobs, and other
    jobs can run between them. [joined] runs the next one. *)
Definition on_catch (e : Thrown) (w : World T) : World T :=
  l_broadcast ERROR (with_ldr (set_l_error e) w).

Definition on_finally (w : World T) : World T :=
  l_broadcast LOADED (with_ldr (set_l_loading false) w).

Definition joined (w : World T) : World T :=
  match join (ldr w) with
  | Rejected e => on_catch e (with_ldr (set_join Caught) w)
  | Fulfilled | Caught => on_finally (with_ldr (set_join Handled) w)
  | _ => w
  end.

(** ** Runs *)

(** What the environment can do next: the caller's calls, the calls the
    load functions make, and the settlements of the promises the load
    functions and the factories returned. *)
Inductive Op :=
| OLoad (i : nat)
| OReadData (i : nat)
| OSubscribe (i k : nat)
| OUnsubscribe (i k : nat)
| OReport (i : nat) (q : number)
| OSettle (i : nat) (r : Thrown + option T)
| OStart
| OLSubscribe (k : nat)
| OLUnsubscribe (k : nat)
| OFactoryResolve (b : nat) (ixs : list nat)
| OFactoryReject (b : nat) (e : Thrown)
| OFactoryLoads (b : nat)
| OJoined.

Definition exec (w : World T) (o : Op) : World T :=
  match o with
  | OLoad i => fst (load i w)
  | OReadData i => fst (get_data i w)
  | OSubscribe i k => subscribe i (User k) w
  | OUnsubscribe i k => unsubscribe i (User k) w
  | OReport i q => updateProgress i q w
  | OSettle i r => resume i r w
  | OStart => fst (start w)
  | OLSubscribe k => l_subscribe k w
  | OLUnsubscribe k => l_unsubscribe k w
  | OFactoryResolve b ixs => factory_resolved b ixs w
  | OFactoryReject b e => factory_rejected b e w
  | OFactoryLoads b => factory_loads b w
  | OJoined => joined w
  end.

Definition run (ops : list Op) (w : World T) : World T := fold_left exec ops w.

End Semantics.

(** ** Construction *)

(** [asset(loader, options)] (lines 76-142): the closure variables at their
    initial values, and the object literal's [error], [loading], [promise]
    evaluated once, there. *)
Definition asset {T} (loader : nat -> LoadRun T) (id : option string) : Asset T :=
  let data := None in
  let error := None in
  let promise := None in
  let loading := false in
  let p := 0%float in
  mkAsset loader id data error promise loading p [] error loading promise 0.

(** [loader(...assets)] (lines 146-228). *)
Definition loader (inputs : list LoaderInput) : Loader :=
  let promise := None in
  let loading := false in
  let error := None in
  let progress := 0%float in
  mkLoader inputs [] [] ∅ promise loading error progress loading error [] Unsettled [].

(** The heap after the assets [objs] and one loader over [inputs] have been
    constructed. *)
Definition init {T} (objs : list (Asset T)) (inputs : list LoaderInput) : World T :=
  mkWorld objs (loader inputs) 0 [].

(** The operations that go through no promise of the loader: the calls on
    an asset and the (un)subscriptions. *)
Definition plain {T} (o : @Op T) : Prop :=
  match o with
  | OLoad _ | OReadData _ | OSubscribe _ _ | OUnsubscribe _ _ | OReport _ _
  | OLSubscribe _ | OLUnsubscribe _ => True
  | _ => False
  end.

(** ** [memo] (lines 31-41) *)

(** The closure behind the function [memo(fn)] returns: [started] and
    [cache], with the behaviour of [fn] ([m_fn n] is what its n-th
    invocation does: it returns a value, [undefined] being [None], or it
    throws) and the number of invocations made so far. *)
Record Memo (V : Type) := mkMemo {
  m_fn : nat -> Error + option V;
  started : bool;
  cache : option V;
  m_invocations : nat
}.
Arguments mkMemo {V}.
Arguments m_fn {V} _ _.
Arguments started {V} _.
Arguments cache {V} _.
Arguments m_invocations {V} _.

Definition memo {V} (fn : nat -> Error + option V) : Memo V :=
  let started := false in
  let cache := None in
  mkMemo fn started cache 0.

(** One call of the returned function: the closure it leaves, and the value
    returned or the exception that leaves the call. [started] is assigned
    before [fn] is invoked, [cache] after it has returned. *)
Definition memo_call {V} (m : Memo V) : Memo V * (Error + option V) :=
  if started m then (m, inr (cache m))
  else
    match m_fn m (m_invocations m) with
    | inr v => (mkMemo (m_fn m) true v (S (m_invocations m)), inr v)
    | inl e => (mkMemo (m_fn m) true (cache m) (S (m_invocations m)), inl e)
    end.

(** [n] calls in a row: the closure they leave and their outcomes. *)
Fixpoint memo_calls {V} (n : nat) (m : Memo V)
    : Memo V * list (Error + option V) :=
  match n with
  | O => (m, [])
  | S n' =>
      let r := memo_call m in
      let rs := memo_calls n' (fst r) in
      (fst rs, snd r :: snd rs)
  end.

(** ** [fetchWithProgress] (lines 43-74) *)

(** [total] (lines 49-50): [undefined] ([None]) when the response carries no
    [Content-Length] or an empty one, otherwise the number [parseInt]
    returned. *)
Definition Total := option number.

(** [received / total] for a byte count [received]; in the division
    [undefined] converts to [NaN]. *)
Definition divide (received : nat) (total : Total) : number :=
  (number_of_nat received / default nan total)%float.

(** A chunk the reader delivers: its bytes. *)
Definition Chunk := list Byte.byte.

(** How the body ends: [read()] reports [done], or its promise rejects. *)
Inductive Ending := Ends | Breaks (e : Error).

(** What [fetch] resolved to, as far as the function looks at it: the
    chunks [response.body] delivers and how it ends ([None] for a null
    body), [total] as lines 49-50 compute it from the headers, the headers
    and the status. *)
Record Response (H : Type) := mkResponse {
  body : option (list Chunk * Ending);
  total_of : Total;
  headers : H;
  status : nat
}.
Arguments mkResponse {H}.
Arguments body {H} _.
Arguments total_of {H} _.
Arguments headers {H} _.
Arguments status {H} _.

(** What the [pump] does, in order: a call of [options.onProgress], a
    [controller.enqueue], [controller.close]. *)
Inductive PumpEvent :=
| Progressed (x : number)
| Enqueued (value : Chunk)
| Closed.

(** [pump] (lines 54-66) with [received] bytes counted so far;
    [onProgress] tells whether [options.onProgress] is given. When a
    [read()] rejects nothing reacts: the stream is left open. *)
Fixpoint pump (total : Total) (onProgress : bool) (received : nat)
    (reads : list Chunk) (ending : Ending) : list PumpEvent :=
  match reads with
  | [] => match ending with Ends => [Closed] | Breaks _ => [] end
  | value :: rest =>
      let received := (received + length value)%nat in
      (if onProgress then [Progressed (divide received total)] else [])
      ++ Enqueued value :: pump total onProgress received rest ending
  end.

(** The promise [fetchWithProgress] returns: rejected with the error of
    [fetch], rejected with the [TypeError] of [getReader] on a null body, or
    resolved with a response over the new stream. *)
Inductive Fetched (H : Type) :=
| FetchFailed (e : Error)
| NullBody
| Streamed (events : list PumpEvent) (hs : H) (st : nat).
Arguments FetchFailed {H} e.
Arguments NullBody {H}.
Arguments Streamed {H} events hs st.

Definition fetchWithProgress {H} (fetched : Error + Response H)
    (onProgress : bool) : Fetched H :=
  match fetched with
  | inl e => FetchFailed e
  | inr response =>
      match body response with
      | None => NullBody
      | Some (reads, ending) =>
          let received := 0%nat in
          Streamed (pump (total_of response) onProgress received reads ending)
                   (headers response) (status response)
      end
  end.

(** * Observations, views and specifications *)

(** ** What the log shows *)

(** The invocations of [cb] by the broadcasts of [src], in order, each with
    its status and the heap the callback found. *)
Definition seen {T} (src : Source) (cb : Callback) (l : list (Entry T))
    : list (Status * Core T) :=
  omap (fun e => match e with
                 | Called s c st now =>
                     if decide (s = src /\ c = cb) then Some (st, now) else None
                 | Recomputed _ => None
                 end) l.

(** The statuses a callback was invoked with. *)
Definition statuses {T} (src : Source) (cb : Callback) (l : list (Entry T))
    : list Status := fst <$> seen src cb l.

(** How many times [cb] has been invoked by the broadcasts of [src]. *)
Definition calls {T} (src : Source) (cb : Callback) (w : World T) : nat :=
  length (seen src cb (log w)).

(** The heaps right after each assignment to the loader's [progress]. *)
Definition recomputations {T} (l : list (Entry T)) : list (Core T) :=
  omap (fun e => match e with Recomputed now => Some now | _ => None end) l.

(** The callbacks of the loader the log shows invoked with [ERROR]. *)
Definition loader_errors {T} (l : list (Entry T)) : list Callback :=
  omap (fun e => match e with
                 | Called OfLoader cb ERROR _ => Some cb
                 | _ => None
                 end) l.

(** ** Views of a world *)

(** A world seen through a view [pi] of each asset, a view [la] of the
    loader and a view [lo] of the log. *)
Definition view {T B C E} (pi : Asset T -> B) (la : Loader -> C)
    (lo : list (Entry T) -> E) (w : World T) : list B * C * E :=
  (pi <$> store w, la (ldr w), lo (log w)).

(** An asset without its subscriber set. *)
Definition bare {T} (a : Asset T) : Asset T := set_subscribers [] a.

(** An asset without its subscriber set and its [p]. *)
Definition nop {T} (a : Asset T) : Asset T := set_p 0%float (bare a).

(** The loader without its subscriber set and its [progress]. *)
Definition steady (l : Loader) : Loader :=
  set_l_subscribers [] (set_progress 0%float l).

(** What the operations on the assets leave alone in the loader. *)
Definition wiring (l : Loader) :=
  (assets l, l_error l, lobj_error l, branches l, join l, l_promise l,
   _assets l).

(** The part of [wiring] that registration leaves alone. *)
Definition rest (l : Loader) :=
  (assets l, l_error l, lobj_error l, branches l, join l, l_promise l).

(** The id index and the registered assets. *)
Definition index (l : Loader) := (mapOfAssetsWithID l, _assets l).

(** Every broadcast but the loader's [ERROR]. *)
Definition calm (src : Source) (st : Status) : Prop :=
  ~ (src = OfLoader /\ st = ERROR).

Definition dview {T} (w : World T) :=
  view (fun _ : Asset T => tt) wiring (@loader_errors T) w.

Definition cview {T} (w : World T) :=
  view (@options_id T) index (fun _ : list (Entry T) => tt) w.

(** ** Points inside a function *)

(** The world in which the load function of asset [i] returns: [loading]
    set, [LOADING] broadcast, the function invoked and its synchronous
    progress reports broadcast (lines 103-106). *)
Definition begun {T} (unsubs : nat -> Status -> list nat) (i : nat)
    (a : Asset T) (w : World T) : World T :=
  fold_left (fun w q => updateProgress unsubs i q w)
            (reports (a_loader a (invocations a)))
            (with_asset i count_invocation
               (broadcast unsubs i LOADING (with_asset i (set_loading true) w))).

(** What a subscriber of an asset deletes from the set when invoked. *)
Definition removed_by (unsubs : nat -> Status -> list nat) (st : Status)
    (cb : Callback) : list Callback :=
  match cb with User k => User <$> unsubs k st | Aggregate => [] end.

(** ** Aggregate progress *)

(** The sum as [reduce] computes it: from the left, starting at 0, each
    value through [|| 0]. *)
Definition sum (l : list number) : number :=
  fold_left (fun acc x => (acc + or_zero x)%float) l 0%float.

(** The arithmetic mean in the arithmetic of numbers, 0 for no values. *)
Definition mean (l : list number) : number :=
  match l with
  | [] => 0%float
  | _ => (sum l / number_of_nat (length l))%float
  end.

(** The [progress] of the registered assets, in registration order. *)
Definition registered_progress {T} (c : Core T) : list number :=
  (fun i => match c_store c !! i with Some a => p a | None => 0%float end)
    <$> _assets (c_ldr c).

(** The [progress] of all the assets that exist. *)
Definition declared_progress {T} (c : Core T) : list number := p <$> c_store c.

(** The loader's [progress] is the mean over the registered assets. *)
Definition averaged {T} (c : Core T) : Prop :=
  progress (c_ldr c) = mean (registered_progress c).

#[global] Instance averaged_dec {T} (c : Core T) : Decision (averaged c).
Proof. unfold averaged. apply _. Defined.

(** The recomputations a log shows that did not assign the mean. *)
Definition off_mean {T} (l : list (Entry T)) : list (Core T) :=
  filter (fun c => ~ averaged c) (recomputations l).

(** ** Invariants *)

(** The lists standing for the [Set]s are duplicate-free. *)
Definition tidy {T} (w : World T) : Prop :=
  Forall (fun a => NoDup (subscribers a)) (store w)
  /\ NoDup (l_subscribers (ldr w)).

Definition is_await (b : Branch) : Prop :=
  match b with AwaitLoads _ => True | _ => False end.

(** The invariant of a loader constructed over the plain assets [ixs]. *)
Record direct {T} (ixs : list nat) (w : World T) : Prop := mkDirect {
  direct_inputs : assets (ldr w) = Direct <$> ixs;
  direct_branches : Forall is_await (branches (ldr w));
  direct_join : forall e, join (ldr w) <> Rejected e;
  direct_error : l_error (ldr w) = None;
  direct_obj_error : lobj_error (ldr w) = None;
  direct_log : loader_errors (log w) = [];
  direct_assets :
    _assets (ldr w) = match l_promise (ldr w) with None => [] | Some _ => ixs end
}.

(** The registered asset carrying [id] that was registered last. *)
Definition most_recent {T} (w : World T) (id : string) : option nat :=
  last (filter (fun i => id_of i w = Some id) (_assets (ldr w))).

(** The id index holds, for every non-empty id, the asset registered last
    among those carrying it, and nothing for the empty id. *)
Definition indexed {T} (w : World T) : Prop :=
  forall id, get id w = if decide (id = EmptyString) then None else most_recent w id.

(** ** Scenarios *)

(** Callbacks that only observe. *)
Definition passive : nat -> Status -> list nat := fun _ _ => [].

(** Callback 1 unsubscribes callback 2. *)
Definition first_removes_second : nat -> Status -> list nat :=
  fun k _ => if decide (k = 1%nat) then [2%nat] else [].

(** Every callback unsubscribes itself when it is invoked. *)
Definition leaves_when_called : nat -> Status -> list nat := fun k _ => [k].

(** Load functions: one returning a promise, one returning ["a"], one
    throwing [Error("x")]. *)
Definition resolves_later : nat -> LoadRun string := fun _ => mkRun [] Promised.

Definition returns_a : nat -> LoadRun string :=
  fun _ => mkRun [] (Value (Some "a"%string)).

Definition throws_x : nat -> LoadRun string :=
  fun _ => mkRun [] (Raise (Some (mkError "x"))).

(** One asset, idle; the same with an observer; the same with two observers
    on the asset and two on the loader. *)
Definition one_pending : World string := init [asset resolves_later None] [].

Definition one_observed : World string := subscribe 0 (User 5) one_pending.

Definition two_observers : World string :=
  l_subscribe 2 (l_subscribe 1
    (subscribe 0 (User 2) (subscribe 0 (User 1) one_pending))).

(** A loader over two plain assets whose load functions return promises. *)
Definition two_assets : World string :=
  init [asset resolves_later None; asset resolves_later None]
       [Direct 0; Direct 1].

(** An observer on the loader and one on the second asset, [start()], the
    two settlements in either order, then the reactions of the join. *)
Definition one_fails (resolve_first : bool) : list (@Op string) :=
  [OLSubscribe 0; OSubscribe 1 1; OStart]
  ++ (if resolve_first
      then [OSettle 0 (inr (Some "a"%string)); OSettle 1 (inl (Some (mkError "x")))]
      else [OSettle 1 (inl (Some (mkError "x"))); OSettle 0 (inr (Some "a"%string))])
  ++ [OJoined].

(** A loader over two plain assets whose load functions return ["a"] and
    throw [Error("x")] on the spot. *)
Definition two_synchronous : World string :=
  init [asset returns_a None; asset throws_x None] [Direct 0; Direct 1].

(** A loader started over a synchronous asset and a pending one. *)
Definition sync_then_pending : World string :=
  run passive [OStart]
      (init [asset returns_a None; asset resolves_later None]
            [Direct 0; Direct 1]).

(** ** The claims the code does not meet, as the specification states them *)

(** C1: the loader's error has message ["x"], its [loading] is false, and
    its subscriber has observed [ERROR] and [LOADED]. *)
Definition C1_as_stated (w : World string) : Prop :=
  message <$> l_error (ldr w) = Some "x"%string
  /\ l_loading (ldr w) = false
  /\ ERROR ∈ statuses OfLoader (User 0) (log w)
  /\ LOADED ∈ statuses OfLoader (User 0) (log w).

(** C3, for the first asset of the store: the load function has been
    invoked at most once. *)
Definition C3_as_stated (w : World string) : Prop :=
  forall n, invocations <$> (store w !! 0%nat) = Some n -> n <= 1.

(** C6: at every recomputation the loader's progress is the mean over the
    N declared assets. *)
Definition C6_as_stated (w : World string) : Prop :=
  Forall (fun c => progress (c_ldr c) = mean (declared_progress c))
         (recomputations (log w)).

(** C8, for a broadcast of the first asset of the store: when a callback
    unsubscribes a subscriber, every other callback subscribed at the start
    of the broadcast is invoked exactly once in it. *)
Definition C8_as_stated (unsubs : nat -> Status -> list nat) (st : Status)
    (w : World string) : Prop :=
  forall x cb,
    x ∈ subs_of 0 w -> removed_by unsubs st x <> [] ->
    cb ∈ subs_of 0 w -> cb <> x ->
    calls (OfAsset 0) cb (broadcast unsubs 0 st w) = S (calls (OfAsset 0) cb w).

(** C9: [get(id)] is the registered asset carrying [id] registered last. *)
Definition C9_as_stated (w : World string) (id : string) : Prop :=
  get id w = most_recent w id.

(** ** What the pump does *)

(** The chunks a sequence of pump events enqueues, and the values it
    passes to [onProgress]. *)
Definition enqueued (es : list PumpEvent) : list Chunk :=
  omap (fun e => match e with Enqueued value => Some value | _ => None end) es.

Definition progressed (es : list PumpEvent) : list number :=
  omap (fun e => match e with Progressed x => Some x | _ => None end) es.

Definition byte_length (reads : list Chunk) : nat :=
  sum_list (length <$> reads).

(** The byte counts after each chunk, starting from [received]. *)
Fixpoint running (received : nat) (reads : list Chunk) : list nat :=
  match reads with
  | [] => []
  | value :: rest =>
      (received + length value)%nat :: running (received + length value) rest
  end.

(** A response of five bytes in two chunks, with its length declared. *)
Definition five_bytes : Response unit :=
  mkResponse (Some ([[Byte.x68; Byte.x65]; [Byte.x6c; Byte.x6c; Byte.x6f]], Ends))
             (Some 5%float) tt 200.

(** ** What a subscriber hears *)

(** The callbacks the broadcasts of [src] invoked, in order. *)
Definition invoked {T} (src : Source) (l : list (Entry T)) : list Callback :=
  omap (fun e => match e with
                 | Called s cb _ _ => if decide (s = src) then Some cb else None
                 | Recomputed _ => None
                 end) l.

(** The callback [k] is not subscribed to asset [i] and the log shows the
    invocations [L] of it. *)
Definition absent {T} (i k : nat) (L : list (Status * Core T)) (w : World T)
    : Prop :=
  (User k ∉ subs_of i w) /\ seen (OfAsset i) (User k) (log w) = L.

(** The callback invoked was in the subscriber set at that moment. *)
Definition subscribed_when_called {T} (e : Entry T) : Prop :=
  match e with
  | Called (OfAsset j) cb _ now =>
      exists a, c_store now !! j = Some a /\ cb ∈ subscribers a
  | Called OfLoader (User k) _ now => k ∈ l_subscribers (c_ldr now)
  | Called OfLoader Aggregate _ _ => False
  | Recomputed _ => True
  end.

(** What the callback [k] was invoked with by asset [i], and what the
    getters [progress] and the variable [loading] of that asset showed
    at each invocation. *)
Definition heard {T} (i k : nat) (l : list (Entry T))
    : list (Status * option (number * bool)) :=
  (fun x => (fst x, (fun a => (p a, loading a)) <$> (c_store (snd x) !! i)))
    <$> seen (OfAsset i) (User k) l.

(** The end of a load as a subscriber hears it. *)
Definition ending_events (last_report : number) {T} (r : Thrown + option T)
    : list (Status * option (number * bool)) :=
  match r with
  | inr _ => [(LOADED, Some (1%float, false))]
  | inl _ => [(ERROR, Some (last_report, true)); (LOADED, Some (1%float, false))]
  end.

(** [k] is subscribed to asset [i], in a duplicate-free set. *)
Definition observing {T} (i k : nat) (w : World T) : Prop :=
  NoDup (subs_of i w) /\ User k ∈ subs_of i w.

(** The [ERROR] and [LOADED] invocations of the loader's callback [k]. *)
Definition endings {T} (k : nat) (l : list (Entry T)) : list Status :=
  filter (fun st => st = LOADED \/ st = ERROR) (statuses OfLoader (User k) l).

(** ** More invariants *)

(** The assets as calls of [asset(loader, options)] leave them. *)
Definition constructed {T} (specs : list ((nat -> LoadRun T) * option string))
    : list (Asset T) :=
  (fun s => asset (fst s) (snd s)) <$> specs.

Definition unfailed (bs : list Branch) : Prop :=
  Forall (fun b => branch_failure b = None) bs.

(** While the join is unsettled no branch has failed. *)
Definition pending_join {T} (w : World T) : Prop :=
  join (ldr w) = Unsettled -> unfailed (branches (ldr w)).

(** Before the reactions of the join have run, the loader's callback [k] has
    heard no [ERROR] and no [LOADED]; after the [catch] reaction, at most
    one [ERROR]; after the [finally] reaction, at most one of each, [ERROR]
    first. *)
Definition ended_once {T} (k : nat) (w : World T) : Prop :=
  match join (ldr w) with
  | Handled => endings k (log w) `sublist_of` [ERROR; LOADED]
  | Caught => endings k (log w) `sublist_of` [ERROR]
  | _ => endings k (log w) = []
  end.

(** The factories and the plain assets among the inputs, in order. *)
Definition factories (inputs : list LoaderInput) : list nat :=
  omap (fun x => match x with Factory f => Some f | Direct _ => None end) inputs.

Definition directs (inputs : list LoaderInput) : list nat :=
  omap (fun x => match x with Direct i => Some i | Factory _ => None end) inputs.

Definition roster (l : Loader) := (assets l, factory_calls l, _assets l).

Definition plan (l : Loader) := (assets l, factory_calls l, l_promise l).

(** The factories have been invoked once each, by the first [start()]. *)
Definition invoked_once {T} (w : World T) : Prop :=
  factory_calls (ldr w)
  = match l_promise (ldr w) with
    | None => []
    | Some _ => factories (assets (ldr w))
    end.

(** Whether an asset is loading and how often its load function ran. *)
Definition busy {T} (a : Asset T) := (loading a, invocations a).

(** * Proofs *)

(** ** What a traversal and a fold leave alone *)

Section Projections.
Context {T : Type}.

Lemma forEach_proj {A D} `{EqDecision A} (Q : World T -> D)
    (entries : World T -> list A) (callback : A -> World T -> World T)
    (pending : list A) (w : World T) :
  (forall x w, Q (callback x w) = Q w) ->
  Q (forEach entries callback pending w) = Q w.
Proof.
  intros Hcb. revert w.
  induction pending as [|x rest IH]; intros w; simpl; [done|].
  rewrite IH. by case_decide.
Qed.

Lemma fold_left_proj {A D} (Q : World T -> D)
    (f : World T -> A -> World T) (xs : list A) (w : World T) :
  (forall w x, Q (f w x) = Q w) -> Q (fold_left f xs w) = Q w.
Proof.
  intros Hf. revert w. induction xs as [|x xs IH]; intros w; simpl; [done|].
  by rewrite IH.
Qed.

Lemma fold_left_fst_proj {A B D} (Q : World T -> D)
    (f : World T * B -> A -> World T * B) (xs : list A) (acc : World T * B) :
  (forall acc x, Q (fst (f acc x)) = Q (fst acc)) ->
  Q (fst (fold_left f xs acc)) = Q (fst acc).
Proof.
  intros Hf. revert acc. induction xs as [|x xs IH]; intros acc; simpl; [done|].
  by rewrite IH.
Qed.

Lemma fmap_alter_fixed {B} (g : Asset T -> B) (f : Asset T -> Asset T)
    (i : nat) (l : list (Asset T)) :
  (forall a, g (f a) = g a) -> g <$> alter f i l = g <$> l.
Proof.
  intros Hf. revert i. induction l as [|a l IH]; intros [|i]; simpl; try done.
  - by rewrite Hf.
  - f_equal. apply IH.
Qed.

Lemma lookup_proj {B} (g : Asset T -> B) (l l' : list (Asset T)) i a :
  g <$> l' = g <$> l -> l !! i = Some a ->
  exists a', l' !! i = Some a' /\ g a' = g a.
Proof.
  intros Heq Hi.
  assert (Hl : (g <$> l') !! i = Some (g a))
    by (rewrite Heq, list_lookup_fmap, Hi; done).
  rewrite list_lookup_fmap in Hl. apply fmap_Some in Hl as (a' & ? & ?).
  eauto.
Qed.

End Projections.

(** ** Frames: what each function leaves alone

    [pi] is any view of an asset and [la] any view of the loader that the
    assignments listed as hypotheses do not change; each lemma depends only
    on the assignments its function makes. *)

Section Keeps.
Context {T : Type} (unsubs : nat -> Status -> list nat).
Context {B C E : Type} (pi : Asset T -> B) (la : Loader -> C).
Context (lo : list (Entry T) -> E) (quiet : Source -> Status -> Prop).

Hypothesis pi_subscribers : forall s a, pi (set_subscribers s a) = pi a.
Hypothesis pi_p : forall q a, pi (set_p q a) = pi a.
Hypothesis pi_data : forall v a, pi (set_data v a) = pi a.
Hypothesis pi_error : forall e a, pi (set_error e a) = pi a.
Hypothesis pi_loading : forall b a, pi (set_loading b a) = pi a.
Hypothesis pi_promise : forall x a, pi (set_promise x a) = pi a.
Hypothesis pi_count : forall a, pi (count_invocation a) = pi a.

Hypothesis la_subscribers : forall s l, la (set_l_subscribers s l) = la l.
Hypothesis la_progress : forall q l, la (set_progress q l) = la l.
Hypothesis la_assets : forall s l, la (set__assets s l) = la l.
Hypothesis la_map : forall m l, la (set_mapOfAssetsWithID m l) = la l.
Hypothesis la_branches : forall bs l, la (set_branches bs l) = la l.
Hypothesis la_join : forall j l, la (set_join j l) = la l.
Hypothesis la_loading : forall b l, la (set_l_loading b l) = la l.
Hypothesis la_error : forall e l, la (set_l_error e l) = la l.
Hypothesis la_factory : forall f l, la (count_factory f l) = la l.
Hypothesis la_promise : forall x l, la (set_l_promise x l) = la l.

(** [lo] is any view of the log that the invocations of the [quiet]
    broadcasts and the recomputations do not change. *)
Hypothesis lo_called : forall l src cb st c,
  quiet src st -> lo (l ++ [Called src cb st c]) = lo l.
Hypothesis lo_recomputed : forall l w,
  lo (l ++ [Recomputed (snap (recompute w))]) = lo l.
Hypothesis quiet_asset : forall i st, quiet (OfAsset i) st.
Hypothesis quiet_loading : quiet OfLoader LOADING.
Hypothesis quiet_progress : quiet OfLoader PROGRESS.
Hypothesis quiet_loaded : quiet OfLoader LOADED.
Hypothesis quiet_error : quiet OfLoader ERROR.

Local Abbreviation vw := (view pi la lo).

Lemma view_with_asset i f w :
  (forall a, pi (f a) = pi a) -> vw (with_asset i f w) = vw w.
Proof. intros Hf. unfold view. simpl. by rewrite fmap_alter_fixed. Qed.

Lemma view_with_ldr f w :
  (forall l, la (f l) = la l) -> vw (with_ldr f w) = vw w.
Proof. intros Hf. unfold view. simpl. by rewrite Hf. Qed.

Lemma view_called src cb st c w :
  quiet src st -> vw (record (Called src cb st c) w) = vw w.
Proof. intros Hq. unfold view. simpl. by rewrite lo_called. Qed.

Lemma l_notify_view st k w :
  quiet OfLoader st -> vw (l_notify unsubs st k w) = vw w.
Proof. intros Hq. unfold l_notify. by rewrite view_with_ldr, view_called. Qed.

Lemma l_broadcast_view st w :
  quiet OfLoader st -> vw (l_broadcast unsubs st w) = vw w.
Proof. intros Hq. apply forEach_proj. intros; by apply l_notify_view. Qed.

Lemma recompute_view w : vw (recompute w) = vw w.
Proof. unfold recompute. by rewrite view_with_ldr. Qed.

Lemma l_updateProgress_view w : vw (l_updateProgress unsubs w) = vw w.
Proof.
  unfold l_updateProgress. rewrite l_broadcast_view by done.
  transitivity (vw (recompute w)); [|apply recompute_view].
  unfold view. simpl. by rewrite lo_recomputed.
Qed.

Lemma a_notify_view i st cb w : vw (a_notify unsubs i st cb w) = vw w.
Proof.
  unfold a_notify. destruct cb.
  - by rewrite view_with_asset, view_called.
  - by rewrite l_updateProgress_view, view_called.
Qed.

Lemma broadcast_view i st w : vw (broadcast unsubs i st w) = vw w.
Proof. apply forEach_proj. intros; apply a_notify_view. Qed.

Lemma updateProgress_view i q w : vw (updateProgress unsubs i q w) = vw w.
Proof. unfold updateProgress. by rewrite broadcast_view, view_with_asset. Qed.

Lemma subscribe_view i cb w : vw (subscribe i cb w) = vw w.
Proof. unfold subscribe. by rewrite view_with_asset. Qed.

Lemma unsubscribe_view i cb w : vw (unsubscribe i cb w) = vw w.
Proof. unfold unsubscribe. by rewrite view_with_asset. Qed.

Lemma settle_view i r w : vw (settle unsubs i r w) = vw w.
Proof.
  unfold settle. rewrite broadcast_view, view_with_asset
    by (intros; by rewrite pi_p, pi_loading).
  destruct r.
  - by rewrite broadcast_view, view_with_asset.
  - by rewrite view_with_asset.
Qed.

Lemma reports_view i qs w :
  vw (fold_left (fun w q => updateProgress unsubs i q w) qs w) = vw w.
Proof. apply fold_left_proj. intros; apply updateProgress_view. Qed.

Lemma load_view i w : vw (fst (load unsubs i w)) = vw w.
Proof.
  unfold load. destruct (store w !! i) as [a|]; [|done].
  destruct (loading a); [done|].
  assert (Hpre : vw (fold_left (fun w q => updateProgress unsubs i q w)
                         (reports (a_loader a (invocations a)))
                         (with_asset i count_invocation
                            (broadcast unsubs i LOADING
                               (with_asset i (set_loading true) w)))) = vw w).
  { by rewrite reports_view, view_with_asset, broadcast_view, view_with_asset. }
  destruct (result (a_loader a (invocations a))); simpl.
  - by rewrite settle_view.
  - by rewrite settle_view.
  - by rewrite view_with_asset.
Qed.

Lemma get_data_view i w : vw (fst (get_data unsubs i w)) = vw w.
Proof.
  unfold get_data. destruct (store w !! i) as [a|]; [|done]. simpl.
  destruct (data a); [done|]. destruct (loading a); [done|]. apply load_view.
Qed.

Lemma addToLoader_view i w : vw (addToLoader i w) = vw w.
Proof.
  unfold addToLoader. rewrite subscribe_view.
  destruct (id_of i _) as [s|]; [case_decide|];
    by rewrite ?view_with_ldr by (intros; by rewrite ?la_map, ?la_assets).
Qed.

Lemma l_subscribe_view k w : vw (l_subscribe k w) = vw w.
Proof. unfold l_subscribe. by rewrite view_with_ldr. Qed.

Lemma l_unsubscribe_view k w : vw (l_unsubscribe k w) = vw w.
Proof. unfold l_unsubscribe. by rewrite view_with_ldr. Qed.

Lemma update_join_view w : vw (update_join w) = vw w.
Proof.
  unfold update_join. destruct (join (ldr w)); try done.
  by rewrite view_with_ldr.
Qed.

Lemma start_input_view acc x : vw (fst (start_input unsubs acc x)) = vw (fst acc).
Proof.
  destruct x; simpl.
  - by rewrite load_view, addToLoader_view.
  - by rewrite view_with_ldr.
Qed.

Lemma start_view w : vw (fst (start unsubs w)) = vw w.
Proof.
  unfold start. simpl. destruct (l_promise (ldr w)) as [pr|]; simpl.
  - by rewrite view_with_ldr.
  - rewrite update_join_view.
    set (r := fold_left _ _ _).
    assert (Hr : vw (fst r) = vw w).
    { unfold r. rewrite (fold_left_fst_proj vw) by apply start_input_view.
      simpl. by rewrite l_broadcast_view, view_with_ldr. }
    rewrite <- Hr. unfold view. simpl. by rewrite la_branches, la_promise.
Qed.

Lemma factory_resolved_view b ixs w :
  vw (factory_resolved b ixs w) = vw w.
Proof.
  unfold factory_resolved.
  destruct (branches (ldr w) !! b) as [[]|]; try done.
  rewrite view_with_ldr by done.
  apply fold_left_proj. intros; apply addToLoader_view.
Qed.

Lemma factory_rejected_view b e w :
  vw (factory_rejected b e w) = vw w.
Proof.
  unfold factory_rejected.
  destruct (branches (ldr w) !! b) as [[]|]; try done.
  by rewrite update_join_view, view_with_ldr.
Qed.

Lemma factory_loads_view b w : vw (factory_loads unsubs b w) = vw w.
Proof.
  unfold factory_loads.
  destruct (branches (ldr w) !! b) as [[]|]; try done.
  rewrite update_join_view, view_with_ldr by done.
  rewrite (fold_left_fst_proj vw); [done|].
  intros acc x. apply load_view.
Qed.

Lemma resume_view i r w : vw (resume unsubs i r w) = vw w.
Proof.
  unfold resume. destruct (store w !! i) as [a|]; [|done].
  destruct (loading a); [|done].
  by rewrite update_join_view, view_with_ldr, settle_view.
Qed.

Lemma on_finally_view w : vw (on_finally unsubs w) = vw w.
Proof. unfold on_finally. by rewrite l_broadcast_view, view_with_ldr. Qed.

Lemma on_catch_view e w : vw (on_catch unsubs e w) = vw w.
Proof. unfold on_catch. by rewrite l_broadcast_view, view_with_ldr. Qed.

Lemma joined_view w : vw (joined unsubs w) = vw w.
Proof.
  unfold joined. destruct (join (ldr w)); try done.
  - by rewrite on_finally_view, view_with_ldr.
  - by rewrite on_catch_view, view_with_ldr.
  - by rewrite on_finally_view, view_with_ldr.
Qed.

(** The operations on an asset and the (un)subscriptions. *)
Lemma exec_plain_view w o : plain o -> vw (exec unsubs w o) = vw w.
Proof.
  destruct o; simpl; intros; try done;
    auto using load_view, get_data_view, subscribe_view, unsubscribe_view,
      updateProgress_view, l_subscribe_view, l_unsubscribe_view.
Qed.

(** Every operation but [start] and the reactions of the joined promise. *)
Lemma exec_inner_view w o :
  o <> OStart -> o <> OJoined -> vw (exec unsubs w o) = vw w.
Proof.
  destruct o; simpl; intros; try done;
    auto using load_view, get_data_view, subscribe_view, unsubscribe_view,
      updateProgress_view, resume_view, l_subscribe_view,
      l_unsubscribe_view, factory_resolved_view, factory_rejected_view,
      factory_loads_view.
Qed.

Lemma exec_view w o : vw (exec unsubs w o) = vw w.
Proof.
  destruct o; try (by apply exec_inner_view).
  - apply start_view.
  - apply joined_view.
Qed.

Lemma run_view ops w : vw (run unsubs ops w) = vw w.
Proof. apply fold_left_proj. intros; apply exec_view. Qed.

End Keeps.

(** ** One traversal of a subscriber set

    [removed x] is what the callback [x] deletes from the set when invoked,
    [obs y w] what the log of [w] shows of the invocations of [y], and
    [mark w] what an invocation made in [w] adds to it. *)

Section Traversal.
Context {T A D : Type} `{EqDecision A}.
Variables (entries : World T -> list A) (callback : A -> World T -> World T).
Variables (removed : A -> list A) (obs : A -> World T -> list D).
Variable mark : World T -> D.

Hypothesis entries_callback : forall x w,
  entries (callback x w) = list_difference (entries w) (removed x).
Hypothesis obs_callback : forall x y w,
  obs y (callback x w) = obs y w ++ (if decide (x = y) then [mark w] else []).

Lemma forEach_subset pending w y :
  y ∈ entries (forEach entries callback pending w) -> y ∈ entries w.
Proof.
  revert w. induction pending as [|x rest IH]; intros w; simpl; [done|].
  intros Hy. apply IH in Hy. case_decide; [|done].
  rewrite entries_callback in Hy. by apply list_elem_of_difference in Hy as [? _].
Qed.

Lemma forEach_stays pending w y :
  y ∈ entries w ->
  (forall x, x ∈ pending -> x ∈ entries w -> y ∉ removed x) ->
  y ∈ entries (forEach entries callback pending w).
Proof.
  revert w. induction pending as [|x rest IH]; intros w Hy Hrm; simpl; [done|].
  apply IH.
  - case_decide; [|done]. rewrite entries_callback.
    apply list_elem_of_difference. split; [done|]. apply Hrm; [left|done].
  - intros z Hz Hzw. apply Hrm; [by right|].
    case_decide; [|done]. rewrite entries_callback in Hzw.
    by apply list_elem_of_difference in Hzw as [? _].
Qed.

Lemma forEach_NoDup pending w :
  NoDup (entries w) -> NoDup (entries (forEach entries callback pending w)).
Proof.
  revert w. induction pending as [|x rest IH]; intros w Hnd; simpl; [done|].
  apply IH. case_decide; [|done]. rewrite entries_callback.
  by apply NoDup_list_difference.
Qed.

Lemma forEach_obs_skip pending w y :
  y ∉ pending -> obs y (forEach entries callback pending w) = obs y w.
Proof.
  revert w. induction pending as [|x rest IH]; intros w Hy; simpl; [done|].
  apply not_elem_of_cons in Hy as [Hne Hy]. rewrite IH by done.
  case_decide; [|done]. rewrite obs_callback.
  rewrite decide_False by done. by rewrite app_nil_r.
Qed.

Lemma forEach_obs_le pending w y :
  NoDup pending ->
  exists l, obs y (forEach entries callback pending w) = obs y w ++ l
            /\ length l <= 1.
Proof.
  revert w. induction pending as [|x rest IH]; intros w Hnd; simpl.
  { exists []. split; [by rewrite app_nil_r | simpl; lia]. }
  apply NoDup_cons in Hnd as [Hx Hnd].
  destruct (decide (x = y)) as [->|Hne].
  - rewrite forEach_obs_skip by done. case_decide.
    + rewrite obs_callback, decide_True by done. exists [mark w].
      split; [done | simpl; lia].
    + exists []. split; [by rewrite app_nil_r | simpl; lia].
  - destruct (IH (if decide (x ∈ entries w) then callback x w else w) Hnd)
      as (l & -> & Hl).
    exists l. split; [|done]. case_decide; [|done].
    by rewrite obs_callback, decide_False, app_nil_r.
Qed.

Lemma forEach_obs_once {E} (Q : World T -> E) pending w y :
  (forall x w, Q (callback x w) = Q w) ->
  NoDup pending -> y ∈ pending -> y ∈ entries w ->
  (forall x, x ∈ pending -> x ∈ entries w -> x ≠ y -> y ∉ removed x) ->
  exists w', obs y (forEach entries callback pending w) = obs y w ++ [mark w']
             /\ Q w' = Q w.
Proof.
  intros HQ. revert w.
  induction pending as [|x rest IH]; intros w Hnd Hy Hyw Hrm; simpl.
  { by apply elem_of_nil in Hy. }
  apply NoDup_cons in Hnd as [Hx Hnd].
  destruct (decide (x = y)) as [->|Hne].
  - rewrite forEach_obs_skip by done. rewrite decide_True by done.
    rewrite obs_callback, decide_True by done. by exists w.
  - apply elem_of_cons in Hy as [->|Hy]; [done|].
    case_decide as Hxw.
    + destruct (IH (callback x w)) as (w' & -> & Hw'); try done.
      * rewrite entries_callback. apply list_elem_of_difference.
        split; [done|]. apply Hrm; [left|done|done].
      * intros z Hz Hzw. apply Hrm; [by right|].
        rewrite entries_callback in Hzw.
        by apply list_elem_of_difference in Hzw as [? _].
      * exists w'. rewrite obs_callback, decide_False, app_nil_r by done.
        by rewrite Hw', HQ.
    + apply IH; try done. intros z Hz. apply Hrm. by right.
Qed.

Lemma forEach_app pre post w :
  forEach entries callback (pre ++ post) w
  = forEach entries callback post (forEach entries callback pre w).
Proof.
  revert w. induction pre as [|x pre IH]; intros w; simpl; [done|].
  by rewrite IH.
Qed.

Lemma forEach_obs_absent pending w y :
  y ∉ entries w -> obs y (forEach entries callback pending w) = obs y w.
Proof.
  revert w. induction pending as [|x rest IH]; intros w Hy; simpl; [done|].
  case_decide as Hx; [|by apply IH].
  rewrite IH.
  - rewrite obs_callback, decide_False, app_nil_r; [done|].
    intros ->. by apply Hy.
  - rewrite entries_callback. intros Hin.
    apply list_elem_of_difference in Hin as [? _]. by apply Hy.
Qed.

(** An entry that a callback invoked before its turn deletes is not
    visited. *)
Lemma forEach_obs_removed pre x post w y :
  y ∉ pre -> y <> x -> x ∈ entries w ->
  (forall z, z ∈ pre -> z ∈ entries w -> x ∉ removed z) ->
  y ∈ removed x ->
  obs y (forEach entries callback (pre ++ x :: post) w) = obs y w.
Proof.
  intros Hpre Hne Hx Hkeep Hrm. rewrite forEach_app. simpl.
  rewrite decide_True by by apply forEach_stays.
  rewrite forEach_obs_absent.
  - rewrite obs_callback, decide_False, app_nil_r by done.
    by apply forEach_obs_skip.
  - rewrite entries_callback. intros Hin.
    by apply list_elem_of_difference in Hin as [_ ?].
Qed.

End Traversal.

(** ** Frames, instantiated *)

Ltac store_frame lem :=
  match goal with
  | |- ?g <$> store ?w' = ?g <$> store ?w =>
      change (fst (fst (view g (fun _ : Loader => tt)
                          (fun _ : list (Entry _) => tt) w'))
              = fst (fst (view g (fun _ : Loader => tt)
                            (fun _ : list (Entry _) => tt) w)));
      do 2 f_equal; apply (lem _ _ _ _ _ _ (fun _ _ => True)); done
  end.

Ltac ldr_frame lem :=
  match goal with
  | |- ?g (ldr ?w') = ?g (ldr ?w) =>
      change (snd (fst (view (fun _ : Asset _ => tt) g
                          (fun _ : list (Entry _) => tt) w'))
              = snd (fst (view (fun _ : Asset _ => tt) g
                            (fun _ : list (Entry _) => tt) w)));
      do 2 f_equal; apply (lem _ _ _ _ _ _ (fun _ _ => True)); done
  end.

Ltac log_frame lem quiet :=
  match goal with
  | |- ?g (log ?w') = ?g (log ?w) =>
      change (snd (view (fun _ : Asset _ => tt) (fun _ : Loader => tt) g w')
              = snd (view (fun _ : Asset _ => tt) (fun _ : Loader => tt) g w));
      f_equal; apply (lem _ _ _ _ _ _ quiet)
  end.

Section Instances.
Context {T : Type} (unsubs : nat -> Status -> list nat).
Implicit Types (w : World T) (a : Asset T).

Lemma l_updateProgress_store w : store (l_updateProgress unsubs w) = store w.
Proof.
  rewrite <- (list_fmap_id (store w)), <- (list_fmap_id (store (_ w))).
  store_frame (@l_updateProgress_view T unsubs).
Qed.

Lemma l_broadcast_store st w : store (l_broadcast unsubs st w) = store w.
Proof.
  rewrite <- (list_fmap_id (store w)), <- (list_fmap_id (store (_ w))).
  store_frame (@l_broadcast_view T unsubs).
Qed.

Lemma l_broadcast_steady st w :
  steady (ldr (l_broadcast unsubs st w)) = steady (ldr w).
Proof. ldr_frame (@l_broadcast_view T unsubs). Qed.

Lemma broadcast_bare i st w :
  bare <$> store (broadcast unsubs i st w) = bare <$> store w.
Proof. store_frame (@broadcast_view T unsubs). Qed.

Lemma broadcast_steady i st w :
  steady (ldr (broadcast unsubs i st w)) = steady (ldr w).
Proof. ldr_frame (@broadcast_view T unsubs). Qed.

Lemma broadcast_lookup i st w j a :
  store w !! j = Some a ->
  exists a', store (broadcast unsubs i st w) !! j = Some a' /\ bare a' = bare a.
Proof. apply lookup_proj, broadcast_bare. Qed.

(** The closure variables of asset [i] once [settle] has run. *)
Lemma settle_lookup i r w a :
  store w !! i = Some a ->
  exists a', store (settle unsubs i r w) !! i = Some a'
    /\ bare a' = bare (set_p 1%float (set_loading false
                         (match r with
                          | inr v => set_data v a
                          | inl e => set_error e a
                          end))).
Proof.
  intros Hi. unfold settle.
  set (w1 := match r with inl _ => _ | inr _ => _ end).
  assert (exists a1, store w1 !! i = Some a1
            /\ bare a1 = bare (match r with
                               | inr v => set_data v a
                               | inl e => set_error e a
                               end)) as (a1 & Ha1 & Hb1).
  { unfold w1. destruct r as [e|v].
    - apply broadcast_lookup. simpl. by rewrite list_lookup_alter_eq, Hi.
    - eexists. split; [|done]. simpl. by rewrite list_lookup_alter_eq, Hi. }
  destruct (broadcast_lookup i LOADED
              (with_asset i (fun a => set_p 1%float (set_loading false a)) w1) i
              (set_p 1%float (set_loading false a1))) as (a' & Ha' & Hb').
  { simpl. by rewrite list_lookup_alter_eq, Ha1. }
  exists a'. split; [done|]. rewrite Hb'.
  change (set_p 1%float (set_loading false (bare a1))
          = set_p 1%float (set_loading false
              (bare (match r with
                     | inr v => set_data v a
                     | inl e => set_error e a
                     end)))).
  by rewrite Hb1.
Qed.

Lemma load_busy i w a :
  store w !! i = Some a -> loading a = true ->
  load unsubs i w = (w, Resolved None).
Proof. intros Hi Hl. unfold load. by rewrite Hi, Hl. Qed.

Lemma load_idle i w a :
  store w !! i = Some a -> loading a = false ->
  load unsubs i w =
    match result (a_loader a (invocations a)) with
    | Value v =>
        let w5 := settle unsubs i (inr v) (begun unsubs i a w) in
        (w5, Resolved (data_of i w5))
    | Raise e =>
        let w5 := settle unsubs i (inl e) (begun unsubs i a w) in
        (w5, Resolved (data_of i w5))
    | Promised =>
        (with_asset i (set_promise (Some (invocations a))) (begun unsubs i a w),
         Waiting)
    end.
Proof. intros Hi Hl. unfold load. by rewrite Hi, Hl. Qed.

Lemma begun_lookup i w a :
  store w !! i = Some a ->
  exists a4, store (begun unsubs i a w) !! i = Some a4
    /\ nop a4 = nop (count_invocation (set_loading true a)).
Proof.
  intros Hi. unfold begun.
  destruct (broadcast_lookup i LOADING (with_asset i (set_loading true) w) i
              (set_loading true a)) as (a2 & Ha2 & Hb2).
  { simpl. by rewrite list_lookup_alter_eq, Hi. }
  set (w3 := with_asset i count_invocation _).
  assert (Ha3 : store w3 !! i = Some (count_invocation a2)).
  { unfold w3. simpl. by rewrite list_lookup_alter_eq, Ha2. }
  assert (Hrep : nop <$> store (fold_left (fun w q => updateProgress unsubs i q w)
                                  (reports (a_loader a (invocations a))) w3)
                 = nop <$> store w3)
    by store_frame (@reports_view T unsubs).
  destruct (lookup_proj nop _ _ i _ Hrep Ha3) as (a4 & Ha4 & Hn4).
  exists a4. split; [exact Ha4|]. rewrite Hn4.
  change (set_p 0%float (count_invocation (bare a2))
          = set_p 0%float (count_invocation (bare (set_loading true a)))).
  by rewrite Hb2.
Qed.

End Instances.

(** * The asset *)

Section AssetProperties.
Context {T : Type} (unsubs : nat -> Status -> list nat).
Implicit Types (w : World T) (a : Asset T).

Lemma settle_store_resume i r w a :
  store w !! i = Some a -> loading a = true ->
  store (resume unsubs i r w) = store (settle unsubs i r w).
Proof.
  intros Hi Hl. unfold resume. rewrite Hi, Hl.
  unfold update_join. by destruct (join _).
Qed.

Lemma settle_settled i r w a :
  store w !! i = Some a ->
  exists a', store (settle unsubs i r w) !! i = Some a'
    /\ p a' = 1%float /\ loading a' = false.
Proof.
  intros Hi. destruct (settle_lookup unsubs i r w a Hi) as (a' & Ha' & Hb).
  exists a'. split; [done|]. split.
  - exact (f_equal p Hb).
  - exact (f_equal loading Hb).
Qed.

(** What reaches the subscribers when the promise of the load function
    settles, and when the load function throws, is what [settle] logs. *)
Lemma resume_log i r w a :
  store w !! i = Some a -> loading a = true ->
  log (resume unsubs i r w) = log (settle unsubs i r w).
Proof.
  intros Hi Hl. unfold resume. rewrite Hi, Hl.
  unfold update_join. by destruct (join _).
Qed.


(** The same at the two places a load settles: when the promise of the
    load function settles, and inside [load] itself when the load function
    returned a plain value or threw. *)
Lemma resume_settled i r w a :
  store w !! i = Some a -> loading a = true ->
  exists a', store (resume unsubs i r w) !! i = Some a'
    /\ p a' = 1%float /\ loading a' = false.
Proof.
  intros Hi Hl. rewrite (settle_store_resume i r w a Hi Hl).
  by apply settle_settled with a.
Qed.

Lemma load_settled i w a :
  store w !! i = Some a -> loading a = false ->
  result (a_loader a (invocations a)) <> Promised ->
  exists a', store (fst (load unsubs i w)) !! i = Some a'
    /\ p a' = 1%float /\ loading a' = false.
Proof.
  intros Hi Hl Hres. rewrite (load_idle unsubs i w a Hi Hl).
  destruct (begun_lookup unsubs i w a Hi) as (a4 & Ha4 & _).
  destruct (result _); [| |done]; simpl; by apply settle_settled with a4.
Qed.

(** C5: once the load of an asset has settled, with a value or with an
    error, [progress] is 1 and [loading] is false: after the code that
    follows the outcome of the load function, hence when the promise of the
    load function settles on a loading asset, and at the end of a [load()]
    whose load function returned a plain value or threw. *)
Theorem C5_settled_progress_and_loading i r w a :
  store w !! i = Some a ->
  (exists a', store (settle unsubs i r w) !! i = Some a'
     /\ p a' = 1%float /\ loading a' = false)
  /\ (loading a = true ->
        exists a', store (exec unsubs w (OSettle i r)) !! i = Some a'
          /\ p a' = 1%float /\ loading a' = false)
  /\ (loading a = false ->
        result (a_loader a (invocations a)) <> Promised ->
        exists a', store (exec unsubs w (OLoad i)) !! i = Some a'
          /\ p a' = 1%float /\ loading a' = false).
Proof.
  intros Hi. split; [by apply settle_settled with a|]. split.
  - intros Hl. by apply resume_settled with a.
  - intros Hl Hres. by apply load_settled with a.
Qed.

(** The number of invocations of the load function after [load] on an asset
    that is not loading. *)
Lemma load_idle_invocations i w a :
  store w !! i = Some a -> loading a = false ->
  exists a', store (fst (load unsubs i w)) !! i = Some a'
    /\ invocations a' = S (invocations a).
Proof.
  intros Hi Hl. rewrite (load_idle unsubs i w a Hi Hl).
  destruct (begun_lookup unsubs i w a Hi) as (a4 & Ha4 & Hn4).
  apply (f_equal invocations) in Hn4. simpl in Hn4.
  destruct (result _) as [v|e|]; simpl.
  - destruct (settle_lookup unsubs i (inr v) _ a4 Ha4) as (a' & Ha' & Hb).
    exists a'. split; [done|]. rewrite <- Hn4. exact (f_equal invocations Hb).
  - destruct (settle_lookup unsubs i (inl e) _ a4 Ha4) as (a' & Ha' & Hb).
    exists a'. split; [done|]. rewrite <- Hn4. exact (f_equal invocations Hb).
  - eexists. split; [by rewrite list_lookup_alter_eq, Ha4|]. done.
Qed.

Lemma load_busy_run i w a n :
  store w !! i = Some a -> loading a = true ->
  run unsubs (replicate n (OLoad i)) w = w.
Proof.
  intros Hi Hl. induction n as [|n IH]; simpl; [done|].
  by rewrite (load_busy unsubs i w a Hi Hl).
Qed.

(** C3 (amended): a [load()] call while [loading] is true is a no-op, and
    so is any sequence of them: the load function is not invoked, nothing
    changes and the promise returned resolves to [undefined]. A [load()]
    call while [loading] is false invokes the load function once more,
    whether or not an earlier load has completed. *)
Theorem C3_load_guarded_by_loading i w a :
  store w !! i = Some a ->
  (loading a = true ->
     load unsubs i w = (w, Resolved None)
     /\ forall n, run unsubs (replicate n (OLoad i)) w = w)
  /\ (loading a = false ->
        exists a', store (fst (load unsubs i w)) !! i = Some a'
          /\ invocations a' = S (invocations a)).
Proof.
  intros Hi. split.
  - intros Hl. split; [by apply load_busy with a|].
    intros n. by apply load_busy_run with a.
  - intros Hl. by apply load_idle_invocations.
Qed.


End AssetProperties.

(** * Broadcasts *)

Section Broadcasts.
Context {T : Type} (unsubs : nat -> Status -> list nat).
Implicit Types (w : World T) (a : Asset T).

Lemma list_difference_nil_r {A} `{EqDecision A} (l : list A) :
  list_difference l [] = l.
Proof.
  induction l as [|x l IH]; simpl; [done|].
  destruct (decide_rel elem_of x []) as [Hx|_]; [by apply elem_of_nil in Hx|].
  by rewrite IH.
Qed.

Lemma seen_app src cb (l1 l2 : list (Entry T)) :
  seen src cb (l1 ++ l2) = seen src cb l1 ++ seen src cb l2.
Proof. apply omap_app. Qed.

Lemma seen_other src cb (l : list (Entry T)) s c st now :
  s <> src -> seen src cb (l ++ [Called s c st now]) = seen src cb l.
Proof.
  intros Hne. rewrite seen_app. simpl.
  rewrite decide_False by (intros [? _]; done). apply app_nil_r.
Qed.

Lemma seen_recomputed src cb (l : list (Entry T)) now :
  seen src cb (l ++ [Recomputed now]) = seen src cb l.
Proof. rewrite seen_app. apply app_nil_r. Qed.

Lemma l_updateProgress_seen i cb w :
  seen (OfAsset i) cb (log (l_updateProgress unsubs w))
  = seen (OfAsset i) cb (log w).
Proof.
  log_frame (@l_updateProgress_view T unsubs) (fun (s : Source) (_ : Status) => s = OfLoader);
    try done.
  - intros l src c st now ->. by apply seen_other.
  - intros l w'. apply seen_recomputed.
Qed.

Lemma subs_of_a_notify i st x w :
  subs_of i (a_notify unsubs i st x w)
  = list_difference (subs_of i w) (removed_by unsubs st x).
Proof.
  destruct x as [k|]; unfold a_notify, subs_of.
  - simpl. rewrite list_lookup_alter_eq. by destruct (store w !! i).
  - rewrite l_updateProgress_store. simpl. by rewrite list_difference_nil_r.
Qed.

Lemma seen_a_notify i st x y w :
  seen (OfAsset i) y (log (a_notify unsubs i st x w))
  = seen (OfAsset i) y (log w)
    ++ (if decide (x = y) then [(st, snap w)] else []).
Proof.
  assert (Hrec : seen (OfAsset i) y (log w ++ [Called (OfAsset i) x st (snap w)])
                 = seen (OfAsset i) y (log w)
                   ++ (if decide (x = y) then [(st, snap w)] else [])).
  { rewrite seen_app. f_equal. simpl.
    destruct (decide (x = y)) as [->|Hne].
    - by rewrite decide_True.
    - rewrite decide_False; [done|]. by intros [_ ?]. }
  destruct x as [k|]; unfold a_notify.
  - exact Hrec.
  - by rewrite l_updateProgress_seen.
Qed.

Lemma seen_l_notify st x y w :
  seen OfLoader (User y) (log (l_notify unsubs st x w))
  = seen OfLoader (User y) (log w)
    ++ (if decide (x = y) then [(st, snap w)] else []).
Proof.
  unfold l_notify. simpl. rewrite seen_app. f_equal. simpl.
  destruct (decide (x = y)) as [->|Hne].
  - by rewrite decide_True.
  - rewrite decide_False; [done|]. intros [_ ?]. congruence.
Qed.

Lemma a_notify_bare i st x w :
  bare <$> store (a_notify unsubs i st x w) = bare <$> store w.
Proof. store_frame (@a_notify_view T unsubs). Qed.

(** A broadcast of an asset invokes a subscriber no callback other than
    itself unsubscribes exactly once, with the closure variables as the
    broadcast found them. *)
Lemma broadcast_seen_once i st w cb :
  NoDup (subs_of i w) -> cb ∈ subs_of i w ->
  (forall x, x ∈ subs_of i w -> x <> cb -> cb ∉ removed_by unsubs st x) ->
  exists w', seen (OfAsset i) cb (log (broadcast unsubs i st w))
             = seen (OfAsset i) cb (log w) ++ [(st, snap w')]
    /\ bare <$> store w' = bare <$> store w.
Proof.
  intros Hnd Hcb Hrm. unfold broadcast.
  apply (forEach_obs_once (subs_of i) (a_notify unsubs i st) (removed_by unsubs st)
           (fun y w => seen (OfAsset i) y (log w)) (fun w => (st, snap w))
           (subs_of_a_notify i st) (seen_a_notify i st)
           (fun w => bare <$> store w)); auto using a_notify_bare.
Qed.

Lemma broadcast_seen_le i st w cb :
  NoDup (subs_of i w) ->
  exists l, seen (OfAsset i) cb (log (broadcast unsubs i st w))
            = seen (OfAsset i) cb (log w) ++ l /\ length l <= 1.
Proof.
  intros Hnd. unfold broadcast.
  by apply (forEach_obs_le (subs_of i) (a_notify unsubs i st)
              (fun y w => seen (OfAsset i) y (log w)) (fun w => (st, snap w))
              (seen_a_notify i st)).
Qed.

Lemma broadcast_stays i st w cb :
  cb ∈ subs_of i w ->
  (forall x, x ∈ subs_of i w -> cb ∉ removed_by unsubs st x) ->
  cb ∈ subs_of i (broadcast unsubs i st w).
Proof.
  intros Hcb Hrm. unfold broadcast.
  apply (forEach_stays (subs_of i) (a_notify unsubs i st) (removed_by unsubs st)
           (subs_of_a_notify i st)); auto.
Qed.

Lemma broadcast_subset i st w cb :
  cb ∈ subs_of i (broadcast unsubs i st w) -> cb ∈ subs_of i w.
Proof.
  unfold broadcast.
  apply (forEach_subset (subs_of i) (a_notify unsubs i st) (removed_by unsubs st)
           (subs_of_a_notify i st)).
Qed.

Lemma broadcast_NoDup i st w :
  NoDup (subs_of i w) -> NoDup (subs_of i (broadcast unsubs i st w)).
Proof.
  unfold broadcast.
  apply (forEach_NoDup (subs_of i) (a_notify unsubs i st) (removed_by unsubs st)
           (subs_of_a_notify i st)).
Qed.

Lemma l_broadcast_seen_once st w k :
  NoDup (l_subscribers (ldr w)) -> k ∈ l_subscribers (ldr w) ->
  (forall x, x ∈ l_subscribers (ldr w) -> x <> k -> k ∉ unsubs x st) ->
  exists w', seen OfLoader (User k) (log (l_broadcast unsubs st w))
             = seen OfLoader (User k) (log w) ++ [(st, snap w')]
    /\ steady (ldr w') = steady (ldr w) /\ store w' = store w.
Proof.
  intros Hnd Hk Hrm. unfold l_broadcast.
  destruct (forEach_obs_once (fun w => l_subscribers (ldr w))
              (l_notify unsubs st) (fun x => unsubs x st)
              (fun y w => seen OfLoader (User y) (log w))
              (fun w => (st, snap w))
              (fun x w => eq_refl) (seen_l_notify st)
              (fun w => (steady (ldr w), store w))
              (l_subscribers (ldr w)) w k) as (w' & Hseen & Hq); auto.
  exists w'. split; [done|].
  split; [exact (f_equal fst Hq) | exact (f_equal snd Hq)].
Qed.

Lemma l_broadcast_seen_le st w k :
  NoDup (l_subscribers (ldr w)) ->
  exists l, seen OfLoader (User k) (log (l_broadcast unsubs st w))
            = seen OfLoader (User k) (log w) ++ l /\ length l <= 1.
Proof.
  intros Hnd. unfold l_broadcast.
  by apply (forEach_obs_le (fun w => l_subscribers (ldr w))
              (l_notify unsubs st)
              (fun y w => seen OfLoader (User y) (log w))
              (fun w => (st, snap w)) (seen_l_notify st)).
Qed.

Lemma broadcast_seen_removed i st w pre x post cb :
  subs_of i w = pre ++ x :: post -> NoDup (subs_of i w) -> cb ∈ post ->
  (forall z, z ∈ pre -> x ∉ removed_by unsubs st z) ->
  cb ∈ removed_by unsubs st x ->
  seen (OfAsset i) cb (log (broadcast unsubs i st w))
  = seen (OfAsset i) cb (log w).
Proof.
  intros Hs Hnd Hcb Hkeep Hrm. unfold broadcast. rewrite Hs in *.
  apply NoDup_app in Hnd as (_ & Hdis & Hnd).
  apply NoDup_cons in Hnd as [Hx _].
  apply (forEach_obs_removed (subs_of i) (a_notify unsubs i st)
           (removed_by unsubs st)
           (fun y w => seen (OfAsset i) y (log w)) (fun w => (st, snap w))
           (subs_of_a_notify i st) (seen_a_notify i st)); auto.
  - intros Hin. apply (Hdis _ Hin). by right.
  - intros ->. by apply Hx.
  - rewrite Hs. apply elem_of_app. right. left.
Qed.

Lemma l_broadcast_seen_removed st w pre x post k :
  l_subscribers (ldr w) = pre ++ x :: post ->
  NoDup (l_subscribers (ldr w)) -> k ∈ post ->
  (forall z, z ∈ pre -> x ∉ unsubs z st) ->
  k ∈ unsubs x st ->
  seen OfLoader (User k) (log (l_broadcast unsubs st w))
  = seen OfLoader (User k) (log w).
Proof.
  intros Hs Hnd Hk Hkeep Hrm. unfold l_broadcast. rewrite Hs in *.
  apply NoDup_app in Hnd as (_ & Hdis & Hnd).
  apply NoDup_cons in Hnd as [Hx _].
  apply (forEach_obs_removed (fun w => l_subscribers (ldr w))
           (l_notify unsubs st) (fun x => unsubs x st)
           (fun y w => seen OfLoader (User y) (log w))
           (fun w => (st, snap w))
           (fun x w => eq_refl) (seen_l_notify st)); auto.
  - intros Hin. apply (Hdis _ Hin). by right.
  - intros ->. by apply Hx.
  - rewrite Hs. apply elem_of_app. right. left.
Qed.

Lemma subs_of_with_asset i j f w :
  (forall a, subscribers (f a) = subscribers a) ->
  subs_of i (with_asset j f w) = subs_of i w.
Proof.
  intros Hf. unfold subs_of. simpl. rewrite list_lookup_alter.
  case_decide; [subst|done]. destruct (store w !! i); simpl; [apply Hf|done].
Qed.

Lemma subs_of_lookup i w a : store w !! i = Some a -> subs_of i w = subscribers a.
Proof. intros Hi. unfold subs_of. by rewrite Hi. Qed.

(** C8 (amended): in one broadcast of an asset or of a loader, whatever the
    callbacks unsubscribe while it runs, no subscriber is invoked twice, and
    every subscriber that no other callback unsubscribes is invoked exactly
    once, whether it unsubscribes itself or not. The broadcast walks the
    live set: a subscriber that a callback invoked before its turn
    unsubscribes is skipped. *)
Theorem C8_unsubscribing_during_a_broadcast i st w cb k :
  (NoDup (subs_of i w) -> cb ∈ subs_of i w ->
     calls (OfAsset i) cb (broadcast unsubs i st w)
       <= S (calls (OfAsset i) cb w)
     /\ ((forall x, x ∈ subs_of i w -> x <> cb -> cb ∉ removed_by unsubs st x) ->
         calls (OfAsset i) cb (broadcast unsubs i st w)
           = S (calls (OfAsset i) cb w))
     /\ (forall pre x post,
           subs_of i w = pre ++ x :: post -> cb ∈ post ->
           (forall z, z ∈ pre -> x ∉ removed_by unsubs st z) ->
           cb ∈ removed_by unsubs st x ->
           calls (OfAsset i) cb (broadcast unsubs i st w)
             = calls (OfAsset i) cb w))
  /\ (NoDup (l_subscribers (ldr w)) -> k ∈ l_subscribers (ldr w) ->
       calls OfLoader (User k) (l_broadcast unsubs st w)
         <= S (calls OfLoader (User k) w)
       /\ ((forall x, x ∈ l_subscribers (ldr w) -> x <> k -> k ∉ unsubs x st) ->
           calls OfLoader (User k) (l_broadcast unsubs st w)
             = S (calls OfLoader (User k) w))
       /\ (forall pre x post,
             l_subscribers (ldr w) = pre ++ x :: post -> k ∈ post ->
             (forall z, z ∈ pre -> x ∉ unsubs z st) ->
             k ∈ unsubs x st ->
             calls OfLoader (User k) (l_broadcast unsubs st w)
               = calls OfLoader (User k) w)).
Proof.
  unfold calls. split; intros Hnd Hin; (split; [|split]).
  - destruct (broadcast_seen_le i st w cb Hnd) as (l & -> & Hl).
    rewrite length_app. lia.
  - intros Hrm.
    destruct (broadcast_seen_once i st w cb Hnd Hin Hrm) as (w' & -> & _).
    rewrite length_app. simpl. lia.
  - intros pre x post Hs Hpost Hkeep Hrm.
    by rewrite (broadcast_seen_removed i st w pre x post cb).
  - destruct (l_broadcast_seen_le st w k Hnd) as (l & -> & Hl).
    rewrite length_app. lia.
  - intros Hrm.
    destruct (l_broadcast_seen_once st w k Hnd Hin Hrm) as (w' & -> & _).
    rewrite length_app. simpl. lia.
  - intros pre x post Hs Hpost Hkeep Hrm.
    by rewrite (l_broadcast_seen_removed st w pre x post k).
Qed.

(** The code that follows a failure of the load function (the [catch]
    block, then lines 117-119): a subscriber that is registered then and
    that no callback unsubscribes meanwhile is invoked with [ERROR] and
    after that with [LOADED]; at [ERROR] the error is stored while
    [loading] and [progress] are still as the failure found them, at
    [LOADED] [loading] is false and [progress] is 1. *)
Lemma settle_error_then_loaded i e w a k :
  store w !! i = Some a ->
  NoDup (subscribers a) -> User k ∈ subscribers a ->
  (forall x, x ∈ subscribers a -> User k ∉ removed_by unsubs ERROR x) ->
  (forall x, x ∈ subscribers a -> x <> User k -> User k ∉ removed_by unsubs LOADED x) ->
  exists c1 c2 a1 a2,
    seen (OfAsset i) (User k) (log (settle unsubs i (inl e) w))
    = seen (OfAsset i) (User k) (log w) ++ [(ERROR, c1); (LOADED, c2)]
    /\ c_store c1 !! i = Some a1
    /\ error a1 = e /\ loading a1 = loading a /\ p a1 = p a
    /\ c_store c2 !! i = Some a2
    /\ error a2 = e /\ loading a2 = false /\ p a2 = 1%float.
Proof.
  intros Hi Hnd Hk HrmE HrmL. unfold settle.
  set (w1 := with_asset i (set_error e) w).
  assert (Hi1 : store w1 !! i = Some (set_error e a)).
  { unfold w1. simpl. by rewrite list_lookup_alter_eq, Hi. }
  assert (Hs1 : subs_of i w1 = subscribers a) by by rewrite (subs_of_lookup i w1 _ Hi1).
  destruct (broadcast_seen_once i ERROR w1 (User k)) as (w' & Hseen1 & Hb1).
  { by rewrite Hs1. }
  { by rewrite Hs1. }
  { rewrite Hs1. intros x Hx _. by apply HrmE. }
  destruct (lookup_proj bare _ _ i _ Hb1 Hi1) as (a1 & Ha1 & Hba1).
  set (wB := broadcast unsubs i ERROR w1) in *.
  destruct (broadcast_lookup unsubs i ERROR w1 i _ Hi1) as (aB & HaB & HbB).
  fold wB in HaB.
  set (w2 := with_asset i (fun a => set_p 1%float (set_loading false a)) wB).
  assert (Hi2 : store w2 !! i = Some (set_p 1%float (set_loading false aB))).
  { unfold w2. simpl. by rewrite list_lookup_alter_eq, HaB. }
  assert (Hs2 : subs_of i w2 = subs_of i wB) by by apply subs_of_with_asset.
  destruct (broadcast_seen_once i LOADED w2 (User k)) as (w'' & Hseen2 & Hb2).
  { rewrite Hs2. apply broadcast_NoDup. by rewrite Hs1. }
  { rewrite Hs2. apply broadcast_stays; by rewrite Hs1. }
  { rewrite Hs2. intros x Hx Hne. apply HrmL; [|done].
    rewrite <- Hs1. by apply broadcast_subset in Hx. }
  destruct (lookup_proj bare _ _ i _ Hb2 Hi2) as (a2 & Ha2 & Hba2).
  exists (snap w'), (snap w''), a1, a2.
  split.
  { rewrite Hseen2. change (log w2) with (log wB). rewrite Hseen1.
    change (log w1) with (log w). by rewrite <- app_assoc. }
  split; [exact Ha1|].
  split; [exact (f_equal error Hba1)|].
  split; [exact (f_equal loading Hba1)|].
  split; [exact (f_equal p Hba1)|].
  split; [exact Ha2|].
  split.
  { transitivity (error aB); [exact (f_equal error Hba2)|].
    exact (f_equal error HbB). }
  split; [exact (f_equal loading Hba2)|exact (f_equal p Hba2)].
Qed.

End Broadcasts.

(** * The loader *)

Section StartOnce.
Context {T : Type} (unsubs : nat -> Status -> list nat).
Implicit Types (w : World T).

Lemma start_started w pr :
  l_promise (ldr w) = Some pr ->
  start unsubs w = (with_ldr (set_l_loading true) w, pr).
Proof. intros Hp. unfold start. simpl. by rewrite Hp. Qed.

Lemma update_join_l_promise w :
  l_promise (ldr (update_join w)) = l_promise (ldr w).
Proof. unfold update_join. by destruct (join (ldr w)). Qed.

Lemma start_sets_promise w :
  l_promise (ldr (fst (start unsubs w))) = Some (snd (start unsubs w)).
Proof.
  unfold start. simpl. destruct (l_promise (ldr w)) as [pr|] eqn:Hp; simpl.
  - done.
  - by rewrite update_join_l_promise.
Qed.

Lemma exec_l_promise w o pr :
  l_promise (ldr w) = Some pr -> l_promise (ldr (exec unsubs w o)) = Some pr.
Proof.
  intros Hp. rewrite <- Hp.
  destruct o; try (ldr_frame (@exec_inner_view T unsubs)).
  - simpl. by rewrite (start_started w pr Hp).
  - ldr_frame (@joined_view T unsubs).
Qed.

Lemma run_l_promise ops w pr :
  l_promise (ldr w) = Some pr -> l_promise (ldr (run unsubs ops w)) = Some pr.
Proof.
  revert w. induction ops as [|o ops IH]; intros w Hp; simpl; [done|].
  apply IH. by apply exec_l_promise.
Qed.

(** C7: whatever happens after the first [start()], every later call
    returns the promise the first call returned and does nothing else than
    assign [loading = true]: no load function and no factory is invoked
    and nothing is broadcast. *)
Theorem C7_start_is_idempotent w ops :
  let first := start unsubs w in
  let w' := run unsubs ops (fst first) in
  start unsubs w' = (with_ldr (set_l_loading true) w', snd first)
  /\ store (fst (start unsubs w')) = store w'
  /\ factory_calls (ldr (fst (start unsubs w'))) = factory_calls (ldr w')
  /\ log (fst (start unsubs w')) = log w'.
Proof.
  intros first w'.
  assert (Hp : l_promise (ldr w') = Some (snd first))
    by apply run_l_promise, start_sets_promise.
  by rewrite (start_started w' _ Hp).
Qed.

End StartOnce.

(** ** Aggregate progress *)

Section Aggregate.
Context {T : Type} (unsubs : nat -> Status -> list nat).
Implicit Types (w : World T).

Lemma fold_left_sum (g : nat -> number) (l : list nat) (acc : number) :
  fold_left (fun acc i => (acc + or_zero (g i))%float) l acc
  = fold_left (fun acc x => (acc + or_zero x)%float) (g <$> l) acc.
Proof.
  revert acc. induction l as [|i l IH]; intros acc; [done|].
  simpl. apply IH.
Qed.

Lemma recompute_averaged w : averaged (snap (recompute w)).
Proof.
  unfold averaged, registered_progress, recompute, mean, sum. simpl.
  rewrite fold_left_sum.
  change (fun i => match store w !! i with Some a => p a | None => 0%float end)
    with (progress_of w).
  destruct (_assets (ldr w)) as [|i l] eqn:Ha; [done|].
  rewrite length_fmap. by rewrite decide_False.
Qed.

Lemma l_broadcast_progress st w :
  progress (ldr (l_broadcast unsubs st w)) = progress (ldr w).
Proof. ldr_frame (@l_broadcast_view T unsubs). Qed.

Lemma l_broadcast__assets st w :
  _assets (ldr (l_broadcast unsubs st w)) = _assets (ldr w).
Proof. ldr_frame (@l_broadcast_view T unsubs). Qed.

Lemma l_updateProgress_averaged w :
  averaged (snap (l_updateProgress unsubs w)).
Proof.
  pose proof (recompute_averaged w) as Hr.
  unfold averaged, registered_progress in *. unfold l_updateProgress. simpl in *.
  rewrite l_broadcast_progress, l_broadcast__assets, l_broadcast_store.
  exact Hr.
Qed.

Lemma off_mean_called (l : list (Entry T)) src cb st c :
  off_mean (l ++ [Called src cb st c]) = off_mean l.
Proof. unfold off_mean, recomputations. rewrite omap_app. simpl. by rewrite app_nil_r. Qed.

Lemma off_mean_recomputed (l : list (Entry T)) w :
  off_mean (l ++ [Recomputed (snap (recompute w))]) = off_mean l.
Proof.
  unfold off_mean, recomputations. rewrite omap_app, filter_app. simpl.
  rewrite filter_cons_False; [by rewrite app_nil_r|].
  intros Hn. apply Hn, recompute_averaged.
Qed.

Lemma run_off_mean ops w : off_mean (log (run unsubs ops w)) = off_mean (log w).
Proof.
  log_frame (@run_view T unsubs) (fun (_ : Source) (_ : Status) => True);
    try done.
  - intros. apply off_mean_called.
  - intros. apply off_mean_recomputed.
Qed.

End Aggregate.

(** ** A loader over plain assets only *)

Section DirectOnly.
Context {T : Type} (unsubs : nat -> Status -> list nat).
Implicit Types (w : World T).

Lemma loader_errors_called (l : list (Entry T)) src cb st c :
  calm src st -> loader_errors (l ++ [Called src cb st c]) = loader_errors l.
Proof.
  intros Hc. unfold loader_errors. rewrite omap_app. simpl.
  destruct src; [by rewrite app_nil_r|].
  destruct st; try by rewrite app_nil_r. by destruct Hc.
Qed.

Lemma loader_errors_recomputed (l : list (Entry T)) w :
  loader_errors (l ++ [Recomputed (snap (recompute w))]) = loader_errors l.
Proof. unfold loader_errors. rewrite omap_app. simpl. by rewrite app_nil_r. Qed.

Ltac dframe lem :=
  unfold dview;
  apply (lem _ _ _ _ _ _ calm);
  try done;
  auto using loader_errors_called, loader_errors_recomputed;
  try (intros ? ? [? ?]; done); try (intros [? ?]; done).

Lemma direct_dview ixs w w' : dview w' = dview w -> direct ixs w -> direct ixs w'.
Proof.
  unfold dview, view, wiring. intros Hv [H1 H2 H3 H4 H5 H6 H7].
  injection Hv as _ Ha He Ho Hb Hj Hp Has Hl.
  constructor; try congruence. by rewrite Hp, Has.
Qed.

Lemma Promise_all_await bs e : Forall is_await bs -> Promise_all bs <> Rejected e.
Proof.
  intros Hbs. unfold Promise_all.
  assert (Hnil : omap branch_failure bs = []).
  { induction Hbs as [|b bs Hb _ IH]; [done|]. destruct b; try done. }
  rewrite Hnil. by destruct (forallb branch_done bs).
Qed.

Lemma direct_set_branches ixs w bs :
  direct ixs w -> Forall is_await bs ->
  direct ixs (update_join (with_ldr (set_branches bs) w)).
Proof.
  intros [H1 H2 H3 H4 H5 H6 H7] Hbs. unfold update_join.
  destruct (join (ldr (with_ldr (set_branches bs) w))) eqn:Hj; simpl in Hj.
  - constructor; simpl; try done.
    intros e. by apply Promise_all_await.
  - constructor; simpl; try done.
  - by destruct (H3 e).
  - constructor; simpl; try done.
  - constructor; simpl; try done.
Qed.

Lemma not_await_lookup (bs : list Branch) b x :
  Forall is_await bs -> bs !! b = Some x -> is_await x.
Proof. intros Hbs Hb. by apply (Forall_lookup_1 _ _ _ _ Hbs Hb). Qed.

Lemma addToLoader_wiring i w :
  wiring (ldr (addToLoader i w))
  = wiring (set__assets (_assets (ldr w) ++ [i]) (ldr w)).
Proof.
  unfold addToLoader, subscribe. simpl.
  destruct (id_of i _) as [s|]; [case_decide|]; done.
Qed.

Lemma addToLoader_log i w : log (addToLoader i w) = log w.
Proof.
  unfold addToLoader, subscribe. simpl.
  destruct (id_of i _) as [s|]; [case_decide|]; done.
Qed.

Lemma start_inputs_direct ixs w bs :
  Forall is_await bs ->
  let r := fold_left (start_input unsubs) (Direct <$> ixs) (w, bs) in
  Forall is_await (snd r)
  /\ _assets (ldr (fst r)) = _assets (ldr w) ++ ixs
  /\ rest (ldr (fst r)) = rest (ldr w)
  /\ loader_errors (log (fst r)) = loader_errors (log w).
Proof.
  revert w bs. induction ixs as [|i ixs IH]; intros w bs Hbs.
  { simpl. by rewrite app_nil_r. }
  cbv zeta.
  change (fold_left (start_input unsubs) (Direct <$> i :: ixs) (w, bs))
    with (fold_left (start_input unsubs) (Direct <$> ixs)
            (fst (load unsubs i (addToLoader i w)),
             bs ++ [match snd (load unsubs i (addToLoader i w)) with
                    | Waiting => AwaitLoads [i]
                    | _ => AwaitLoads []
                    end])).
  set (w1 := addToLoader i w).
  assert (Hv : dview (fst (load unsubs i w1)) = dview w1)
    by dframe (@load_view T unsubs).
  unfold dview, view in Hv.
  assert (Hw : wiring (ldr (fst (load unsubs i w1))) = wiring (ldr w1))
    by exact (f_equal (fun v => snd (fst v)) Hv).
  assert (Hl : loader_errors (log (fst (load unsubs i w1)))
               = loader_errors (log w1)) by exact (f_equal snd Hv).
  clear Hv.
  pose proof (addToLoader_wiring i w) as Hw1. fold w1 in Hw1.
  rewrite Hw1 in Hw. unfold wiring in Hw. simpl in Hw.
  injection Hw as Ha He Ho Hb Hj Hp Has.
  destruct (IH (fst (load unsubs i w1))
              (bs ++ [match snd (load unsubs i w1) with
                      | Waiting => AwaitLoads [i]
                      | _ => AwaitLoads []
                      end])) as (I1 & I2 & I3 & I4).
  { apply Forall_app. split; [done|].
    apply Forall_singleton. by destruct (snd (load unsubs i w1)). }
  split; [exact I1|]. split; [|split].
  - rewrite I2, Has. by rewrite <- app_assoc.
  - rewrite I3. unfold rest. congruence.
  - rewrite I4, Hl. unfold w1. by rewrite addToLoader_log.
Qed.

Lemma start_direct ixs w : direct ixs w -> direct ixs (fst (start unsubs w)).
Proof.
  intros Hd. unfold start. simpl.
  destruct (l_promise (ldr w)) as [pr|] eqn:Hp; simpl.
  { revert Hd. apply direct_dview. by apply view_with_ldr. }
  set (w1 := l_broadcast unsubs LOADING _).
  assert (Hd1 : direct ixs w1).
  { revert Hd. apply direct_dview. unfold w1.
    transitivity (dview (with_ldr (set_l_loading true) w)).
    - dframe (@l_broadcast_view T unsubs).
    - by apply view_with_ldr. }
  assert (Hp1 : l_promise (ldr w1) = None).
  { rewrite <- Hp. unfold w1.
    change (l_promise (ldr w))
      with (l_promise (ldr (with_ldr (set_l_loading true) w))).
    ldr_frame (@l_broadcast_view T unsubs). }
  destruct Hd1 as [H1 H2 H3 H4 H5 H6 H7]. rewrite Hp1 in H7. rewrite H1.
  destruct (start_inputs_direct ixs w1 [] (Forall_nil_2 _)) as (I1 & I2 & I3 & I4).
  set (r := fold_left _ _ _) in *. rewrite H7 in I2. simpl in I2.
  unfold rest in I3. injection I3 as Ha He Ho Hb Hj Hp'.
  set (w3 := mkWorld _ _ _ _).
  change w3 with (with_ldr (set_branches (snd r))
                    (mkWorld (store (fst r))
                             (set_l_promise (Some (promises (fst r))) (ldr (fst r)))
                             (S (promises (fst r))) (log (fst r)))).
  apply direct_set_branches; [|done].
  constructor; simpl; congruence.
Qed.

Lemma resume_direct ixs i r w :
  direct ixs w -> direct ixs (resume unsubs i r w).
Proof.
  intros Hd. unfold resume. destruct (store w !! i) as [a|]; [|done].
  destruct (loading a); [|done].
  assert (Hs : direct ixs (settle unsubs i r w)).
  { revert Hd. apply direct_dview. dframe (@settle_view T unsubs). }
  change (with_ldr (fun l => set_branches (loaded_branch i <$> branches l) l)
            (settle unsubs i r w))
    with (with_ldr (set_branches
                      (loaded_branch i <$> branches (ldr (settle unsubs i r w))))
                   (settle unsubs i r w)).
  apply direct_set_branches; [done|].
  apply Forall_fmap. eapply Forall_impl; [apply Hs|].
  intros b Hb. by destruct b.
Qed.

Lemma joined_direct ixs w : direct ixs w -> direct ixs (joined unsubs w).
Proof.
  intros Hd.
  assert (Hfin : direct ixs (on_finally unsubs (with_ldr (set_join Handled) w))).
  { assert (Hh : direct ixs (with_ldr (set_join Handled) w)).
    { destruct Hd. constructor; simpl; done. }
    revert Hh. apply direct_dview. unfold on_finally.
    transitivity (dview (with_ldr (set_l_loading false)
                           (with_ldr (set_join Handled) w))).
    + dframe (@l_broadcast_view T unsubs).
    + by apply view_with_ldr. }
  unfold joined. destruct (join (ldr w)) eqn:Hj; try done.
  by destruct (direct_join _ _ Hd e).
Qed.

Lemma exec_direct ixs w o : direct ixs w -> direct ixs (exec unsubs w o).
Proof.
  intros Hd.
  destruct o; try solve [revert Hd; apply direct_dview;
                         dframe (@exec_plain_view T unsubs)].
  - by apply resume_direct.
  - by apply start_direct.
  - simpl. unfold factory_resolved.
    destruct (branches (ldr w) !! b) as [x|] eqn:Hb; [|done].
    pose proof (not_await_lookup _ _ _ (direct_branches _ _ Hd) Hb).
    by destruct x.
  - simpl. unfold factory_rejected.
    destruct (branches (ldr w) !! b) as [x|] eqn:Hb; [|done].
    pose proof (not_await_lookup _ _ _ (direct_branches _ _ Hd) Hb).
    by destruct x.
  - simpl. unfold factory_loads.
    destruct (branches (ldr w) !! b) as [x|] eqn:Hb; [|done].
    pose proof (not_await_lookup _ _ _ (direct_branches _ _ Hd) Hb).
    by destruct x.
  - by apply joined_direct.
Qed.

Lemma init_direct (objs : list (Asset T)) ixs :
  direct ixs (init objs (Direct <$> ixs)).
Proof. constructor; simpl; done. Qed.

Lemma run_direct ixs ops w : direct ixs w -> direct ixs (run unsubs ops w).
Proof.
  revert w. induction ops as [|o ops IH]; intros w Hd; simpl; [done|].
  by apply IH, exec_direct.
Qed.

End DirectOnly.

(** ** Lookup by id *)

Section Lookup.
Context {T : Type} (unsubs : nat -> Status -> list nat).
Implicit Types (w : World T).

Ltac cframe lem :=
  unfold cview; apply (lem _ _ _ _ _ _ (fun _ _ => True)); done.

Lemma id_of_fmap i w :
  id_of i w = match (options_id <$> store w) !! i with
              | Some o => o
              | None => None
              end.
Proof. unfold id_of. rewrite list_lookup_fmap. by destruct (store w !! i). Qed.

Lemma indexed_cview w w' : cview w' = cview w -> indexed w -> indexed w'.
Proof.
  unfold cview, view, index. intros Hv Hi id.
  injection Hv as Hs Hm Ha.
  specialize (Hi id). unfold get, most_recent in *. rewrite Hm, Ha.
  rewrite Hi. case_decide; [done|]. f_equal.
  apply list_filter_iff. intros i. by rewrite !id_of_fmap, Hs.
Qed.

Lemma id_of_subscribe i j cb w : id_of i (subscribe j cb w) = id_of i w.
Proof.
  rewrite !id_of_fmap. unfold subscribe. simpl.
  by rewrite fmap_alter_fixed.
Qed.

Lemma addToLoader_indexed i w : indexed w -> indexed (addToLoader i w).
Proof.
  intros Hi id. specialize (Hi id). unfold get, most_recent in *.
  unfold addToLoader.
  set (w1 := with_ldr _ w).
  assert (Hid : forall j w', store w' = store w ->
                  id_of j (subscribe i Aggregate w') = id_of j w).
  { intros j w' Hs. rewrite id_of_subscribe. unfold id_of. by rewrite Hs. }
  change (id_of i w1) with (id_of i w).
  assert (Hfil : forall w', store w' = store w ->
            _assets (ldr w') = _assets (ldr w) ++ [i] ->
            last (filter (fun j => id_of j (subscribe i Aggregate w') = Some id)
                    (_assets (ldr (subscribe i Aggregate w'))))
            = if decide (id_of i w = Some id) then Some i
              else last (filter (fun j => id_of j w = Some id) (_assets (ldr w)))).
  { intros w' Hs Ha. simpl. rewrite Ha, filter_app.
    rewrite (list_filter_iff _ (fun j => id_of j w = Some id))
      by (intros j; by rewrite Hid).
    rewrite (list_filter_iff (fun j => id_of j _ = Some id)
                             (fun j => id_of j w = Some id) [i])
      by (intros j; by rewrite Hid).
    destruct (decide (id_of i w = Some id)) as [Hc|Hc].
    - rewrite filter_cons_True, filter_nil by done. apply last_snoc.
    - rewrite filter_cons_False, filter_nil by done. by rewrite app_nil_r. }
  destruct (id_of i w) as [s|] eqn:Hs.
  - destruct (decide (s = EmptyString)) as [->|Hne].
    + rewrite Hfil by done. simpl. rewrite Hi.
      destruct (decide (id = EmptyString)); [done|].
      rewrite decide_False; [done|]. congruence.
    + rewrite Hfil by done. simpl.
      destruct (decide (s = id)) as [->|Hsid].
      * rewrite lookup_insert_eq. rewrite decide_False by done.
        by rewrite decide_True.
      * rewrite lookup_insert_ne by done. rewrite Hi.
        destruct (decide (id = EmptyString)); [done|].
        rewrite decide_False; [done|]. congruence.
  - rewrite Hfil by done. simpl. rewrite Hi.
    by destruct (decide (id = EmptyString)).
Qed.

Lemma start_inputs_indexed inputs w bs :
  indexed w -> indexed (fst (fold_left (start_input unsubs) inputs (w, bs))).
Proof.
  revert w bs. induction inputs as [|x inputs IH]; intros w bs Hi; [done|].
  simpl. destruct x as [i|f].
  - apply IH. apply (indexed_cview (addToLoader i w)).
    + cframe (@load_view T unsubs).
    + by apply addToLoader_indexed.
  - apply IH. revert Hi. apply indexed_cview. by apply view_with_ldr.
Qed.

Lemma start_indexed w : indexed w -> indexed (fst (start unsubs w)).
Proof.
  intros Hi. unfold start. simpl.
  destruct (l_promise (ldr w)) as [pr|]; simpl.
  { revert Hi. apply indexed_cview. by apply view_with_ldr. }
  set (w1 := l_broadcast unsubs LOADING _).
  assert (Hi1 : indexed w1).
  { revert Hi. apply indexed_cview. unfold w1.
    transitivity (cview (with_ldr (set_l_loading true) w)).
    - cframe (@l_broadcast_view T unsubs).
    - by apply view_with_ldr. }
  pose proof (start_inputs_indexed (assets (ldr w1)) w1 [] Hi1) as Hr.
  set (r := fold_left _ _ _) in *.
  revert Hr. apply indexed_cview.
  unfold cview. rewrite update_join_view by done. done.
Qed.

Lemma factory_resolved_indexed b ixs w :
  indexed w -> indexed (factory_resolved b ixs w).
Proof.
  intros Hi. unfold factory_resolved.
  destruct (branches (ldr w) !! b) as [[]|]; try done.
  apply (indexed_cview (fold_left (fun w i => addToLoader i w) ixs w)).
  { by apply view_with_ldr. }
  clear b. revert w Hi. induction ixs as [|i ixs IH]; intros w Hi; [done|].
  simpl. by apply IH, addToLoader_indexed.
Qed.

Lemma exec_indexed w o : indexed w -> indexed (exec unsubs w o).
Proof.
  intros Hi. destruct o;
    try solve [revert Hi; apply indexed_cview;
               cframe (@exec_plain_view T unsubs)].
  - revert Hi. apply indexed_cview. cframe (@resume_view T unsubs).
  - by apply start_indexed.
  - by apply factory_resolved_indexed.
  - revert Hi. apply indexed_cview. by apply factory_rejected_view.
  - revert Hi. apply indexed_cview. cframe (@factory_loads_view T unsubs).
  - revert Hi. apply indexed_cview. cframe (@joined_view T unsubs).
Qed.

Lemma run_indexed ops w : indexed w -> indexed (run unsubs ops w).
Proof.
  revert w. induction ops as [|o ops IH]; intros w Hi; simpl; [done|].
  by apply IH, exec_indexed.
Qed.

Lemma init_indexed (objs : list (Asset T)) inputs : indexed (init objs inputs).
Proof. intros id. unfold get, most_recent. simpl. by case_decide. Qed.

(** C9 (amended): at any time, [get(id)] for a non-empty [id] returns the
    asset registered last among the registered assets carrying [id], and
    [undefined] when no registered asset carries it; an asset without id is
    found under no id; [get] of the empty string returns [undefined]
    whatever was registered. *)
Theorem C9_get_returns_most_recent (objs : list (Asset T)) inputs ops id :
  let w := run unsubs ops (init objs inputs) in
  get id w = (if decide (id = EmptyString) then None else most_recent w id)
  /\ ((forall i, i ∈ _assets (ldr w) -> id_of i w <> Some id) -> get id w = None).
Proof.
  intros w.
  assert (Hi : indexed w) by apply run_indexed, init_indexed.
  split; [apply Hi|]. intros Hnone. rewrite (Hi id).
  case_decide; [done|]. unfold most_recent.
  assert (Hnil : filter (fun i => id_of i w = Some id) (_assets (ldr w)) = []).
  { induction (_assets (ldr w)) as [|i l IH]; [done|].
    rewrite filter_cons_False by (apply Hnone; left).
    apply IH. intros j Hj. apply Hnone. by right. }
  by rewrite Hnil.
Qed.

End Lookup.

(** ** Subscriber sets hold no duplicates *)

Section Tidy.
Context {T : Type} (unsubs : nat -> Status -> list nat).
Implicit Types (w : World T).

Lemma forEach_preserves {A} `{EqDecision A} (P : World T -> Prop)
    (entries : World T -> list A) (callback : A -> World T -> World T)
    (pending : list A) w :
  (forall x w, P w -> P (callback x w)) ->
  P w -> P (forEach entries callback pending w).
Proof.
  intros Hcb. revert w. induction pending as [|x rest IH]; intros w Hw; [done|].
  simpl. apply IH. case_decide; [by apply Hcb|done].
Qed.

Lemma fold_left_preserves {A} (P : World T -> Prop)
    (f : World T -> A -> World T) (xs : list A) w :
  (forall w x, P w -> P (f w x)) -> P w -> P (fold_left f xs w).
Proof.
  intros Hf. revert w. induction xs as [|x xs IH]; intros w Hw; [done|].
  simpl. by apply IH, Hf.
Qed.

Lemma set_add_NoDup {A} `{EqDecision A} (x : A) (s : list A) :
  NoDup s -> NoDup (set_add x s).
Proof.
  intros Hs. unfold set_add. case_decide; [done|].
  apply NoDup_app. split; [done|]. split.
  - intros y Hy Hy'. apply list_elem_of_singleton in Hy'. by subst.
  - apply NoDup_singleton.
Qed.

Lemma tidy_with_asset i f w :
  (forall a, NoDup (subscribers a) -> NoDup (subscribers (f a))) ->
  tidy w -> tidy (with_asset i f w).
Proof.
  intros Hf [Hs Hl]. split; [|done]. simpl.
  apply Forall_lookup. intros j a Hj.
  rewrite list_lookup_alter in Hj. case_decide.
  - subst. apply fmap_Some in Hj as (a0 & Ha0 & ->).
    apply Hf. by apply (Forall_lookup_1 _ _ _ _ Hs Ha0).
  - by apply (Forall_lookup_1 _ _ _ _ Hs Hj).
Qed.

Lemma tidy_with_ldr f w :
  (forall l, NoDup (l_subscribers l) -> NoDup (l_subscribers (f l))) ->
  tidy w -> tidy (with_ldr f w).
Proof. intros Hf [Hs Hl]. split; [done|]. by apply Hf. Qed.

Lemma tidy_record e w : tidy w -> tidy (record e w).
Proof. done. Qed.

Lemma l_broadcast_tidy st w : tidy w -> tidy (l_broadcast unsubs st w).
Proof.
  apply forEach_preserves. intros x w' Hw'. unfold l_notify.
  apply tidy_with_ldr; [|done]. intros l. apply NoDup_list_difference.
Qed.

Lemma l_updateProgress_tidy w : tidy w -> tidy (l_updateProgress unsubs w).
Proof.
  intros Hw. unfold l_updateProgress, recompute.
  apply l_broadcast_tidy, tidy_record. by apply tidy_with_ldr.
Qed.

Lemma broadcast_tidy i st w : tidy w -> tidy (broadcast unsubs i st w).
Proof.
  apply forEach_preserves. intros x w' Hw'. unfold a_notify. destruct x.
  - apply tidy_with_asset; [|done]. intros a. apply NoDup_list_difference.
  - by apply l_updateProgress_tidy.
Qed.

Lemma updateProgress_tidy i q w : tidy w -> tidy (updateProgress unsubs i q w).
Proof. intros Hw. apply broadcast_tidy. by apply tidy_with_asset. Qed.

Lemma subscribe_tidy i cb w : tidy w -> tidy (subscribe i cb w).
Proof. apply tidy_with_asset. intros a. apply set_add_NoDup. Qed.

Lemma unsubscribe_tidy i cb w : tidy w -> tidy (unsubscribe i cb w).
Proof. apply tidy_with_asset. intros a. apply NoDup_list_difference. Qed.

Lemma settle_tidy i r w : tidy w -> tidy (settle unsubs i r w).
Proof.
  intros Hw. unfold settle. apply broadcast_tidy, tidy_with_asset; [done|].
  destruct r.
  - by apply broadcast_tidy, tidy_with_asset.
  - by apply tidy_with_asset.
Qed.

Lemma load_tidy i w : tidy w -> tidy (fst (load unsubs i w)).
Proof.
  intros Hw. unfold load. destruct (store w !! i) as [a|]; [|done].
  destruct (loading a); [done|].
  assert (Hb : tidy (begun unsubs i a w)).
  { unfold begun. apply fold_left_preserves.
    - intros; by apply updateProgress_tidy.
    - apply tidy_with_asset; [done|].
      by apply broadcast_tidy, tidy_with_asset. }
  fold (begun unsubs i a w).
  destruct (result _); simpl.
  - by apply settle_tidy.
  - by apply settle_tidy.
  - by apply tidy_with_asset.
Qed.

Lemma get_data_tidy i w : tidy w -> tidy (fst (get_data unsubs i w)).
Proof.
  intros Hw. unfold get_data. destruct (store w !! i) as [a|]; [|done]. simpl.
  destruct (data a); [done|]. destruct (loading a); [done|]. by apply load_tidy.
Qed.

Lemma addToLoader_tidy i w : tidy w -> tidy (addToLoader i w).
Proof.
  intros Hw. unfold addToLoader. apply subscribe_tidy.
  destruct (id_of i _) as [s|]; [case_decide|]; by repeat apply tidy_with_ldr.
Qed.

Lemma update_join_tidy w : tidy w -> tidy (update_join w).
Proof.
  intros Hw. unfold update_join. by destruct (join (ldr w)).
Qed.

Lemma start_inputs_tidy inputs w bs :
  tidy w -> tidy (fst (fold_left (start_input unsubs) inputs (w, bs))).
Proof.
  revert w bs. induction inputs as [|x inputs IH]; intros w bs Hw; [done|].
  simpl. rewrite (surjective_pairing (start_input unsubs (w, bs) x)).
  apply IH. destruct x; simpl.
  - by apply load_tidy, addToLoader_tidy.
  - by apply tidy_with_ldr.
Qed.

Lemma start_tidy w : tidy w -> tidy (fst (start unsubs w)).
Proof.
  intros Hw. unfold start. simpl. destruct (l_promise (ldr w)); simpl.
  { by apply tidy_with_ldr. }
  apply update_join_tidy.
  set (w1 := l_broadcast unsubs LOADING _).
  destruct (start_inputs_tidy (assets (ldr w1)) w1 []) as [Hs Hl]; [|by split].
  by apply l_broadcast_tidy, tidy_with_ldr.
Qed.

Lemma load_each_tidy ixs w acc :
  tidy w -> tidy (fst (fold_left (load_each unsubs) ixs (w, acc))).
Proof.
  revert w acc. induction ixs as [|x ixs IH]; intros w acc Hw; [done|].
  simpl. rewrite (surjective_pairing (load_each unsubs (w, acc) x)).
  apply IH. by apply load_tidy.
Qed.

Lemma exec_tidy w o : tidy w -> tidy (exec unsubs w o).
Proof.
  intros Hw. destruct o; simpl.
  - by apply load_tidy.
  - by apply get_data_tidy.
  - by apply subscribe_tidy.
  - by apply unsubscribe_tidy.
  - by apply updateProgress_tidy.
  - unfold resume. destruct (store w !! i) as [a|]; [|done].
    destruct (loading a); [|done].
    by apply update_join_tidy, tidy_with_ldr, settle_tidy.
  - by apply start_tidy.
  - apply tidy_with_ldr; [|done]. intros l. apply set_add_NoDup.
  - apply tidy_with_ldr; [|done]. intros l. apply NoDup_list_difference.
  - unfold factory_resolved.
    destruct (branches (ldr w) !! b) as [[]|]; try done.
    apply tidy_with_ldr; [done|]. apply fold_left_preserves; [|done].
    intros; by apply addToLoader_tidy.
  - unfold factory_rejected.
    destruct (branches (ldr w) !! b) as [[]|]; try done.
    by apply update_join_tidy, tidy_with_ldr.
  - unfold factory_loads.
    destruct (branches (ldr w) !! b) as [[]|]; try done.
    by apply update_join_tidy, tidy_with_ldr, load_each_tidy.
  - unfold joined, on_finally, on_catch. destruct (join (ldr w)); try done.
    all: by apply l_broadcast_tidy, tidy_with_ldr, tidy_with_ldr.
Qed.

(** In every run from freshly constructed assets and loader, the
    subscriber sets are duplicate-free. *)
Lemma run_tidy ops w : tidy w -> tidy (run unsubs ops w).
Proof.
  revert w. induction ops as [|o ops IH]; intros w Hw; simpl; [done|].
  by apply IH, exec_tidy.
Qed.

Lemma init_tidy (objs : list (Asset T)) inputs :
  Forall (fun a => subscribers a = []) objs -> tidy (init objs inputs).
Proof.
  intros Hobjs. split; simpl; [|apply NoDup_nil_2].
  eapply Forall_impl; [exact Hobjs|]. intros a ->. apply NoDup_nil_2.
Qed.

End Tidy.

(** * Scenarios *)

Lemma passive_removes_nothing st x cb : cb ∉ removed_by passive st x.
Proof. destruct x; apply not_elem_of_nil. Qed.

(** ** A loader over one asset that resolves and one that rejects *)

(** C1 as stated fails: after the join has settled the loader's [error] is
    not set. *)
Lemma C1_loader_error_is_not_set :
  ~ C1_as_stated (run passive (one_fails true) two_assets).
Proof. intros [H _]. vm_compute in H. discriminate. Qed.

(** C1 (amended): in the scenario, with the two promises settling in either
    order, after the join has settled the loader's [error] is [undefined],
    as the variable and as the property of the loader object, its [loading]
    is false, and its subscriber has observed [LOADED], last, and no
    [ERROR]. *)
Theorem C1_child_failure_is_not_reported_by_the_loader resolve_first :
  let w := run passive (one_fails resolve_first) two_assets in
  join (ldr w) = Handled
  /\ l_error (ldr w) = None /\ lobj_error (ldr w) = None
  /\ l_loading (ldr w) = false /\ lobj_loading (ldr w) = false
  /\ statuses OfLoader (User 0) (log w)
     = [LOADING; PROGRESS; PROGRESS; PROGRESS; PROGRESS; PROGRESS; LOADED]
  /\ (ERROR ∉ statuses OfLoader (User 0) (log w))
  /\ LOADED ∈ statuses OfLoader (User 0) (log w).
Proof.
  destruct resolve_first; cbv zeta; repeat split; try (vm_compute; reflexivity);
    apply (bool_decide_unpack _); vm_compute; exact I.
Qed.

(** [load()] of an asset captures the failure of its load function, so the
    join of a loader over plain assets never rejects: in every run the
    loader's [error] stays [undefined] and no subscriber of the loader is
    ever invoked with [ERROR]. *)
Lemma plain_assets_never_fail_the_loader (T : Type) unsubs
    (objs : list (Asset T)) ixs ops :
  let w := run unsubs ops (init objs (Direct <$> ixs)) in
  l_error (ldr w) = None /\ lobj_error (ldr w) = None
  /\ loader_errors (log w) = [].
Proof.
  intros w.
  destruct (run_direct unsubs ixs ops _ (init_direct objs ixs))
    as [_ _ _ H4 H5 H6 _].
  done.
Qed.

(** In the scenario the rejection is stored in the closure variable [error]
    of the failing asset, whose subscriber observed [ERROR] then [LOADED];
    the [error] property of that asset's object is still [undefined]. The
    same holds when the two load functions return ["a"] and throw on the
    spot. *)
Example failure_stays_in_the_asset_closure :
  (forall resolve_first,
     let w := run passive (one_fails resolve_first) two_assets in
     error <$> (store w !! 1%nat) = Some (Some (mkError "x"))
     /\ obj_error <$> (store w !! 1%nat) = Some None
     /\ data <$> (store w !! 0%nat) = Some (Some "a"%string)
     /\ statuses (OfAsset 1) (User 1) (log w) = [LOADING; ERROR; LOADED])
  /\ (let w := run passive [OLSubscribe 0; OSubscribe 1 1; OStart; OJoined]
                   two_synchronous in
      join (ldr w) = Handled
      /\ l_error (ldr w) = None
      /\ l_loading (ldr w) = false
      /\ statuses OfLoader (User 0) (log w)
         = [LOADING; PROGRESS; PROGRESS; PROGRESS; PROGRESS; PROGRESS; LOADED]
      /\ error <$> (store w !! 1%nat) = Some (Some (mkError "x"))
      /\ obj_error <$> (store w !! 1%nat) = Some None
      /\ statuses (OfAsset 1) (User 1) (log w) = [LOADING; ERROR; LOADED]).
Proof.
  split.
  - intros [|]; cbv zeta; repeat split; vm_compute; reflexivity.
  - cbv zeta; repeat split; vm_compute; reflexivity.
Qed.

(** ** Aggregate progress during [start()] *)

(** C6 as stated fails: inside [start()], when the first asset has loaded
    synchronously and the second is not registered yet, the loader's
    progress is 1 while the mean over the two declared assets is 1/2. *)
Lemma C6_mean_over_fewer_than_declared : ~ C6_as_stated sync_then_pending.
Proof. apply (bool_decide_unpack _). vm_compute. exact I. Qed.

(** C8 as stated fails: the broadcast walks the live set, so when the first
    of two subscribers unsubscribes the second, the second is skipped. *)
Lemma C8_unsubscribed_before_its_turn_is_skipped :
  ~ C8_as_stated first_removes_second LOADED two_observers.
Proof.
  intros H. specialize (H (User 1) (User 2)).
  assert (Hc : calls (OfAsset 0) (User 2)
                 (broadcast first_removes_second 0 LOADED two_observers)
               = S (calls (OfAsset 0) (User 2) two_observers)).
  { apply H.
    - apply (bool_decide_unpack _). vm_compute. exact I.
    - vm_compute. discriminate.
    - apply (bool_decide_unpack _). vm_compute. exact I.
    - discriminate. }
  vm_compute in Hc. discriminate.
Qed.

Lemma off_mean_nil {T} (l : list (Entry T)) :
  off_mean l = [] -> Forall averaged (recomputations l).
Proof.
  unfold off_mean. induction (recomputations l) as [|c cs IH]; [done|].
  rewrite filter_cons. destruct (decide (~ averaged c)) as [|Hc]; [done|].
  intros Hnil. constructor; [|by apply IH].
  by destruct (decide (averaged c)).
Qed.

(** C6 (amended): in every run of a loader over N plain assets, each
    recomputation assigns to [progress] the mean of the progress of the
    assets registered at that moment as the code computes it in the
    arithmetic of numbers (the values added from the left starting at 0,
    a [NaN] or a zero counting as 0, the sum divided by their count), and 0
    when none is registered. Between operations the registered assets are
    none before [start()] and all N, in declaration order, after it. *)
Theorem C6_progress_is_mean_of_registered (T : Type) unsubs
    (objs : list (Asset T)) ixs ops :
  let w := run unsubs ops (init objs (Direct <$> ixs)) in
  Forall averaged (recomputations (log w))
  /\ averaged (snap (l_updateProgress unsubs w))
  /\ _assets (ldr w)
     = match l_promise (ldr w) with None => [] | Some _ => ixs end
  /\ (_assets (ldr w) = [] -> progress (ldr (l_updateProgress unsubs w)) = 0%float)
  /\ progress (ldr (init objs (Direct <$> ixs))) = 0%float.
Proof.
  intros w. split; [|split; [|split; [|split]]].
  - apply off_mean_nil. unfold w. by rewrite run_off_mean.
  - apply l_updateProgress_averaged.
  - apply (direct_assets ixs w). apply run_direct, init_direct.
  - intros Hnil. pose proof (l_updateProgress_averaged unsubs w) as Ha.
    unfold averaged, registered_progress in Ha. simpl in Ha.
    rewrite Ha.
    replace (_assets (ldr (l_updateProgress unsubs w))) with (@nil nat); [done|].
    rewrite <- Hnil. symmetry.
    unfold l_updateProgress. rewrite l_broadcast__assets. done.
  - done.
Qed.

(** ** The [error] property of the returned object *)

(** No operation assigns the [error] and [loading] properties of an asset
    object, nor those of the loader object. *)
Lemma obj_error_never_written {T} unsubs ops (w : World T) :
  obj_error <$> store (run unsubs ops w) = obj_error <$> store w.
Proof. store_frame (@run_view T unsubs). Qed.

Lemma obj_loading_never_written {T} unsubs ops (w : World T) :
  obj_loading <$> store (run unsubs ops w) = obj_loading <$> store w.
Proof. store_frame (@run_view T unsubs). Qed.

Lemma lobj_error_never_written {T} unsubs ops (w : World T) :
  lobj_error (ldr (run unsubs ops w)) = lobj_error (ldr w).
Proof. ldr_frame (@run_view T unsubs). Qed.

Lemma lobj_loading_never_written {T} unsubs ops (w : World T) :
  lobj_loading (ldr (run unsubs ops w)) = lobj_loading (ldr w).
Proof. ldr_frame (@run_view T unsubs). Qed.

(** The promise [load()] returns is never rejected. *)
Lemma load_never_rejects {T} unsubs i (w : World T) e :
  snd (load unsubs i w) <> Rejecting e.
Proof.
  unfold load. destruct (store w !! i) as [a|]; [|done].
  destruct (loading a); [done|]. by destruct (result _).
Qed.

(** C2: an asset whose load function throws, or whose promise rejects:
    after the load the closure variable [error] holds the error while the
    [error] property of the object, copied once at construction, is still
    [undefined]; the promise of [load()] resolves. *)
Theorem C2_error_property_is_never_assigned :
  (let r := load passive 0 (init [asset throws_x None] []) in
   error <$> (store (fst r) !! 0%nat) = Some (Some (mkError "x"))
   /\ obj_error <$> (store (fst r) !! 0%nat) = Some None
   /\ snd r = Resolved None)
  /\ (let w := run passive [OLoad 0; OSettle 0 (inl (Some (mkError "x")))]
                   (init [asset resolves_later None] []) in
      error <$> (store w !! 0%nat) = Some (Some (mkError "x"))
      /\ obj_error <$> (store w !! 0%nat) = Some None).
Proof. split; [split; [|split]|split]; vm_compute; reflexivity. Qed.

(** ** Loading again *)

(** C3 as stated fails: two [load()] calls on an asset whose load function
    is synchronous invoke it twice. *)
Lemma C3_load_runs_again_after_completion :
  ~ C3_as_stated (run passive [OLoad 0; OLoad 0] (init [asset returns_a None] [])).
Proof.
  intros H. specialize (H 2).
  assert (H2 : 2 <= 1) by (apply H; vm_compute; reflexivity). lia.
Qed.

(** ** An empty id *)

(** C9 as stated fails: a registered asset whose id is the empty string is
    not found by [get]. *)
Lemma C9_empty_id_is_not_indexed :
  ~ C9_as_stated
      (run passive [OStart]
           (init [asset resolves_later (Some EmptyString)] [Direct 0]))
      EmptyString.
Proof. unfold C9_as_stated. vm_compute. discriminate. Qed.

(** ** Instances *)

(** C5 on an asset that is settled with a value, on a pending asset whose
    promise rejects, and on an asset whose load function throws. *)
Lemma C5_settled_witness :
  (exists a', store (settle passive 0 (inr (Some "a"%string)) one_pending) !! 0%nat
              = Some a'
     /\ p a' = 1%float /\ loading a' = false)
  /\ (exists a', store (exec passive (fst (load passive 0 one_pending))
                             (OSettle 0 (inl (Some (mkError "x"))))) !! 0%nat
                 = Some a'
        /\ p a' = 1%float /\ loading a' = false)
  /\ (exists a', store (exec passive (init [asset throws_x None] []) (OLoad 0))
                   !! 0%nat = Some a'
        /\ p a' = 1%float /\ loading a' = false).
Proof.
  split; [|split].
  - exact (proj1 (C5_settled_progress_and_loading passive 0
                    (inr (Some "a"%string)) one_pending _ eq_refl)).
  - exact (proj1 (proj2 (C5_settled_progress_and_loading passive 0
                           (inl (Some (mkError "x")))
                           (fst (load passive 0 one_pending)) _ eq_refl))
             eq_refl).
  - refine (proj2 (proj2 (C5_settled_progress_and_loading passive 0
                            (inr None) (init [asset throws_x None] []) _
                            eq_refl))
              eq_refl _).
    discriminate.
Defined.

(** C3 on a pending asset, loaded again, and on an idle one. *)
Lemma C3_load_guard_witness :
  (load passive 0 (fst (load passive 0 one_pending))
   = (fst (load passive 0 one_pending), Resolved None))
  /\ (exists a', store (fst (load passive 0 one_pending)) !! 0%nat = Some a'
        /\ invocations a' = 1%nat).
Proof.
  split.
  - exact (proj1 (proj1 (C3_load_guarded_by_loading passive 0
                           (fst (load passive 0 one_pending)) _ eq_refl)
                   eq_refl)).
  - exact (proj2 (C3_load_guarded_by_loading passive 0 one_pending _ eq_refl)
             eq_refl).
Defined.

(** C8 on two observers that unsubscribe themselves, and on two observers
    the first of which unsubscribes the second. *)
Lemma C8_unsubscribing_witness :
  calls (OfAsset 0) (User 2) (broadcast leaves_when_called 0 LOADED two_observers)
  = S (calls (OfAsset 0) (User 2) two_observers)
  /\ calls OfLoader (User 2) (l_broadcast leaves_when_called LOADED two_observers)
     = S (calls OfLoader (User 2) two_observers)
  /\ calls (OfAsset 0) (User 2)
           (broadcast first_removes_second 0 LOADED two_observers)
     = calls (OfAsset 0) (User 2) two_observers.
Proof.
  destruct (C8_unsubscribing_during_a_broadcast leaves_when_called 0 LOADED
              two_observers (User 2) 2) as [Hasset Hloader].
  destruct (C8_unsubscribing_during_a_broadcast first_removes_second 0 LOADED
              two_observers (User 2) 2) as [Hremoved _].
  assert (Hnd : NoDup (subs_of 0 two_observers))
    by (apply (bool_decide_unpack _); vm_compute; exact I).
  assert (Hin : User 2 ∈ subs_of 0 two_observers)
    by (apply (bool_decide_unpack _); vm_compute; exact I).
  split; [|split].
  - apply (Hasset Hnd Hin).
    intros [k|] _ Hne; simpl.
    + intros Hk. apply list_elem_of_singleton in Hk. congruence.
    + apply not_elem_of_nil.
  - apply Hloader.
    + apply (bool_decide_unpack _). vm_compute. exact I.
    + apply (bool_decide_unpack _). vm_compute. exact I.
    + intros x _ Hne Hk. apply list_elem_of_singleton in Hk. congruence.
  - apply (proj2 (proj2 (Hremoved Hnd Hin)) [] (User 1) [User 2]).
    + reflexivity.
    + apply list_elem_of_singleton. reflexivity.
    + intros z Hz. by apply elem_of_nil in Hz.
    + apply (bool_decide_unpack _). vm_compute. exact I.
Defined.

(** ** Two scenarios of the specification, run *)

(** An asset over a load function that calls [updateProgress(0.5)] and
    then resolves with ["done"]: the subscriber observes [LOADING],
    [PROGRESS], [LOADED]; in the end [data] is ["done"] and [progress] 1. *)
Example progress_then_done :
  let half := 0.5%float in
  let reporting := fun _ : nat => mkRun [half] (@Promised string) in
  let w := run passive [OSubscribe 0 0; OLoad 0; OSettle 0 (inr (Some "done"%string))]
               (init [asset reporting None] []) in
  statuses (OfAsset 0) (User 0) (log w) = [LOADING; PROGRESS; LOADED]
  /\ data <$> (store w !! 0%nat) = Some (Some "done"%string)
  /\ p <$> (store w !! 0%nat) = Some 1%float.
Proof. repeat split. Qed.

#[local] Set Warnings "-inexact-float".

(** The mean is the one of double arithmetic, rounding included, and a
    [NaN] progress counts as 0. The decimal literals stand for the nearest
    doubles, as they do in the source language. *)
Example mean_in_double_arithmetic :
  mean [0.1%float; 0.2%float] = 0.15000000000000002%float
  /\ mean [0.1%float; 0.1%float; 0.1%float] = 0.10000000000000002%float
  /\ mean [nan; 1%float] = 0.5%float
  /\ mean [] = 0%float.
Proof. repeat split; vm_compute; reflexivity. Qed.

(** A loader over one factory that resolves late to two assets: nothing is
    registered, and [progress] is 0, until the factory resolves; [get]
    then finds the assets by id. *)
Example late_registration :
  let objs := [asset resolves_later (Some "a"%string);
               asset resolves_later (Some "b"%string)] in
  let w1 := run passive [OStart] (init objs [Factory 0]) in
  let w2 := run passive [OFactoryResolve 0 [0%nat; 1%nat]; OFactoryLoads 0;
                         OSettle 0 (inr (Some "x"%string))] w1 in
  _assets (ldr w1) = [] /\ progress (ldr w1) = 0%float
  /\ factory_calls (ldr w1) = [0%nat]
  /\ _assets (ldr w2) = [0%nat; 1%nat]
  /\ progress (ldr w2) = 0.5%float
  /\ get "b" w2 = Some 1%nat
  /\ join (ldr w2) = Unsettled.
Proof.
  cbv zeta. split; [reflexivity|]. split; [reflexivity|].
  split; [reflexivity|]. split; [vm_compute; reflexivity|].
  split; [vm_compute; reflexivity|].
  split; vm_compute; reflexivity.
Qed.

(** * The rest of the module *)

(** ** [memo] *)

Lemma memo_calls_started {V} (m : Memo V) n :
  started m = true -> memo_calls n m = (m, replicate n (inr (cache m))).
Proof.
  intros Hm. induction n as [|n IH]; [done|].
  simpl. unfold memo_call. rewrite Hm. simpl. by rewrite IH.
Qed.

Lemma memo_call_started {V} (m : Memo V) :
  started m = false ->
  started (fst (memo_call m)) = true
  /\ m_invocations (fst (memo_call m)) = S (m_invocations m)
  /\ snd (memo_call m) = m_fn m (m_invocations m)
  /\ cache (fst (memo_call m))
     = match m_fn m (m_invocations m) with inr v => v | inl _ => cache m end.
Proof.
  intros Hm. unfold memo_call. rewrite Hm.
  by destruct (m_fn m (m_invocations m)).
Qed.

(** X1: however often the function [memo(fn)] returns is called, [fn] is
    invoked once, by the first call; it is never invoked when the function
    is never called. *)
Theorem memo_invokes_fn_once {V} (fn : nat -> Error + option V) n :
  m_invocations (fst (memo_calls n (memo fn))) = Nat.min 1 n.
Proof.
  destruct n as [|n]; [done|].
  simpl memo_calls.
  destruct (memo_call_started (memo fn) eq_refl) as (Hs & Hi & _).
  rewrite (memo_calls_started _ n Hs). simpl. rewrite Hi. done.
Qed.

(** X2: the first call returns what [fn] returned, or throws what [fn]
    threw; every later call returns the cached value: the value the first
    call returned, also when that value is [undefined], and [undefined]
    when the first call threw ([started] is set before [fn] is invoked, so
    a failure is not retried and not thrown again). *)
Theorem memo_returns_the_first_outcome {V} (fn : nat -> Error + option V) n :
  snd (memo_calls (S n) (memo fn))
  = fn 0%nat :: replicate n (inr (match fn 0%nat with
                                  | inr v => v
                                  | inl _ => None
                                  end)).
Proof.
  simpl memo_calls.
  destruct (memo_call_started (memo fn) eq_refl) as (Hs & _ & Hr & Hc).
  rewrite (memo_calls_started _ n Hs). simpl. rewrite Hr, Hc. done.
Qed.

(** ** [fetchWithProgress] *)

Section Fetch.
Context {H : Type}.
Implicit Types (response : Response H) (reads : list Chunk).

Lemma enqueued_pump total onProgress received reads ending :
  enqueued (pump total onProgress received reads ending) = reads.
Proof.
  revert received. induction reads as [|value rest IH]; intros received.
  - by destruct ending.
  - simpl. destruct onProgress; simpl; by rewrite IH.
Qed.

Lemma pump_closes total onProgress received reads :
  exists pre, pump total onProgress received reads Ends = pre ++ [Closed]
              /\ Closed ∉ pre.
Proof.
  revert received. induction reads as [|value rest IH]; intros received.
  - exists []. split; [done|]. apply not_elem_of_nil.
  - simpl. destruct (IH (received + length value)%nat) as (pre & -> & Hpre).
    exists ((if onProgress then [Progressed (divide (received + length value) total)]
             else []) ++ Enqueued value :: pre).
    split; [by rewrite <- app_assoc|].
    rewrite elem_of_app, elem_of_cons. intros [Hin|[?|?]]; [|done..].
    destruct onProgress; [|by apply elem_of_nil in Hin].
    by apply list_elem_of_singleton in Hin.
Qed.

Lemma pump_stays_open total onProgress received reads e :
  Closed ∉ pump total onProgress received reads (Breaks e).
Proof.
  revert received. induction reads as [|value rest IH]; intros received.
  - apply not_elem_of_nil.
  - simpl. rewrite elem_of_app, elem_of_cons. intros [Hin|[?|?]]; [|done|by eapply IH].
    destruct onProgress; [|by apply elem_of_nil in Hin].
    by apply list_elem_of_singleton in Hin.
Qed.

Lemma progressed_pump total received reads ending :
  progressed (pump total true received reads ending)
  = (fun r => divide r total) <$> running received reads.
Proof.
  revert received. induction reads as [|value rest IH]; intros received.
  - by destruct ending.
  - simpl. by rewrite IH.
Qed.

Lemma progressed_silent total received reads ending :
  progressed (pump total false received reads ending) = [].
Proof.
  revert received. induction reads as [|value rest IH]; intros received.
  - by destruct ending.
  - simpl. by rewrite IH.
Qed.

Lemma running_length received reads : length (running received reads) = length reads.
Proof.
  revert received. induction reads as [|value rest IH]; intros received; [done|].
  simpl. by rewrite IH.
Qed.

Lemma byte_length_cons (value : Chunk) reads :
  byte_length (value :: reads) = (length value + byte_length reads)%nat.
Proof. done. Qed.

Lemma running_lookup received reads k :
  (k < length reads)%nat ->
  running received reads !! k
  = Some (received + byte_length (take (S k) reads))%nat.
Proof.
  revert received k. induction reads as [|value rest IH]; intros received k Hk.
  - simpl in Hk. lia.
  - destruct k as [|k].
    + simpl. f_equal. unfold byte_length. simpl. lia.
    + change (running received (value :: rest) !! S k)
        with (running (received + length value) rest !! k).
      rewrite IH by (simpl in Hk; lia).
      change (take (S (S k)) (value :: rest)) with (value :: take (S k) rest).
      rewrite byte_length_cons. f_equal. lia.
Qed.

(** Any number divided by [NaN] is [NaN]. *)
Lemma div_nan (x : number) : (x / nan)%float = nan.
Proof.
  rewrite <- (SF2Prim_Prim2SF (x / nan)). rewrite FloatAxioms.div_spec.
  change (Prim2SF nan) with S754_nan. unfold SF64div, SFdiv.
  by destruct (Prim2SF x).
Qed.

(** X3: the response [fetchWithProgress] resolves to carries the headers and
    the status of the fetched response, and its stream delivers the chunks
    of the body unchanged and in order, whether or not [onProgress] is given
    (without it nothing is reported). When the body ends the stream is
    closed, once and last; when a read fails it is never closed. *)
Theorem fetchWithProgress_passes_the_body_through response reads ending
    onProgress :
  body response = Some (reads, ending) ->
  exists events,
    fetchWithProgress (inr response) onProgress
    = Streamed events (headers response) (status response)
    /\ enqueued events = reads
    /\ (onProgress = false -> progressed events = [])
    /\ match ending with
       | Ends => exists pre, events = pre ++ [Closed] /\ Closed ∉ pre
       | Breaks _ => Closed ∉ events
       end.
Proof.
  intros Hb. unfold fetchWithProgress. rewrite Hb. eexists. split; [done|].
  split; [apply enqueued_pump|]. split.
  - intros ->. apply progressed_silent.
  - destruct ending as [|e]; [apply pump_closes|apply pump_stays_open].
Qed.

(** X4: when the response carries a [Content-Length] that [parseInt] reads
    as [t], [onProgress] is called once per chunk, and the call for a chunk
    receives the number of bytes of the chunks delivered so far, that chunk
    included, divided by [t], as the division of numbers gives it. *)
Theorem fetchWithProgress_reports_the_fraction_received response reads ending t :
  body response = Some (reads, ending) ->
  total_of response = Some t ->
  exists events,
    fetchWithProgress (inr response) true
    = Streamed events (headers response) (status response)
    /\ length (progressed events) = length reads
    /\ forall k, (k < length reads)%nat ->
         progressed events !! k
         = Some (number_of_nat (byte_length (take (S k) reads)) / t)%float.
Proof.
  intros Hb Ht. unfold fetchWithProgress. rewrite Hb, Ht.
  eexists. split; [done|]. rewrite progressed_pump.
  split; [by rewrite length_fmap, running_length|].
  intros k Hk. by rewrite list_lookup_fmap, running_lookup.
Qed.

(** X5: when the response has no [Content-Length] (or one [parseInt] makes
    nothing of), [onProgress] is still called once per chunk, each time with
    [NaN]. *)
Theorem fetchWithProgress_without_length_reports_NaN response reads ending :
  body response = Some (reads, ending) ->
  total_of response = None \/ total_of response = Some nan ->
  exists events,
    fetchWithProgress (inr response) true
    = Streamed events (headers response) (status response)
    /\ progressed events = replicate (length reads) nan.
Proof.
  intros Hb Ht. unfold fetchWithProgress. rewrite Hb. eexists. split; [done|].
  rewrite progressed_pump.
  assert (forall r, divide r (total_of response) = nan) as Hd.
  { intros r. unfold divide. destruct Ht as [-> | ->]; apply div_nan. }
  rewrite <- (running_length 0 reads). by apply const_fmap.
Qed.

End Fetch.

(** ** What every operation keeps

    [P] is any property of the assets and the log that the assignments
    listed as hypotheses keep; [allowed] tells which subscriptions and
    unsubscriptions made by the caller keep it. *)

Section Kept.
Context {T : Type} (unsubs : nat -> Status -> list nat).
Variable P : World T -> Prop.
Variable allowed : @Op T -> Prop.
Implicit Types (w : World T).

Hypothesis K_shrink : forall j X w,
  P w ->
  P (with_asset j (fun a => set_subscribers
                              (list_difference (subscribers a) X) a) w).
Hypothesis K_aggregate : forall j w, P w -> P (subscribe j Aggregate w).
Hypothesis K_p : forall j q w, P w -> P (with_asset j (set_p q) w).
Hypothesis K_loading : forall j w, P w -> P (with_asset j (set_loading true) w).
Hypothesis K_settled : forall j w,
  P w -> P (with_asset j (fun a => set_p 1%float (set_loading false a)) w).
Hypothesis K_data : forall j v w, P w -> P (with_asset j (set_data v) w).
Hypothesis K_error : forall j e w, P w -> P (with_asset j (set_error e) w).
Hypothesis K_promise : forall j x w, P w -> P (with_asset j (set_promise (Some x)) w).
Hypothesis K_count : forall j w, P w -> P (with_asset j count_invocation w).
Hypothesis K_loader : forall l n w, P w -> P (mkWorld (store w) l n (log w)).
Hypothesis K_called : forall j cb st w,
  cb ∈ subs_of j w -> P w -> P (record (Called (OfAsset j) cb st (snap w)) w).
Hypothesis K_l_called : forall k st w,
  k ∈ l_subscribers (ldr w) ->
  P w -> P (record (Called OfLoader (User k) st (snap w)) w).
Hypothesis K_recomputed : forall w, P w -> P (record (Recomputed (snap w)) w).
Hypothesis K_subscribe : forall j k w,
  allowed (OSubscribe j k) -> P w -> P (subscribe j (User k) w).
Hypothesis K_unsubscribe : forall j k w,
  allowed (OUnsubscribe j k) -> P w -> P (unsubscribe j (User k) w).

Lemma forEach_guarded {A} `{EqDecision A} (entries : World T -> list A)
    (callback : A -> World T -> World T) (pending : list A) w :
  (forall x w, x ∈ entries w -> P w -> P (callback x w)) ->
  P w -> P (forEach entries callback pending w).
Proof.
  intros Hcb. revert w. induction pending as [|x rest IH]; intros w Hw; [done|].
  simpl. apply IH. case_decide; [by apply Hcb|done].
Qed.

Lemma fold_left_kept {A} (f : World T -> A -> World T) (xs : list A) w :
  (forall w x, P w -> P (f w x)) -> P w -> P (fold_left f xs w).
Proof.
  intros Hf. revert w. induction xs as [|x xs IH]; intros w Hw; [done|].
  simpl. by apply IH, Hf.
Qed.

Lemma fold_left_fst_kept {A D} (f : World T * D -> A -> World T * D)
    (xs : list A) (acc : World T * D) :
  (forall acc x, P (fst acc) -> P (fst (f acc x))) ->
  P (fst acc) -> P (fst (fold_left f xs acc)).
Proof.
  intros Hf. revert acc. induction xs as [|x xs IH]; intros acc Hacc; [done|].
  simpl. by apply IH, Hf.
Qed.

Lemma with_ldr_kept f w : P w -> P (with_ldr f w).
Proof. apply (K_loader (f (ldr w)) (promises w)). Qed.

Lemma l_broadcast_kept st w : P w -> P (l_broadcast unsubs st w).
Proof.
  apply forEach_guarded. intros k w' Hk Hw'. unfold l_notify.
  by apply with_ldr_kept, K_l_called.
Qed.

Lemma l_updateProgress_kept w : P w -> P (l_updateProgress unsubs w).
Proof.
  intros Hw. unfold l_updateProgress.
  by apply l_broadcast_kept, K_recomputed, with_ldr_kept.
Qed.

Lemma broadcast_kept i st w : P w -> P (broadcast unsubs i st w).
Proof.
  apply forEach_guarded. intros cb w' Hcb Hw'. unfold a_notify.
  destruct cb as [k|].
  - by apply K_shrink, K_called.
  - by apply l_updateProgress_kept, K_called.
Qed.

Lemma updateProgress_kept i q w : P w -> P (updateProgress unsubs i q w).
Proof. intros Hw. by apply broadcast_kept, K_p. Qed.

Lemma settle_kept i r w : P w -> P (settle unsubs i r w).
Proof.
  intros Hw. unfold settle. apply broadcast_kept, K_settled.
  destruct r as [e|v]; [by apply broadcast_kept, K_error|by apply K_data].
Qed.

Lemma load_kept i w : P w -> P (fst (load unsubs i w)).
Proof.
  intros Hw. unfold load. destruct (store w !! i) as [a|]; [|done].
  destruct (loading a); [done|].
  set (w4 := fold_left _ _ _).
  assert (P w4) as Hw4.
  { apply fold_left_kept; [intros; by apply updateProgress_kept|].
    by apply K_count, broadcast_kept, K_loading. }
  destruct (result _); simpl; [by apply settle_kept..|by apply K_promise].
Qed.

Lemma get_data_kept i w : P w -> P (fst (get_data unsubs i w)).
Proof.
  intros Hw. unfold get_data. destruct (store w !! i) as [a|]; [|done].
  simpl. destruct (data a); [done|]. destruct (loading a); [done|].
  by apply load_kept.
Qed.

Lemma addToLoader_kept i w : P w -> P (addToLoader i w).
Proof.
  intros Hw. unfold addToLoader. apply K_aggregate.
  destruct (id_of _ _); [|by apply with_ldr_kept].
  case_decide; by repeat apply with_ldr_kept.
Qed.

Lemma update_join_kept w : P w -> P (update_join w).
Proof.
  intros Hw. unfold update_join. destruct (join _); try done.
  by apply with_ldr_kept.
Qed.

Lemma start_kept w : P w -> P (fst (start unsubs w)).
Proof.
  intros Hw. unfold start.
  destruct (l_promise _); [by apply with_ldr_kept|].
  simpl. apply update_join_kept.
  set (r := fold_left _ _ _).
  apply (K_loader _ _ (fst r)).
  apply fold_left_fst_kept; [|by apply l_broadcast_kept, with_ldr_kept].
  intros acc [j|f] Hacc; simpl.
  - by apply load_kept, addToLoader_kept.
  - by apply with_ldr_kept.
Qed.

Lemma factory_resolved_kept b ixs w : P w -> P (factory_resolved b ixs w).
Proof.
  intros Hw. unfold factory_resolved.
  destruct (_ !! b) as [[]|]; try done.
  apply with_ldr_kept, fold_left_kept; [|done].
  intros; by apply addToLoader_kept.
Qed.

Lemma factory_rejected_kept b e w : P w -> P (factory_rejected b e w).
Proof.
  intros Hw. unfold factory_rejected.
  destruct (_ !! b) as [[]|]; try done.
  by apply update_join_kept, with_ldr_kept.
Qed.

Lemma factory_loads_kept b w : P w -> P (factory_loads unsubs b w).
Proof.
  intros Hw. unfold factory_loads.
  destruct (_ !! b) as [[]|]; try done.
  apply update_join_kept, with_ldr_kept, fold_left_fst_kept; [|done].
  intros acc j Hacc. by apply load_kept.
Qed.

Lemma resume_kept i r w : P w -> P (resume unsubs i r w).
Proof.
  intros Hw. unfold resume. destruct (store w !! i) as [a|]; [|done].
  destruct (loading a); [|done].
  by apply update_join_kept, with_ldr_kept, settle_kept.
Qed.

Lemma joined_kept w : P w -> P (joined unsubs w).
Proof.
  intros Hw. unfold joined, on_finally, on_catch.
  destruct (join _); try done;
    repeat first [apply l_broadcast_kept | apply with_ldr_kept]; done.
Qed.

Lemma exec_kept w o : allowed o -> P w -> P (exec unsubs w o).
Proof.
  intros Ho Hw. destruct o; simpl.
  - by apply load_kept.
  - by apply get_data_kept.
  - by apply K_subscribe.
  - by apply K_unsubscribe.
  - by apply updateProgress_kept.
  - by apply resume_kept.
  - by apply start_kept.
  - by apply with_ldr_kept.
  - by apply with_ldr_kept.
  - by apply factory_resolved_kept.
  - by apply factory_rejected_kept.
  - by apply factory_loads_kept.
  - by apply joined_kept.
Qed.

Lemma run_kept ops w : Forall allowed ops -> P w -> P (run unsubs ops w).
Proof.
  revert w. induction ops as [|o ops IH]; intros w Hops Hw; [done|].
  apply Forall_cons in Hops as [Ho Hops]. simpl.
  by apply IH, exec_kept.
Qed.

End Kept.

(** ** Subscriptions and failures over a run *)

Section Subscriptions.
Context {T : Type} (unsubs : nat -> Status -> list nat).
Implicit Types (w : World T) (a : Asset T).

Lemma subs_of_with_asset_subset i j f w cb :
  (j = i -> forall a, cb ∈ subscribers (f a) -> cb ∈ subscribers a) ->
  cb ∈ subs_of i (with_asset j f w) -> cb ∈ subs_of i w.
Proof.
  intros Hf. unfold subs_of, with_asset. simpl.
  rewrite list_lookup_alter. case_decide; [|done]. subst.
  destruct (store w !! i) as [a|]; simpl; [by apply Hf|done].
Qed.

Lemma absent_with_asset i k L j f w :
  (j = i -> forall a, User k ∈ subscribers (f a) -> User k ∈ subscribers a) ->
  absent i k L w -> absent i k L (with_asset j f w).
Proof.
  intros Hf [Hs Hl]. split; [|done].
  intros Hin. by apply Hs, (subs_of_with_asset_subset i j f w).
Qed.

Lemma absent_run i k L ops w :
  Forall (fun o => o <> OSubscribe i k) ops ->
  absent i k L w -> absent i k L (run unsubs ops w).
Proof.
  apply run_kept.
  - intros j X w' Hw'. apply absent_with_asset; [|done].
    intros _ a. simpl. by intros [? _]%list_elem_of_difference.
  - intros j w' Hw'. apply absent_with_asset; [|done].
    intros _ a. simpl. unfold set_add. case_decide; [done|].
    rewrite elem_of_app, list_elem_of_singleton. by intros [?|?].
  - intros j q w' Hw'. by apply absent_with_asset.
  - intros j w' Hw'. by apply absent_with_asset.
  - intros j w' Hw'. by apply absent_with_asset.
  - intros j v w' Hw'. by apply absent_with_asset.
  - intros j e w' Hw'. by apply absent_with_asset.
  - intros j x w' Hw'. by apply absent_with_asset.
  - intros j w' Hw'. by apply absent_with_asset.
  - by intros l n w' Hw'.
  - intros j cb st w' Hcb [Hs Hl]. split; [done|]. simpl.
    rewrite seen_app. simpl. case_decide as Heq; [|by rewrite app_nil_r].
    destruct Heq as [[= ->] ->]. done.
  - intros k' st w' _ [Hs Hl]. split; [done|]. simpl. by rewrite seen_other.
  - intros w' [Hs Hl]. split; [done|]. simpl. by rewrite seen_recomputed.
  - intros j k' w' Hne Hw'. apply absent_with_asset; [|done].
    intros -> a. simpl. unfold set_add. case_decide; [done|].
    rewrite elem_of_app, list_elem_of_singleton. intros [?|[= ->]]; done.
  - intros j k' w' _ Hw'. apply absent_with_asset; [|done].
    intros _ a. simpl. unfold set_delete. by intros [? _]%list_elem_of_difference.
Qed.

Lemma called_run ops w :
  Forall subscribed_when_called (log w) ->
  Forall subscribed_when_called (log (run unsubs ops w)).
Proof.
  apply (run_kept unsubs (fun w => Forall subscribed_when_called (log w))
                  (fun _ => True)); try done.
  - intros j cb st w' Hcb Hw'. simpl. apply Forall_app. split; [done|].
    apply Forall_singleton. simpl. unfold subs_of in Hcb.
    destruct (store w' !! j) as [a|]; [by exists a|by apply elem_of_nil in Hcb].
  - intros k st w' Hk Hw'. simpl. apply Forall_app. split; [done|].
    by apply Forall_singleton.
  - intros w' Hw'. simpl. apply Forall_app. split; [done|].
    by apply Forall_singleton.
  - by apply Forall_true.
Qed.

(** X6: after [unsubscribe] the callback is out of the set, and a callback
    that is not in the set of an asset is not invoked by that asset,
    whatever happens, until it is subscribed again. *)
Theorem unsubscribed_callback_is_not_invoked i k w ops :
  (User k ∉ subs_of i (unsubscribe i (User k) w))
  /\ ((User k ∉ subs_of i w) ->
      (@OSubscribe T i k ∉ ops) ->
      (User k ∉ subs_of i (run unsubs ops w))
      /\ seen (OfAsset i) (User k) (log (run unsubs ops w))
         = seen (OfAsset i) (User k) (log w)).
Proof.
  split.
  - unfold subs_of, unsubscribe, with_asset. simpl.
    rewrite list_lookup_alter, decide_True by done.
    destruct (store w !! i) as [a|]; simpl; [|apply not_elem_of_nil].
    unfold set_delete. rewrite list_elem_of_difference, list_elem_of_singleton.
    by intros [_ ?].
  - intros Hk Hops.
    apply (absent_run i k (seen (OfAsset i) (User k) (log w)) ops w); [|done].
    apply Forall_forall. intros o Ho ->. done.
Qed.

(** X8: in every run, each invocation of a callback, by an asset or by the
    loader, is made while the callback is in the subscriber set of the
    object that is broadcasting. *)
Theorem callbacks_are_subscribed_when_invoked (objs : list (Asset T)) inputs ops :
  Forall subscribed_when_called (log (run unsubs ops (init objs inputs))).
Proof. apply called_run. apply Forall_nil_2. Qed.

(** X9: when a load settles, a success assigns [data] and leaves [error] as
    it was, a failure assigns [error] and leaves [data] as it was; so after
    a failed reload of a loaded asset the [data] getter still returns the
    earlier value, without loading again. *)
Theorem settle_keeps_the_other_field i r w a :
  store w !! i = Some a ->
  exists a', store (settle unsubs i r w) !! i = Some a'
    /\ match r with
       | inr v => data a' = v /\ error a' = error a
       | inl e => error a' = e /\ data a' = data a
       end
    /\ (forall v, data a' = Some v ->
          get_data unsubs i (settle unsubs i r w)
          = (settle unsubs i r w, Some v)).
Proof.
  intros Ha. destruct (settle_lookup unsubs i r w a Ha) as (a' & Ha' & Hb).
  exists a'. split; [done|]. split.
  - destruct r as [e|v].
    + split; [exact (f_equal error Hb)|exact (f_equal data Hb)].
    + split; [exact (f_equal data Hb)|exact (f_equal error Hb)].
  - intros v Hv. unfold get_data. rewrite Ha', Hv. unfold data_of. by rewrite Ha', Hv.
Qed.

End Subscriptions.

(** ** The subscriber sets as sets *)

Section SetSemantics.
Context {A : Type} `{EqDecision A}.
Implicit Types (x : A) (s : list A).

Lemma set_add_idem x s : set_add x (set_add x s) = set_add x s.
Proof.
  unfold set_add. destruct (decide (x ∈ s)) as [Hx|Hx].
  - by rewrite decide_True.
  - rewrite decide_True; [done|]. apply elem_of_app. right. by apply list_elem_of_singleton.
Qed.

Lemma list_difference_app s1 s2 (k : list A) :
  list_difference (s1 ++ s2) k = list_difference s1 k ++ list_difference s2 k.
Proof.
  induction s1 as [|y s1 IH]; [done|]. simpl. case_decide; [done|].
  simpl. by rewrite IH.
Qed.

Lemma list_difference_absent s x : x ∉ s -> list_difference s [x] = s.
Proof.
  induction s as [|y s IH]; [done|]. intros Hx. simpl.
  apply not_elem_of_cons in Hx as [Hxy Hx].
  case_decide as Hy; [|by rewrite IH]. by apply list_elem_of_singleton in Hy.
Qed.

Lemma set_delete_add x s : set_delete x (set_add x s) = set_delete x s.
Proof.
  unfold set_delete, set_add. case_decide; [done|].
  rewrite list_difference_app. simpl.
  case_decide as Hx; [apply app_nil_r|].
  exfalso. by apply Hx, list_elem_of_singleton.
Qed.

End SetSemantics.

Section Order.
Context {T : Type} (unsubs : nat -> Status -> list nat).
Implicit Types (w : World T) (a : Asset T).

Lemma with_asset_twice i f g w :
  with_asset i f (with_asset i g w) = with_asset i (f ∘ g) w.
Proof.
  unfold with_asset. simpl. f_equal.
  apply list_eq. intros j. rewrite !list_lookup_alter.
  destruct (decide (i = j)) as [<-|]; [|done].
  rewrite decide_True by done. by destruct (store w !! i).
Qed.

Lemma with_asset_ext i f g w :
  (forall a, store w !! i = Some a -> f a = g a) ->
  with_asset i f w = with_asset i g w.
Proof.
  intros Hfg. unfold with_asset. f_equal.
  apply list_eq. intros j. rewrite !list_lookup_alter.
  case_decide; [|done]. subst. destruct (store w !! j) as [a|] eqn:Ha; [|done].
  simpl. f_equal. by apply Hfg.
Qed.

Lemma with_asset_same i f w :
  (forall a, store w !! i = Some a -> f a = a) -> with_asset i f w = w.
Proof.
  intros Hf. destruct w as [s l n lg]. unfold with_asset. simpl in *. f_equal.
  apply list_eq. intros j. rewrite !list_lookup_alter.
  case_decide; [|done]. subst. destruct (s !! j) as [a|] eqn:Ha; [|done].
  simpl. f_equal. by apply Hf.
Qed.

Lemma with_ldr_same f w : f (ldr w) = ldr w -> with_ldr f w = w.
Proof. intros Hf. destruct w. unfold with_ldr. simpl in *. by rewrite Hf. Qed.

Lemma invoked_app src (l1 l2 : list (Entry T)) :
  invoked src (l1 ++ l2) = invoked src l1 ++ invoked src l2.
Proof. apply omap_app. Qed.

Lemma invoked_called src (l : list (Entry T)) s cb st now :
  invoked src (l ++ [Called s cb st now])
  = invoked src l ++ (if decide (s = src) then [cb] else []).
Proof.
  rewrite invoked_app. f_equal.
  change (invoked src [Called s cb st now])
    with (match (if decide (s = src) then Some cb else None) with
          | Some y => [y]
          | None => []
          end).
  by destruct (decide (s = src)).
Qed.

Lemma l_updateProgress_invoked i w :
  invoked (OfAsset i) (log (l_updateProgress unsubs w))
  = invoked (OfAsset i) (log w).
Proof.
  log_frame (@l_updateProgress_view T unsubs)
            (fun (s : Source) (_ : Status) => s = OfLoader); try done.
  - intros l src c st now ->. rewrite invoked_called, decide_False by done.
    apply app_nil_r.
  - intros l w'. rewrite invoked_app. apply app_nil_r.
Qed.

Lemma invoked_a_notify i st x w :
  invoked (OfAsset i) (log (a_notify unsubs i st x w))
  = invoked (OfAsset i) (log w) ++ [x].
Proof.
  destruct x as [k|]; unfold a_notify.
  - simpl. by rewrite invoked_called, decide_True.
  - rewrite l_updateProgress_invoked. simpl. by rewrite invoked_called, decide_True.
Qed.

Lemma forEach_asset_order i st pending w :
  (forall x, x ∈ pending -> removed_by unsubs st x = []) ->
  (forall x, x ∈ pending -> x ∈ subs_of i w) ->
  invoked (OfAsset i) (log (forEach (subs_of i) (a_notify unsubs i st) pending w))
  = invoked (OfAsset i) (log w) ++ pending.
Proof.
  revert w. induction pending as [|x rest IH]; intros w Hrm Hin.
  - simpl. by rewrite app_nil_r.
  - simpl. case_decide as Hx; [|exfalso; apply Hx, Hin; left].
    assert (subs_of i (a_notify unsubs i st x w) = subs_of i w) as Hs.
    { rewrite subs_of_a_notify, Hrm by left. apply list_difference_nil_r. }
    rewrite IH.
    + rewrite invoked_a_notify. by rewrite <- app_assoc.
    + intros y Hy. apply Hrm. by right.
    + intros y Hy. rewrite Hs. apply Hin. by right.
Qed.

Lemma invoked_l_notify st k w :
  invoked OfLoader (log (l_notify unsubs st k w))
  = invoked OfLoader (log w) ++ [User k].
Proof. unfold l_notify. simpl. by rewrite invoked_called, decide_True. Qed.

Lemma forEach_loader_order st pending w :
  (forall x, x ∈ pending -> unsubs x st = []) ->
  (forall x, x ∈ pending -> x ∈ l_subscribers (ldr w)) ->
  invoked OfLoader
          (log (forEach (fun w => l_subscribers (ldr w)) (l_notify unsubs st)
                        pending w))
  = invoked OfLoader (log w) ++ (User <$> pending).
Proof.
  revert w. induction pending as [|x rest IH]; intros w Hrm Hin.
  - simpl. by rewrite app_nil_r.
  - simpl. case_decide as Hx; [|exfalso; apply Hx, Hin; left].
    rewrite IH.
    + rewrite invoked_l_notify. by rewrite <- app_assoc.
    + intros y Hy. apply Hrm. by right.
    + intros y Hy. unfold l_notify. simpl. rewrite Hrm by left.
      rewrite list_difference_nil_r. apply Hin. by right.
Qed.

(** X10: the subscriber sets are sets: subscribing a callback that is
    subscribed changes nothing; the function a [subscribe] returns removes
    the callback altogether, however often it was subscribed; subscribing
    and unsubscribing a callback that was not subscribed restores the
    state. For assets and for the loader. *)
Theorem subscribing_twice_is_subscribing_once i cb k w :
  subscribe i cb (subscribe i cb w) = subscribe i cb w
  /\ unsubscribe i cb (subscribe i cb w) = unsubscribe i cb w
  /\ ((cb ∉ subs_of i w) -> unsubscribe i cb (subscribe i cb w) = w)
  /\ l_subscribe k (l_subscribe k w) = l_subscribe k w
  /\ l_unsubscribe k (l_subscribe k w) = l_unsubscribe k w
  /\ ((k ∉ l_subscribers (ldr w)) -> l_unsubscribe k (l_subscribe k w) = w).
Proof.
  repeat split.
  - unfold subscribe. rewrite with_asset_twice. apply with_asset_ext.
    intros a _. unfold compose, set_subscribers. simpl. by rewrite set_add_idem.
  - unfold subscribe, unsubscribe. rewrite with_asset_twice. apply with_asset_ext.
    intros a _. unfold compose, set_subscribers. simpl. by rewrite set_delete_add.
  - intros Hcb. unfold subscribe, unsubscribe. rewrite with_asset_twice.
    apply with_asset_same. intros a Ha.
    unfold subs_of in Hcb. rewrite Ha in Hcb.
    unfold compose, set_subscribers. simpl. rewrite set_delete_add.
    unfold set_delete. rewrite list_difference_absent by done. by destruct a.
  - unfold l_subscribe, with_ldr, set_l_subscribers. simpl. by rewrite set_add_idem.
  - unfold l_subscribe, l_unsubscribe, with_ldr, set_l_subscribers. simpl.
    by rewrite set_delete_add.
  - intros Hk. unfold l_subscribe, l_unsubscribe, with_ldr, set_l_subscribers.
    simpl. rewrite set_delete_add. unfold set_delete.
    rewrite list_difference_absent by done. by destruct w as [? [] ? ?].
Qed.

(** X11: a new subscriber is put last and a known one keeps its place, and
    a broadcast during which nobody unsubscribes invokes the subscribers in
    that order, each once. For assets and for the loader. *)
Theorem broadcast_follows_subscription_order i st cb k w :
  (is_Some (store w !! i) ->
   subs_of i (subscribe i cb w)
   = if decide (cb ∈ subs_of i w) then subs_of i w else subs_of i w ++ [cb])
  /\ l_subscribers (ldr (l_subscribe k w))
     = (if decide (k ∈ l_subscribers (ldr w)) then l_subscribers (ldr w)
        else l_subscribers (ldr w) ++ [k])
  /\ ((forall x, x ∈ subs_of i w -> removed_by unsubs st x = []) ->
      invoked (OfAsset i) (log (broadcast unsubs i st w))
      = invoked (OfAsset i) (log w) ++ subs_of i w)
  /\ ((forall x, x ∈ l_subscribers (ldr w) -> unsubs x st = []) ->
      invoked OfLoader (log (l_broadcast unsubs st w))
      = invoked OfLoader (log w) ++ (User <$> l_subscribers (ldr w))).
Proof.
  repeat split.
  - intros [a Ha]. unfold subs_of, subscribe, with_asset. simpl.
    rewrite list_lookup_alter_eq, Ha. done.
  - intros Hrm. by apply forEach_asset_order.
  - intros Hrm. by apply forEach_loader_order.
Qed.

End Order.

(** ** Reports and reads *)

Section Reads.
Context {T : Type} (unsubs : nat -> Status -> list nat).
Implicit Types (w : World T) (a : Asset T).

Lemma updateProgress_lookup i q w a :
  store w !! i = Some a ->
  exists a', store (updateProgress unsubs i q w) !! i = Some a'
    /\ bare a' = bare (set_p q a).
Proof.
  intros Ha. unfold updateProgress.
  apply (broadcast_lookup unsubs i PROGRESS _ i).
  unfold with_asset. simpl. by rewrite list_lookup_alter_eq, Ha.
Qed.

(** X12: [updateProgress] stores the value it is given, whatever the value
    and whatever the state of the asset, and changes neither [loading],
    [data] nor the number of invocations; a report that arrives after the
    load has settled replaces the final 1. *)
Theorem report_is_stored_as_given i q r w a :
  store w !! i = Some a ->
  (exists a', store (updateProgress unsubs i q w) !! i = Some a'
     /\ p a' = q /\ loading a' = loading a /\ data a' = data a
     /\ invocations a' = invocations a)
  /\ (exists a', store (updateProgress unsubs i q (settle unsubs i r w)) !! i
                 = Some a'
        /\ p a' = q /\ loading a' = false).
Proof.
  intros Ha. split.
  - destruct (updateProgress_lookup i q w a Ha) as (a' & Ha' & Hb).
    exists a'. split; [done|].
    split; [exact (f_equal p Hb)|]. split; [exact (f_equal loading Hb)|].
    split; [exact (f_equal data Hb)|exact (f_equal invocations Hb)].
  - destruct (settle_lookup unsubs i r w a Ha) as (a1 & Ha1 & Hb1).
    destruct (updateProgress_lookup i q _ a1 Ha1) as (a' & Ha' & Hb).
    exists a'. split; [done|]. split; [exact (f_equal p Hb)|].
    transitivity (loading a1); [exact (f_equal loading Hb)|exact (f_equal loading Hb1)].
Qed.

Lemma load_raise_lookup i w a e :
  store w !! i = Some a -> loading a = false ->
  result (a_loader a (invocations a)) = Raise e ->
  exists a', store (fst (load unsubs i w)) !! i = Some a'
    /\ nop a' = nop (set_error e (count_invocation a))
    /\ loading a' = false
    /\ snd (load unsubs i w) = Resolved (data a).
Proof.
  intros Ha Hl Hr. rewrite (load_idle unsubs i w a Ha Hl), Hr. simpl.
  destruct (begun_lookup unsubs i w a Ha) as (a4 & Ha4 & Hb4).
  destruct (settle_lookup unsubs i (inl e) _ a4 Ha4) as (a' & Ha' & Hb).
  exists a'. split; [done|].
  assert (nop a' = nop (set_error e (count_invocation a))) as Hn.
  { transitivity (nop (set_loading false (set_error e a4))).
    - apply (f_equal (set_p 0%float)) in Hb. exact Hb.
    - apply (f_equal (fun x => set_loading false (set_error e x))) in Hb4.
      etransitivity; [exact Hb4|]. destruct a. simpl in *. by subst. }
  split; [done|]. split; [exact (f_equal loading Hb)|].
  unfold data_of. rewrite Ha'. f_equal. exact (f_equal data Hn).
Qed.

(** X14: the promise of a [load()] that finds the asset idle resolves with
    the value the load function returned, resolves with the earlier [data]
    when the load function threw, and is pending when the load function
    returned a promise. *)
Theorem load_resolves_with_the_data i w a :
  store w !! i = Some a -> loading a = false ->
  snd (load unsubs i w)
  = match result (a_loader a (invocations a)) with
    | Value v => Resolved v
    | Raise _ => Resolved (data a)
    | Promised => Waiting
    end.
Proof.
  intros Ha Hl. rewrite (load_idle unsubs i w a Ha Hl).
  destruct (begun_lookup unsubs i w a Ha) as (a4 & Ha4 & Hb4).
  destruct (result (a_loader a (invocations a))) as [v|e|]; [| |done].
  - destruct (settle_lookup unsubs i (inr v) _ a4 Ha4) as (a' & Ha' & Hb).
    simpl. unfold data_of. rewrite Ha'. f_equal. exact (f_equal data Hb).
  - destruct (settle_lookup unsubs i (inl e) _ a4 Ha4) as (a' & Ha' & Hb).
    simpl. unfold data_of. rewrite Ha'. f_equal.
    transitivity (data a4); [exact (f_equal data Hb)|exact (f_equal data Hb4)].
Qed.

(** X15: on an asset without data whose load function throws, every read of
    [data] invokes the load function again: [n] reads make [n] invocations,
    and leave the asset idle and without data. *)
Theorem failing_load_is_retried_on_every_read i w a n :
  store w !! i = Some a -> data a = None -> loading a = false ->
  (forall m, exists e, result (a_loader a m) = Raise e) ->
  exists a', store (run unsubs (replicate n (OReadData i)) w) !! i = Some a'
    /\ invocations a' = (invocations a + n)%nat
    /\ data a' = None /\ loading a' = false.
Proof.
  intros Ha Hd Hl Hr.
  assert (exists a', store (run unsubs (replicate n (OReadData i)) w) !! i = Some a'
            /\ invocations a' = (invocations a + n)%nat
            /\ data a' = None /\ loading a' = false
            /\ a_loader a' = a_loader a) as (a' & ? & ? & ? & ? & _);
    [|by exists a'].
  revert w a Ha Hd Hl Hr. induction n as [|n IH]; intros w a Ha Hd Hl Hr.
  - exists a. simpl. rewrite Nat.add_0_r. done.
  - simpl. unfold get_data at 1. rewrite Ha, Hd, Hl. simpl.
    destruct (Hr (invocations a)) as [e He].
    destruct (load_raise_lookup i w a e Ha Hl He) as (a1 & Ha1 & Hn & Hl1 & _).
    assert (data a1 = data a) as Hd1 by exact (f_equal data Hn).
    assert (a_loader a1 = a_loader a) as Hf1 by exact (f_equal a_loader Hn).
    assert (invocations a1 = S (invocations a)) as Hi1
      by exact (f_equal invocations Hn).
    destruct (IH _ a1 Ha1) as (a' & Ha' & Hi & Hd' & Hl' & Hf).
    + by rewrite Hd1.
    + done.
    + intros m. rewrite Hf1. apply Hr.
    + exists a'. split; [done|]. split; [lia|].
      split; [done|]. split; [done|]. by rewrite Hf.
Qed.

Lemma constructed_fresh (specs : list ((nat -> LoadRun T) * option string)) :
  Forall (fun a => subscribers a = []) (constructed specs).
Proof. unfold constructed. apply Forall_fmap, Forall_true. done. Qed.

(** X16: in every state reachable from construction the subscriber sets of
    the assets and of the loader hold no callback twice, so that a
    broadcast invokes no callback more than once. *)
Theorem subscriber_sets_hold_no_duplicates
    (specs : list ((nat -> LoadRun T) * option string)) inputs ops i st cb k :
  let w := run unsubs ops (init (constructed specs) inputs) in
  NoDup (subs_of i w) /\ NoDup (l_subscribers (ldr w))
  /\ calls (OfAsset i) cb (broadcast unsubs i st w) <= S (calls (OfAsset i) cb w)
  /\ calls OfLoader (User k) (l_broadcast unsubs st w)
     <= S (calls OfLoader (User k) w).
Proof.
  intros w.
  assert (tidy w) as [Hs Hl].
  { apply run_tidy, init_tidy, constructed_fresh. }
  assert (NoDup (subs_of i w)) as Hi.
  { unfold subs_of. destruct (store w !! i) as [a|] eqn:Ha; [|apply NoDup_nil_2].
    by apply (Forall_lookup_1 _ _ _ _ Hs Ha). }
  split; [done|]. split; [done|]. split.
  - destruct (broadcast_seen_le unsubs i st w cb Hi) as (l & Hl1 & Hl2).
    unfold calls. rewrite Hl1, length_app. lia.
  - destruct (l_broadcast_seen_le unsubs st w k Hl) as (l & Hl1 & Hl2).
    unfold calls. rewrite Hl1, length_app. lia.
Qed.

Lemma obj_promise_never_written ops w :
  obj_promise <$> store (run unsubs ops w) = obj_promise <$> store w.
Proof. store_frame (@run_view T unsubs). Qed.

(** X17: the properties [loading], [error] and [promise] of the object
    [asset()] returns, and [loading] and [error] of the object [loader()]
    returns, keep the values they had at construction ([false] and
    [undefined]) in every run: they are copies, not getters. *)
Theorem copied_properties_never_change
    (specs : list ((nat -> LoadRun T) * option string)) inputs ops :
  let w := run unsubs ops (init (constructed specs) inputs) in
  Forall (fun a => obj_loading a = false /\ obj_error a = None
                   /\ obj_promise a = None) (store w)
  /\ lobj_loading (ldr w) = false /\ lobj_error (ldr w) = None.
Proof.
  intros w. split.
  - assert (forall {D} (g : Asset T -> D) (d : D),
              (forall s, g (asset (fst s) (snd s)) = d) ->
              g <$> store w = g <$> store (init (constructed specs) inputs) ->
              forall j a, store w !! j = Some a -> g a = d) as Hg.
    { intros D g d Hd Hs j a Ha.
      apply (f_equal (fun l => l !! j)) in Hs.
      rewrite !list_lookup_fmap, Ha in Hs. simpl in Hs.
      unfold constructed in Hs. rewrite list_lookup_fmap in Hs.
      destruct (specs !! j) as [s|]; [|done]. simpl in Hs.
      injection Hs as ->. apply Hd. }
    apply Forall_lookup. intros j a Ha. split; [|split].
    + apply (Hg _ obj_loading false (fun _ => eq_refl)
                (obj_loading_never_written unsubs ops _) j a Ha).
    + apply (Hg _ obj_error None (fun _ => eq_refl)
                (obj_error_never_written unsubs ops _) j a Ha).
    + apply (Hg _ obj_promise None (fun _ => eq_refl)
                (obj_promise_never_written ops _) j a Ha).
  - split.
    + apply (lobj_loading_never_written unsubs ops (init (constructed specs) inputs)).
    + apply (lobj_error_never_written unsubs ops (init (constructed specs) inputs)).
Qed.

End Reads.

(** ** The join of the loader *)

Ltac ldr_frame0 lem :=
  match goal with
  | |- ?g (ldr ?w') = ?g (ldr ?w) =>
      change (snd (fst (view (fun _ : Asset _ => tt) g
                          (fun _ : list (Entry _) => tt) w'))
              = snd (fst (view (fun _ : Asset _ => tt) g
                            (fun _ : list (Entry _) => tt) w)));
      do 2 f_equal; apply lem; done
  end.

Section JoinOnce.
Context {T : Type} (unsubs : nat -> Status -> list nat).
Implicit Types (w : World T).

Lemma update_join_settled w : join (ldr w) <> Unsettled -> update_join w = w.
Proof. intros Hj. unfold update_join. by destruct (join (ldr w)). Qed.

Lemma Promise_all_not_handled bs : Promise_all bs <> Handled.
Proof.
  unfold Promise_all. destruct (omap branch_failure bs); [|done].
  by destruct (forallb branch_done bs).
Qed.

Lemma Promise_all_not_caught bs : Promise_all bs <> Caught.
Proof.
  unfold Promise_all. destruct (omap branch_failure bs); [|done].
  by destruct (forallb branch_done bs).
Qed.

Lemma update_join_join w :
  join (ldr (update_join w))
  = match join (ldr w) with
    | Unsettled => Promise_all (branches (ldr w))
    | j => j
    end.
Proof. unfold update_join. by destruct (join (ldr w)) eqn:Hj; simpl; rewrite ?Hj. Qed.

Lemma update_join_branches w : branches (ldr (update_join w)) = branches (ldr w).
Proof. unfold update_join. by destruct (join (ldr w)). Qed.

Lemma settle_join i r w : join (ldr (settle unsubs i r w)) = join (ldr w).
Proof. ldr_frame (@settle_view T unsubs). Qed.

Lemma settle_branches i r w :
  branches (ldr (settle unsubs i r w)) = branches (ldr w).
Proof. ldr_frame (@settle_view T unsubs). Qed.

Lemma start_inputs_join inputs w bs :
  join (ldr (fst (fold_left (start_input unsubs) inputs (w, bs)))) = join (ldr w).
Proof.
  apply (fold_left_fst_proj (fun w => join (ldr w))). intros acc x.
  ldr_frame (@start_input_view T unsubs).
Qed.

Lemma load_each_join ixs w acc :
  join (ldr (fst (fold_left (load_each unsubs) ixs (w, acc)))) = join (ldr w).
Proof.
  apply (fold_left_fst_proj (fun w => join (ldr w))). intros a x.
  unfold load_each. simpl. ldr_frame (@load_view T unsubs).
Qed.

Lemma load_each_branches ixs w acc :
  branches (ldr (fst (fold_left (load_each unsubs) ixs (w, acc))))
  = branches (ldr w).
Proof.
  apply (fold_left_fst_proj (fun w => branches (ldr w))). intros a x.
  unfold load_each. simpl. ldr_frame (@load_view T unsubs).
Qed.

Lemma l_broadcast_join st w : join (ldr (l_broadcast unsubs st w)) = join (ldr w).
Proof. exact (f_equal join (l_broadcast_steady unsubs st w)). Qed.

Lemma update_join_cases w0 w :
  join (ldr w0) = join (ldr w) ->
  join (ldr (update_join w0)) = join (ldr w)
  \/ (join (ldr w) = Unsettled
      /\ exists bs, join (ldr (update_join w0)) = Promise_all bs).
Proof.
  intros Hj. rewrite update_join_join, Hj.
  destruct (join (ldr w)); [right|by left..]. split; [done|by eexists].
Qed.

(** What an operation other than the reactions of the join does to the
    join: nothing, unless the join is unsettled and the operation settles
    it. *)
Lemma exec_join_cases w o :
  o <> OJoined ->
  join (ldr (exec unsubs w o)) = join (ldr w)
  \/ (join (ldr w) = Unsettled
      /\ exists bs, join (ldr (exec unsubs w o)) = Promise_all bs).
Proof.
  intros Ho. destruct o; try done;
    try (left; ldr_frame (@exec_plain_view T unsubs)); simpl.
  - unfold resume. destruct (store w !! i) as [a|]; [|by left].
    destruct (loading a); [|by left].
    apply update_join_cases. simpl. apply settle_join.
  - unfold start. simpl. destruct (l_promise (ldr w)); [by left|]. simpl.
    apply update_join_cases. simpl.
    by rewrite start_inputs_join, l_broadcast_join.
  - left. ldr_frame0 (@factory_resolved_view T).
  - unfold factory_rejected. destruct (_ !! b) as [[]|]; try by left.
    by apply update_join_cases.
  - unfold factory_loads. destruct (_ !! b) as [[]|]; try by left.
    apply update_join_cases. simpl. apply load_each_join.
Qed.

Lemma exec_join_settled w o :
  o <> OJoined -> join (ldr w) <> Unsettled ->
  join (ldr (exec unsubs w o)) = join (ldr w).
Proof. intros Ho Hj. by destruct (exec_join_cases w o Ho) as [?|[? _]]. Qed.

Lemma exec_join_handled w o :
  o <> OJoined ->
  join (ldr (exec unsubs w o)) = Handled <-> join (ldr w) = Handled.
Proof.
  intros Ho. destruct (exec_join_cases w o Ho) as [->|[Hj [bs Hbs]]]; [done|].
  rewrite Hbs, Hj. split; [|done]. intros Hp. by apply Promise_all_not_handled in Hp.
Qed.

Lemma joined_handled w : join (ldr w) = Handled -> joined unsubs w = w.
Proof. intros Hj. unfold joined. by rewrite Hj. Qed.

Lemma run_join_settled ops w :
  (@OJoined T ∉ ops) -> join (ldr w) <> Unsettled ->
  join (ldr (run unsubs ops w)) = join (ldr w).
Proof.
  revert w. induction ops as [|o ops IH]; intros w Hops Hj; [done|].
  apply not_elem_of_cons in Hops as [Ho Hops]. simpl.
  rewrite IH; [|done|].
  - apply exec_join_settled; [by intros ->|done].
  - rewrite exec_join_settled; [done|by intros ->|done].
Qed.

Lemma run_join_handled ops w :
  join (ldr w) = Handled -> join (ldr (run unsubs ops w)) = Handled.
Proof.
  revert w. induction ops as [|o ops IH]; intros w Hj; [done|].
  simpl. apply IH.
  destruct o; try (by apply exec_join_handled).
  simpl. by rewrite joined_handled.
Qed.

Lemma exec_l_error w o :
  o <> OJoined -> l_error (ldr (exec unsubs w o)) = l_error (ldr w).
Proof.
  intros Ho. destruct o; try done; try ldr_frame (@exec_inner_view T unsubs).
  ldr_frame (@start_view T unsubs).
Qed.

Lemma endings_called k (l : list (Entry T)) src cb st c :
  ~ (src = OfLoader /\ (st = LOADED \/ st = ERROR)) ->
  endings k (l ++ [Called src cb st c]) = endings k l.
Proof.
  intros Hq. unfold endings, statuses. rewrite seen_app, fmap_app, filter_app.
  simpl. case_decide as Hs; [|apply app_nil_r].
  destruct Hs as [-> ->]. simpl. rewrite filter_cons_False, filter_nil.
  - apply app_nil_r.
  - intros Hf. by apply Hq.
Qed.

Lemma endings_recomputed k (l : list (Entry T)) c :
  endings k (l ++ [Recomputed c]) = endings k l.
Proof. unfold endings, statuses. by rewrite seen_recomputed. Qed.

Lemma exec_endings k w o :
  o <> OJoined -> endings k (log (exec unsubs w o)) = endings k (log w).
Proof.
  intros Ho.
  destruct o; try done.
  all: try (log_frame (@exec_inner_view T unsubs)
              (fun (s : Source) (st : Status) =>
                 ~ (s = OfLoader /\ (st = LOADED \/ st = ERROR)));
            try done;
            [intros; by apply endings_called
            |intros; apply endings_recomputed
            |by intros ? ? [? _]
            |by intros [_ [?|?]]]).
  log_frame (@start_view T unsubs)
            (fun (s : Source) (st : Status) =>
               ~ (s = OfLoader /\ (st = LOADED \/ st = ERROR)));
    try done.
  - intros; by apply endings_called.
  - intros; apply endings_recomputed.
  - by intros ? ? [? _].
  - by intros [_ [?|?]].
  - by intros [_ [?|?]].
Qed.

Lemma forEach_loader_statuses st k pending w :
  exists l,
    seen OfLoader (User k)
         (log (forEach (fun w => l_subscribers (ldr w)) (l_notify unsubs st)
                       pending w))
    = seen OfLoader (User k) (log w) ++ l
    /\ Forall (fun x => fst x = st) l.
Proof.
  revert w. induction pending as [|x rest IH]; intros w.
  - exists []. split; [by rewrite app_nil_r|apply Forall_nil_2].
  - simpl. case_decide; [|apply IH].
    destruct (IH (l_notify unsubs st x w)) as (l & Hl & Hst).
    rewrite Hl, seen_l_notify, <- app_assoc. eexists. split; [done|].
    apply Forall_app. split; [|done]. case_decide; [|done].
    by apply Forall_singleton.
Qed.

Lemma l_broadcast_statuses st w k :
  NoDup (l_subscribers (ldr w)) ->
  exists l, statuses OfLoader (User k) (log (l_broadcast unsubs st w))
            = statuses OfLoader (User k) (log w) ++ l
    /\ (l = [] \/ l = [st]).
Proof.
  intros Hn.
  destruct (l_broadcast_seen_le unsubs st w k Hn) as (l1 & Hl1 & Hlen).
  destruct (forEach_loader_statuses st k (l_subscribers (ldr w)) w)
    as (l2 & Hl2 & Hst).
  fold (l_broadcast unsubs st w) in Hl2. rewrite Hl1 in Hl2.
  apply app_inv_head in Hl2 as ->.
  exists (fst <$> l2). unfold statuses. rewrite Hl1, fmap_app. split; [done|].
  destruct l2 as [|[st' c] [|? ?]]; [by left| |simpl in Hlen; lia].
  right. apply (proj1 (Forall_singleton _ _)) in Hst. simpl in Hst.
  by rewrite <- Hst.
Qed.

Lemma l_broadcast_endings st w k :
  NoDup (l_subscribers (ldr w)) ->
  exists l, endings k (log (l_broadcast unsubs st w)) = endings k (log w) ++ l
    /\ (l = [] \/ (l = [st] /\ (st = LOADED \/ st = ERROR))).
Proof.
  intros Hn. destruct (l_broadcast_statuses st w k Hn) as (l & Hl & Hor).
  unfold endings. rewrite Hl, filter_app.
  destruct Hor as [->| ->].
  - exists []. split; [done|by left].
  - destruct (decide (st = LOADED \/ st = ERROR)) as [Hf|Hf].
    + exists [st]. rewrite filter_cons_True by done. split; [done|]. by right.
    + exists []. rewrite filter_cons_False by done. split; [done|by left].
Qed.

Lemma joined_ended_once k w :
  tidy w -> ended_once k w -> ended_once k (joined unsubs w).
Proof.
  intros [Hs Hn] He. unfold joined. unfold ended_once in He.
  destruct (join (ldr w)) eqn:Hj; try (unfold ended_once; by rewrite Hj).
  - (* fulfilled: the [finally] reaction *)
    unfold ended_once, on_finally. rewrite l_broadcast_join. simpl.
    destruct (l_broadcast_endings LOADED
                (with_ldr (set_l_loading false) (with_ldr (set_join Handled) w)) k)
      as (l & -> & Hor); [done|].
    simpl. rewrite He. simpl.
    destruct Hor as [->|[-> _]].
    + apply sublist_nil_l.
    + apply sublist_cons. reflexivity.
  - (* rejected: the [catch] reaction *)
    unfold ended_once, on_catch. rewrite l_broadcast_join. simpl.
    destruct (l_broadcast_endings ERROR
                (with_ldr (set_l_error e) (with_ldr (set_join Caught) w)) k)
      as (l & -> & Hor); [done|].
    simpl. rewrite He. simpl.
    destruct Hor as [->|[-> _]]; [apply sublist_nil_l|reflexivity].
  - (* caught: the [finally] reaction *)
    unfold ended_once, on_finally. rewrite l_broadcast_join. simpl.
    destruct (l_broadcast_endings LOADED
                (with_ldr (set_l_loading false) (with_ldr (set_join Handled) w)) k)
      as (l & -> & Hor); [done|].
    simpl.
    change [ERROR; LOADED] with ([ERROR] ++ [LOADED]).
    apply sublist_app; [done|].
    destruct Hor as [->|[-> _]]; [apply sublist_nil_l|reflexivity].
Qed.

End JoinOnce.

Section JoinRuns.
Context {T : Type} (unsubs : nat -> Status -> list nat).
Implicit Types (w : World T).

Lemma joined_or_not (o : @Op T) : o = OJoined \/ o <> OJoined.
Proof. destruct o; (by left) || (by right). Qed.

Lemma exec_ended_once k w o :
  tidy w -> ended_once k w -> ended_once k (exec unsubs w o).
Proof.
  intros Ht He.
  destruct (joined_or_not o) as [->|Ho]; [by apply joined_ended_once|].
  unfold ended_once in *. rewrite (exec_endings unsubs k w o Ho).
  destruct (exec_join_cases unsubs w o Ho) as [->|[Hj [bs ->]]]; [done|].
  rewrite Hj in He. unfold Promise_all.
  destruct (omap branch_failure bs); [|done]. by destruct (forallb branch_done bs).
Qed.

Lemma run_ended_once k ops w :
  tidy w -> ended_once k w -> ended_once k (run unsubs ops w).
Proof.
  revert w. induction ops as [|o ops IH]; intros w Ht He; [done|].
  simpl. apply IH; [by apply exec_tidy|by apply exec_ended_once].
Qed.

Lemma run_l_error_handled ops w :
  join (ldr w) = Handled -> l_error (ldr (run unsubs ops w)) = l_error (ldr w).
Proof.
  revert w. induction ops as [|o ops IH]; intros w Hj; [done|]. simpl.
  destruct (joined_or_not o) as [->|Ho].
  - simpl. rewrite joined_handled by done. by apply IH.
  - rewrite IH; [by apply exec_l_error|]. by apply exec_join_handled.
Qed.

Lemma run_l_error ops w :
  (@OJoined T ∉ ops) -> l_error (ldr (run unsubs ops w)) = l_error (ldr w).
Proof.
  revert w. induction ops as [|o ops IH]; intros w Hops; [done|].
  apply not_elem_of_cons in Hops as [Ho Hops]. simpl.
  rewrite IH by done. apply exec_l_error. by intros ->.
Qed.

Lemma on_finally_fields w :
  l_error (ldr (on_finally unsubs w)) = l_error (ldr w)
  /\ l_loading (ldr (on_finally unsubs w)) = false
  /\ join (ldr (on_finally unsubs w)) = join (ldr w).
Proof.
  unfold on_finally.
  pose proof (l_broadcast_steady unsubs LOADED (with_ldr (set_l_loading false) w)) as Hs.
  split; [exact (f_equal l_error Hs)|].
  split; [exact (f_equal l_loading Hs)|exact (f_equal join Hs)].
Qed.

Lemma on_catch_fields e w :
  l_error (ldr (on_catch unsubs e w)) = e
  /\ l_loading (ldr (on_catch unsubs e w)) = l_loading (ldr w)
  /\ join (ldr (on_catch unsubs e w)) = join (ldr w).
Proof.
  unfold on_catch.
  pose proof (l_broadcast_steady unsubs ERROR (with_ldr (set_l_error e) w)) as Hs.
  split; [exact (f_equal l_error Hs)|].
  split; [exact (f_equal l_loading Hs)|exact (f_equal join Hs)].
Qed.

Lemma joined_rejected e w :
  join (ldr w) = Rejected e ->
  l_error (ldr (joined unsubs w)) = e
  /\ l_loading (ldr (joined unsubs w)) = l_loading (ldr w)
  /\ join (ldr (joined unsubs w)) = Caught.
Proof.
  intros Hj. unfold joined. rewrite Hj.
  by destruct (on_catch_fields e (with_ldr (set_join Caught) w)) as (-> & -> & ->).
Qed.

Lemma joined_caught w :
  join (ldr w) = Caught ->
  l_error (ldr (joined unsubs w)) = l_error (ldr w)
  /\ l_loading (ldr (joined unsubs w)) = false
  /\ join (ldr (joined unsubs w)) = Handled.
Proof.
  intros Hj. unfold joined. rewrite Hj.
  by destruct (on_finally_fields (with_ldr (set_join Handled) w)) as (-> & -> & ->).
Qed.

(** Once the [catch] reaction has run, the loader's [error] is not assigned
    again, and only the [finally] reaction changes the join. *)
Lemma run_caught ops w :
  join (ldr w) = Caught \/ join (ldr w) = Handled ->
  l_error (ldr (run unsubs ops w)) = l_error (ldr w)
  /\ (join (ldr (run unsubs ops w)) = Caught
      \/ join (ldr (run unsubs ops w)) = Handled).
Proof.
  revert w. induction ops as [|o ops IH]; intros w Hj; [done|]. simpl.
  destruct (joined_or_not o) as [->|Ho].
  - simpl. destruct Hj as [Hj|Hj].
    + destruct (joined_caught w Hj) as (He & _ & Hh).
      destruct (IH (joined unsubs w) (or_intror Hh)) as [-> Hor]. by rewrite He.
    + rewrite joined_handled by done. apply IH. by right.
  - destruct (IH (exec unsubs w o)) as [-> Hor].
    + rewrite exec_join_settled; [done|done|]. by destruct Hj as [-> | ->].
    + split; [by apply exec_l_error|done].
Qed.

Lemma run_caught_handled ops w :
  join (ldr w) = Caught -> (@OJoined T ∈ ops) ->
  join (ldr (run unsubs ops w)) = Handled.
Proof.
  revert w. induction ops as [|o ops IH]; intros w Hj Hin.
  - by apply elem_of_nil in Hin.
  - simpl. destruct (joined_or_not o) as [->|Ho].
    + simpl. apply run_join_handled. by apply joined_caught.
    + apply IH.
      * rewrite exec_join_settled; [done|done|]. by rewrite Hj.
      * apply elem_of_cons in Hin as [Hin|Hin]; [by subst|done].
Qed.

Lemma joined_fulfilled w :
  join (ldr w) = Fulfilled ->
  l_error (ldr (joined unsubs w)) = l_error (ldr w)
  /\ l_loading (ldr (joined unsubs w)) = false
  /\ join (ldr (joined unsubs w)) = Handled.
Proof.
  intros Hj. unfold joined. rewrite Hj.
  by destruct (on_finally_fields (with_ldr (set_join Handled) w)) as (-> & -> & ->).
Qed.

(** The pending-join invariant. *)
Lemma Promise_all_unsettled bs : Promise_all bs = Unsettled -> unfailed bs.
Proof.
  unfold Promise_all, unfailed.
  destruct (omap branch_failure bs) as [|e l] eqn:Ho; [|done]. intros _.
  induction bs as [|b bs IH]; [apply Forall_nil_2|].
  simpl in Ho. destruct (branch_failure b) eqn:Hb; [done|].
  apply Forall_cons. split; [done|]. by apply IH.
Qed.

Lemma update_join_pending w : pending_join (update_join w).
Proof.
  unfold pending_join. rewrite update_join_join, update_join_branches.
  destruct (join (ldr w)) eqn:Hj; try done.
  apply Promise_all_unsettled.
Qed.

Lemma pending_join_same w w' :
  join (ldr w') = join (ldr w) -> branches (ldr w') = branches (ldr w) ->
  pending_join w -> pending_join w'.
Proof. unfold pending_join. by intros -> ->. Qed.

Lemma exec_pending_join w o : pending_join w -> pending_join (exec unsubs w o).
Proof.
  intros Hw. destruct o.
  all: try (revert Hw; apply pending_join_same;
            [ldr_frame (@exec_plain_view T unsubs)
            |ldr_frame (@exec_plain_view T unsubs)]).
  all: simpl.
  - unfold resume. destruct (store w !! i) as [a|]; [|done].
    destruct (loading a); [|done]. apply update_join_pending.
  - unfold start. simpl.
    destruct (l_promise (ldr w)); [by apply (pending_join_same w)|].
    apply update_join_pending.
  - unfold factory_resolved. destruct (_ !! b) as [[]|] eqn:Hb; try done.
    unfold pending_join. simpl.
    assert (forall ixs0 w0,
              join (ldr (fold_left (fun w i => addToLoader i w) ixs0 w0))
              = join (ldr w0)
              /\ branches (ldr (fold_left (fun w i => addToLoader i w) ixs0 w0))
                 = branches (ldr w0)) as Hfold.
    { intros ixs0 w0. split.
      - apply (fold_left_proj (fun w => join (ldr w))). intros w1 j.
        ldr_frame0 (@addToLoader_view T).
      - apply (fold_left_proj (fun w => branches (ldr w))). intros w1 j.
        ldr_frame0 (@addToLoader_view T). }
    destruct (Hfold ixs w) as [-> ->]. intros Hj.
    apply Forall_insert; [by apply Hw|done].
  - unfold factory_rejected. destruct (_ !! b) as [[]|]; try done.
    apply update_join_pending.
  - unfold factory_loads. destruct (_ !! b) as [[]|]; try done.
    apply update_join_pending.
  - unfold joined. destruct (join (ldr w)) eqn:Hj; try done.
    + unfold pending_join. destruct (on_finally_fields (with_ldr (set_join Handled) w))
        as (_ & _ & ->). done.
    + unfold pending_join.
      destruct (on_catch_fields e (with_ldr (set_join Caught) w)) as (_ & _ & ->).
      done.
    + unfold pending_join. destruct (on_finally_fields (with_ldr (set_join Handled) w))
        as (_ & _ & ->). done.
Qed.

Lemma run_pending_join ops w : pending_join w -> pending_join (run unsubs ops w).
Proof.
  revert w. induction ops as [|o ops IH]; intros w Hw; [done|].
  simpl. by apply IH, exec_pending_join.
Qed.

Lemma omap_failure_insert bs b x e :
  unfailed bs -> bs !! b = Some x ->
  omap branch_failure (<[b := Failed e]> bs) = [e].
Proof.
  revert b. induction bs as [|y bs IH]; intros b Hu Hb; [done|].
  apply Forall_cons in Hu as [Hy Hu].
  destruct b as [|b]; simpl.
  - clear IH Hb. induction bs as [|z bs IH]; [done|].
    apply Forall_cons in Hu as [Hz Hu]. simpl. rewrite Hz. by apply IH.
  - rewrite Hy. by apply IH.
Qed.

Lemma factory_rejected_join w b f e :
  pending_join w -> join (ldr w) = Unsettled ->
  branches (ldr w) !! b = Some (AwaitFactory f) ->
  join (ldr (factory_rejected b e w)) = Rejected e.
Proof.
  intros Hw Hj Hb. unfold factory_rejected. rewrite Hb.
  rewrite update_join_join. simpl. rewrite Hj.
  unfold Promise_all. by rewrite (omap_failure_insert _ b _ e (Hw Hj) Hb).
Qed.

End JoinRuns.

Section JoinTheorems.
Context {T : Type} (unsubs : nat -> Status -> list nat).
Implicit Types (w : World T).

Lemma l_broadcast_stays st w k :
  k ∈ l_subscribers (ldr w) ->
  (forall x, x ∈ l_subscribers (ldr w) -> k ∉ unsubs x st) ->
  k ∈ l_subscribers (ldr (l_broadcast unsubs st w)).
Proof.
  intros Hk Hrm. unfold l_broadcast.
  apply (forEach_stays (fun w => l_subscribers (ldr w)) (l_notify unsubs st)
           (fun x => unsubs x st) (fun x w => eq_refl)); auto.
Qed.

Lemma l_broadcast_subset st w k :
  k ∈ l_subscribers (ldr (l_broadcast unsubs st w)) -> k ∈ l_subscribers (ldr w).
Proof.
  unfold l_broadcast.
  apply (forEach_subset (fun w => l_subscribers (ldr w)) (l_notify unsubs st)
           (fun x => unsubs x st) (fun x w => eq_refl)).
Qed.

Lemma l_broadcast_log_statuses st w k :
  NoDup (l_subscribers (ldr w)) -> k ∈ l_subscribers (ldr w) ->
  (forall x, x ∈ l_subscribers (ldr w) -> x <> k -> k ∉ unsubs x st) ->
  statuses OfLoader (User k) (log (l_broadcast unsubs st w))
  = statuses OfLoader (User k) (log w) ++ [st].
Proof.
  intros Hn Hk Hrm.
  destruct (l_broadcast_seen_once unsubs st w k Hn Hk Hrm) as (w' & Hs & _).
  unfold statuses. by rewrite Hs, fmap_app.
Qed.

(** X18: over the life of a loader, each of its subscribers is sent [ERROR]
    at most once and [LOADED] at most once, [ERROR] first. *)
Theorem loader_ends_once
    (specs : list ((nat -> LoadRun T) * option string)) inputs ops k :
  endings k (log (run unsubs ops (init (constructed specs) inputs)))
    `sublist_of` [ERROR; LOADED].
Proof.
  assert (ended_once k (run unsubs ops (init (constructed specs) inputs))) as He.
  { apply run_ended_once; [|done]. apply init_tidy, constructed_fresh. }
  unfold ended_once in He.
  destruct (join _); rewrite ?He; try apply sublist_nil_l; [|done].
  transitivity [ERROR]; [done|]. apply sublist_skip, sublist_nil_l.
Qed.

(** X19: once the join is rejected with [e], nothing that happens before
    its [catch] reaction runs changes the join or the loader's [error]; that
    reaction assigns [error = e], and nothing replaces it afterwards: the
    only change left to the join is the [finally] reaction, which the next
    turn of the join brings. *)
Theorem first_rejection_is_recorded w e ops ops' :
  join (ldr w) = Rejected e -> (@OJoined T ∉ ops) ->
  let w' := joined unsubs (run unsubs ops w) in
  l_error (ldr (run unsubs ops w)) = l_error (ldr w)
  /\ l_error (ldr w') = e
  /\ join (ldr w') = Caught
  /\ l_error (ldr (run unsubs ops' w')) = e
  /\ (join (ldr (run unsubs ops' w')) = Caught
      \/ join (ldr (run unsubs ops' w')) = Handled)
  /\ ((@OJoined T ∈ ops') -> join (ldr (run unsubs ops' w')) = Handled).
Proof.
  intros Hj Hops w'.
  assert (join (ldr (run unsubs ops w)) = Rejected e) as Hj'.
  { rewrite run_join_settled; [done..|]. by rewrite Hj. }
  destruct (joined_rejected unsubs e _ Hj') as (He & _ & Hh).
  split; [by apply run_l_error|]. split; [done|]. split; [done|].
  destruct (run_caught unsubs ops' w' (or_introl Hh)) as [Hkeep Hor].
  split; [by rewrite Hkeep|]. split; [done|].
  by apply run_caught_handled.
Qed.

(** X20: when a factory of a started loader rejects with [e] while the join
    is unsettled, the [catch] reaction of the join assigns [error = e] and
    sends [ERROR] with [loading] as it was; whatever happens before the
    [finally] reaction sends no [ERROR] and no [LOADED] and leaves [error]
    alone; the [finally] reaction assigns [loading = false] and sends
    [LOADED].  A subscriber that stays subscribed hears [ERROR], then
    [LOADED], once each. *)
Theorem factory_rejection_is_reported
    (specs : list ((nat -> LoadRun T) * option string)) inputs ops b f e k mid :
  let w := run unsubs ops (init (constructed specs) inputs) in
  branches (ldr w) !! b = Some (AwaitFactory f) ->
  join (ldr w) = Unsettled ->
  (@OJoined T ∉ mid) ->
  let w1 := joined unsubs (factory_rejected b e w) in
  let w2 := run unsubs mid w1 in
  let w3 := joined unsubs w2 in
  (l_error (ldr w1) = e /\ l_loading (ldr w1) = l_loading (ldr w)
   /\ join (ldr w1) = Caught)
  /\ (l_error (ldr w2) = e /\ join (ldr w2) = Caught
      /\ endings k (log w2) = endings k (log w1))
  /\ (l_error (ldr w3) = e /\ l_loading (ldr w3) = false
      /\ join (ldr w3) = Handled)
  /\ (k ∈ l_subscribers (ldr w) ->
      (forall x, x ∈ l_subscribers (ldr w) -> x <> k -> k ∉ unsubs x ERROR) ->
      statuses OfLoader (User k) (log w1)
      = statuses OfLoader (User k) (log w) ++ [ERROR]
      /\ (k ∈ l_subscribers (ldr w2) ->
          (forall x, x ∈ l_subscribers (ldr w2) -> x <> k -> k ∉ unsubs x LOADED) ->
          statuses OfLoader (User k) (log w3)
          = statuses OfLoader (User k) (log w2) ++ [LOADED]
          /\ endings k (log w3) = [ERROR; LOADED])).
Proof.
  intros w Hb Hj Hmid w1 w2 w3.
  assert (pending_join w) as Hp.
  { apply run_pending_join. intros _. apply Forall_nil_2. }
  assert (tidy w) as Htw by apply run_tidy, init_tidy, constructed_fresh.
  assert (ended_once k w) as Hend.
  { apply run_ended_once; [|done]. apply init_tidy, constructed_fresh. }
  unfold ended_once in Hend. rewrite Hj in Hend.
  pose proof (factory_rejected_join w b f e Hp Hj Hb) as Hr.
  destruct (joined_rejected unsubs e _ Hr) as (He & Hl & Hc).
  set (w0 := factory_rejected b e w) in *.
  change (joined unsubs w0) with w1 in He, Hl, Hc.
  assert (l_subscribers (ldr w0) = l_subscribers (ldr w)
          /\ log w0 = log w /\ store w0 = store w
          /\ l_loading (ldr w0) = l_loading (ldr w)) as (Hs0 & Hl0 & Hst0 & Hld0).
  { unfold w0, factory_rejected. rewrite Hb. unfold update_join. simpl.
    by destruct (join (ldr w)). }
  assert (join (ldr w2) = Caught) as Hc2.
  { unfold w2. rewrite run_join_settled; [done..|]. by rewrite Hc. }
  assert (l_error (ldr w2) = e) as He2.
  { unfold w2. by rewrite run_l_error. }
  assert (endings k (log w2) = endings k (log w1)) as Hmid_e.
  { unfold w2. clear Hc2 He2. revert Hmid. generalize w1. clear.
    induction mid as [|o mid' IH]; intros w Hmid; [done|].
    apply not_elem_of_cons in Hmid as [Ho Hmid]. simpl.
    rewrite IH by done. apply exec_endings. by intros ->. }
  destruct (joined_caught unsubs w2 Hc2) as (He3 & Hl3 & Hh3).
  split; [by rewrite <- Hld0|].
  split; [done|].
  split; [by rewrite <- He2|].
  intros Hk Herr.
  assert (statuses OfLoader (User k) (log w1)
          = statuses OfLoader (User k) (log w) ++ [ERROR]) as Hst1.
  { unfold w1, joined. rewrite Hr. unfold on_catch.
    set (w' := with_ldr (set_l_error e) (with_ldr (set_join Caught) w0)).
    rewrite (l_broadcast_log_statuses ERROR w' k).
    - change (log w') with (log w0). by rewrite Hl0.
    - change (l_subscribers (ldr w')) with (l_subscribers (ldr w0)).
      rewrite Hs0. apply Htw.
    - change (l_subscribers (ldr w')) with (l_subscribers (ldr w0)).
      by rewrite Hs0.
    - change (l_subscribers (ldr w')) with (l_subscribers (ldr w0)).
      by rewrite Hs0. }
  split; [done|].
  intros Hk2 Hld.
  assert (tidy w2) as Ht2.
  { unfold w2. apply run_tidy. unfold w1. apply (exec_tidy unsubs w0 OJoined).
    split; [by rewrite Hst0; apply Htw|by rewrite Hs0; apply Htw]. }
  assert (statuses OfLoader (User k) (log w3)
          = statuses OfLoader (User k) (log w2) ++ [LOADED]) as Hst3.
  { unfold w3, joined. rewrite Hc2. unfold on_finally.
    set (w' := with_ldr (set_l_loading false) (with_ldr (set_join Handled) w2)).
    rewrite (l_broadcast_log_statuses LOADED w' k); [done| |done|done].
    apply Ht2. }
  split; [done|].
  unfold endings in *. rewrite Hst3, filter_app, Hmid_e, Hst1, filter_app, Hend.
  rewrite (filter_cons_True _ ERROR) by (by right).
  rewrite (filter_cons_True _ LOADED) by (by left). done.
Qed.

End JoinTheorems.

(** ** Factories and registration *)

Section Registration.
Context {T : Type} (unsubs : nat -> Status -> list nat).
Implicit Types (w : World T).

Lemma start_input_loader (acc : World T * list Branch) x :
  let l := ldr (fst acc) in
  let l' := ldr (fst (start_input unsubs acc x)) in
  assets l' = assets l
  /\ factory_calls l'
     = factory_calls l ++ match x with Factory f => [f] | Direct _ => [] end
  /\ _assets l'
     = _assets l ++ match x with Direct i => [i] | Factory _ => [] end.
Proof.
  destruct x as [i|f]; simpl.
  - set (w1 := addToLoader i (fst acc)).
    assert (roster (ldr (fst (load unsubs i w1))) = roster (ldr w1)) as Hl
      by ldr_frame (@load_view T unsubs).
    unfold roster in Hl. injection Hl as -> -> ->.
    unfold w1, addToLoader, subscribe. simpl.
    rewrite app_nil_r.
    destruct (id_of i _) as [s|]; [case_decide|]; done.
  - by rewrite app_nil_r.
Qed.

Lemma start_inputs_loader inputs w bs :
  let l := ldr w in
  let l' := ldr (fst (fold_left (start_input unsubs) inputs (w, bs))) in
  assets l' = assets l
  /\ factory_calls l' = factory_calls l ++ factories inputs
  /\ _assets l' = _assets l ++ directs inputs.
Proof.
  revert w bs. induction inputs as [|x inputs IH]; intros w bs.
  { simpl. by rewrite !app_nil_r. }
  cbv zeta. simpl fold_left.
  destruct (start_input_loader (w, bs) x) as (Ha & Hf & Hr).
  rewrite (surjective_pairing (start_input unsubs (w, bs) x)).
  destruct (IH (fst (start_input unsubs (w, bs) x))
               (snd (start_input unsubs (w, bs) x))) as (-> & -> & ->).
  rewrite Ha, Hf, Hr. simpl.
  split; [done|]. destruct x; simpl; by rewrite <- !app_assoc.
Qed.

Lemma start_loader w :
  l_promise (ldr w) = None ->
  let l' := ldr (fst (start unsubs w)) in
  assets l' = assets (ldr w)
  /\ factory_calls l' = factory_calls (ldr w) ++ factories (assets (ldr w))
  /\ _assets l' = _assets (ldr w) ++ directs (assets (ldr w))
  /\ is_Some (l_promise l').
Proof.
  intros Hp. cbv zeta. rewrite start_sets_promise.
  unfold start. simpl. rewrite Hp. simpl.
  set (w1 := l_broadcast unsubs LOADING (with_ldr (set_l_loading true) w)).
  assert (steady (ldr w1) = steady (set_l_loading true (ldr w))) as Hs
    by apply (l_broadcast_steady unsubs LOADING).
  assert (assets (ldr w1) = assets (ldr w)) as Ha by exact (f_equal assets Hs).
  assert (factory_calls (ldr w1) = factory_calls (ldr w)) as Hf
    by exact (f_equal factory_calls Hs).
  assert (_assets (ldr w1) = _assets (ldr w)) as Hr by exact (f_equal _assets Hs).
  destruct (start_inputs_loader (assets (ldr w1)) w1 []) as (Ha' & Hf' & Hr').
  set (r := fold_left _ _ _) in *.
  assert (forall w0 : World T,
            assets (ldr (update_join w0)) = assets (ldr w0)
            /\ factory_calls (ldr (update_join w0)) = factory_calls (ldr w0)
            /\ _assets (ldr (update_join w0)) = _assets (ldr w0)) as Hu.
  { intros w0. unfold update_join. by destruct (join (ldr w0)). }
  match goal with |- context [update_join ?x] => destruct (Hu x) as (-> & -> & ->) end.
  simpl. rewrite Ha', Hf', Hr', Ha, Hf, Hr. by repeat split.
Qed.

Lemma exec_invoked_once w o : invoked_once w -> invoked_once (exec unsubs w o).
Proof.
  intros Hw.
  assert (forall w', plan (ldr w') = plan (ldr w) -> invoked_once w') as Hsame.
  { intros w' Heq. unfold plan in Heq. injection Heq as Ha Hf Hp.
    unfold invoked_once. by rewrite Ha, Hf, Hp. }
  destruct o; try (apply Hsame; ldr_frame (@exec_inner_view T unsubs)).
  - simpl. destruct (l_promise (ldr w)) as [pr|] eqn:Hp.
    + rewrite (start_started unsubs w pr Hp). simpl. by apply Hsame.
    + destruct (start_loader w Hp) as (Ha & Hf & _ & [pr' Hp']).
      unfold invoked_once in *. rewrite Hp', Hf, Ha, Hw, Hp. done.
  - apply Hsame. ldr_frame (@joined_view T unsubs).
Qed.

Lemma run_invoked_once ops w : invoked_once w -> invoked_once (run unsubs ops w).
Proof.
  revert w. induction ops as [|o ops IH]; intros w Hw; [done|].
  simpl. by apply IH, exec_invoked_once.
Qed.

(** X21: in every run the factories among the inputs have been invoked
    once each, in declaration order, from the first [start()] on, and not
    at all before it. *)
Theorem each_factory_is_invoked_once (objs : list (Asset T)) inputs ops :
  let w := run unsubs ops (init objs inputs) in
  assets (ldr w) = inputs
  /\ factory_calls (ldr w)
     = match l_promise (ldr w) with
       | None => []
       | Some _ => factories inputs
       end.
Proof.
  intros w.
  assert (assets (ldr w) = inputs) as Ha.
  { transitivity (assets (ldr (init objs inputs))); [|done].
    unfold w. ldr_frame (@run_view T unsubs). }
  split; [done|]. rewrite <- Ha.
  by apply run_invoked_once.
Qed.

Lemma addToLoader__assets i w :
  _assets (ldr (addToLoader i w)) = _assets (ldr w) ++ [i].
Proof. exact (f_equal snd (addToLoader_wiring i w)). Qed.

Lemma factory_resolved__assets b f ixs w :
  branches (ldr w) !! b = Some (AwaitFactory f) ->
  _assets (ldr (factory_resolved b ixs w)) = _assets (ldr w) ++ ixs.
Proof.
  intros Hb. unfold factory_resolved. rewrite Hb. simpl.
  clear Hb. revert w. induction ixs as [|i ixs IH]; intros w.
  - simpl. by rewrite app_nil_r.
  - simpl. by rewrite IH, addToLoader__assets, <- app_assoc.
Qed.

Lemma exec__assets w o :
  _assets (ldr w) `prefix_of` _assets (ldr (exec unsubs w o)).
Proof.
  assert (forall w', _assets (ldr w') = _assets (ldr w) ->
                     _assets (ldr w) `prefix_of` _assets (ldr w')) as Hsame.
  { by intros w' ->. }
  destruct o; try (apply Hsame; ldr_frame (@exec_plain_view T unsubs)).
  - apply Hsame. ldr_frame (@resume_view T unsubs).
  - simpl. destruct (l_promise (ldr w)) as [pr|] eqn:Hp.
    + by rewrite (start_started unsubs w pr Hp).
    + destruct (start_loader w Hp) as (_ & _ & -> & _). by apply prefix_app_r.
  - simpl. destruct (branches (ldr w) !! b) as [[f| | |]|] eqn:Hb;
      try (unfold factory_resolved; by rewrite Hb).
    rewrite (factory_resolved__assets b f ixs w Hb). by apply prefix_app_r.
  - apply Hsame. ldr_frame0 (@factory_rejected_view T).
  - apply Hsame. ldr_frame (@factory_loads_view T unsubs).
  - apply Hsame. ldr_frame (@joined_view T unsubs).
Qed.

(** X22: the list [assets] of the loader only grows at its end: the first
    [start()] appends the plain assets among the inputs in declaration
    order, and a factory that resolves appends its assets in the order of
    the array. *)
Theorem registration_is_append_only w ops b f ixs :
  _assets (ldr w) `prefix_of` _assets (ldr (run unsubs ops w))
  /\ (l_promise (ldr w) = None ->
      _assets (ldr (fst (start unsubs w)))
      = _assets (ldr w) ++ directs (assets (ldr w)))
  /\ (branches (ldr w) !! b = Some (AwaitFactory f) ->
      _assets (ldr (factory_resolved b ixs w)) = _assets (ldr w) ++ ixs).
Proof.
  split; [|split].
  - revert w. induction ops as [|o ops IH]; intros w; [done|].
    simpl. etransitivity; [apply (exec__assets w o)|apply IH].
  - intros Hp. by destruct (start_loader w Hp) as (_ & _ & -> & _).
  - apply factory_resolved__assets.
Qed.

End Registration.

(** ** Assets that are loading already *)

Ltac store_frame0 lem :=
  match goal with
  | |- ?g <$> store ?w' = ?g <$> store ?w =>
      change (fst (fst (view g (fun _ : Loader => tt)
                          (fun _ : list (Entry _) => tt) w'))
              = fst (fst (view g (fun _ : Loader => tt)
                            (fun _ : list (Entry _) => tt) w)));
      do 2 f_equal; apply lem; done
  end.

Section AlreadyLoading.
Context {T : Type} (unsubs : nat -> Status -> list nat).
Implicit Types (w : World T).

Lemma start_inputs_busy ixs w bs :
  (forall i, i ∈ ixs -> exists a, store w !! i = Some a /\ loading a = true) ->
  let r := fold_left (start_input unsubs) (Direct <$> ixs) (w, bs) in
  snd r = bs ++ replicate (length ixs) (AwaitLoads [])
  /\ busy <$> store (fst r) = busy <$> store w.
Proof.
  revert w bs. induction ixs as [|i ixs IH]; intros w bs Hl.
  { simpl. by rewrite app_nil_r. }
  cbv zeta.
  change (fold_left (start_input unsubs) (Direct <$> i :: ixs) (w, bs))
    with (fold_left (start_input unsubs) (Direct <$> ixs)
            (fst (load unsubs i (addToLoader i w)),
             bs ++ [match snd (load unsubs i (addToLoader i w)) with
                    | Waiting => AwaitLoads [i]
                    | _ => AwaitLoads []
                    end])).
  set (w1 := addToLoader i w).
  assert (busy <$> store w1 = busy <$> store w) as Hb
    by store_frame0 (@addToLoader_view T).
  destruct (Hl i) as (a & Ha & Hla); [left|].
  destruct (lookup_proj busy _ _ i a Hb Ha) as (a1 & Ha1 & Hba1).
  assert (loading a1 = true) as Hl1.
  { transitivity (loading a); [exact (f_equal fst Hba1)|done]. }
  rewrite (load_busy unsubs i w1 a1 Ha1 Hl1). simpl.
  destruct (IH w1 (bs ++ [AwaitLoads []])) as (-> & ->).
  - intros j Hj. destruct (Hl j) as (aj & Haj & Hlj); [by right|].
    destruct (lookup_proj busy _ _ j aj Hb Haj) as (aj1 & Haj1 & Hbj1).
    exists aj1. split; [done|].
    transitivity (loading aj); [exact (f_equal fst Hbj1)|done].
  - split; [|by rewrite Hb]. by rewrite <- app_assoc.
Qed.

Lemma Promise_all_done n : Promise_all (replicate n (AwaitLoads [])) = Fulfilled.
Proof.
  unfold Promise_all.
  assert (omap branch_failure (replicate n (AwaitLoads [])) = []) as ->
    by (induction n; done).
  assert (forallb branch_done (replicate n (AwaitLoads [])) = true) as ->
    by (induction n; done).
  done.
Qed.

(** X23: [start()] over plain assets that are all loading already invokes
    no load function and waits for none of them: the join is fulfilled at
    once and its reactions set [loading = false] while the assets are still
    loading. *)
Theorem loading_assets_do_not_hold_the_join ixs w :
  l_promise (ldr w) = None -> join (ldr w) = Unsettled ->
  assets (ldr w) = Direct <$> ixs ->
  (forall i, i ∈ ixs -> exists a, store w !! i = Some a /\ loading a = true) ->
  let w1 := fst (start unsubs w) in
  join (ldr w1) = Fulfilled
  /\ busy <$> store w1 = busy <$> store w
  /\ l_loading (ldr (joined unsubs w1)) = false
  /\ busy <$> store (joined unsubs w1) = busy <$> store w.
Proof.
  intros Hp Hj Ha Hl w1.
  assert (join (ldr w1) = Fulfilled /\ busy <$> store w1 = busy <$> store w)
    as [Hf Hb].
  { unfold w1, start. simpl. rewrite Hp. simpl.
    set (w0 := l_broadcast unsubs LOADING (with_ldr (set_l_loading true) w)).
    assert (store w0 = store w) as Hs0
      by apply (l_broadcast_store unsubs LOADING (with_ldr (set_l_loading true) w)).
    assert (assets (ldr w0) = assets (ldr w)) as Ha0
      by exact (f_equal assets (l_broadcast_steady unsubs LOADING _)).
    rewrite Ha0, Ha.
    destruct (start_inputs_busy ixs w0 []) as (Hbs & Hbusy).
    { intros i Hi. rewrite Hs0. by apply Hl. }
    pose proof (start_inputs_join unsubs (Direct <$> ixs) w0 []) as Hj0.
    set (r := fold_left _ _ _) in *.
    rewrite update_join_join. simpl. rewrite Hj0.
    unfold w0. rewrite l_broadcast_join. simpl. rewrite Hj, Hbs. simpl.
    split; [apply Promise_all_done|].
    assert (forall w' : World T, store (update_join w') = store w') as Hu.
    { intros w'. unfold update_join. by destruct (join (ldr w')). }
    rewrite Hu. simpl. by rewrite Hbusy, Hs0. }
  split; [done|]. split; [done|].
  destruct (joined_fulfilled unsubs w1 Hf) as (_ & -> & _). split; [done|].
  rewrite <- Hb. store_frame (@joined_view T unsubs).
Qed.

End AlreadyLoading.


(** ** One load, as a subscriber hears it *)

Section Protocol.
Context {T : Type} (unsubs : nat -> Status -> list nat).
Implicit Types (w : World T) (a : Asset T).

Variables (i k : nat).
Hypothesis kept : forall x st, k ∉ unsubs x st.

Lemma kept_removed st x : User k ∉ removed_by unsubs st x.
Proof.
  destruct x as [j|]; simpl; [|apply not_elem_of_nil].
  intros Hin. apply list_elem_of_fmap in Hin as (y & [= <-] & Hy). by apply (kept j st).
Qed.

Lemma observing_with_asset f w :
  (forall a, subscribers (f a) = subscribers a) ->
  observing i k w -> observing i k (with_asset i f w).
Proof. intros Hf. unfold observing. by rewrite subs_of_with_asset. Qed.

Lemma broadcast_heard st w a :
  observing i k w -> store w !! i = Some a ->
  heard i k (log (broadcast unsubs i st w))
  = heard i k (log w) ++ [(st, Some (p a, loading a))]
  /\ observing i k (broadcast unsubs i st w)
  /\ exists a', store (broadcast unsubs i st w) !! i = Some a' /\ bare a' = bare a.
Proof.
  intros [Hn Hk] Ha. split; [|split].
  - destruct (broadcast_seen_once unsubs i st w (User k) Hn Hk) as (w' & Hs & Hb).
    { intros x _ _. apply kept_removed. }
    unfold heard. rewrite Hs, fmap_app. f_equal. simpl.
    destruct (lookup_proj bare _ _ i a Hb Ha) as (a' & -> & Hba).
    simpl. do 3 f_equal.
    exact (f_equal (fun a => (p a, loading a)) Hba).
  - split; [by apply broadcast_NoDup|].
    apply broadcast_stays; [done|]. intros x _. apply kept_removed.
  - by apply broadcast_lookup.
Qed.

Lemma lookup_with_asset f w a :
  store w !! i = Some a -> store (with_asset i f w) !! i = Some (f a).
Proof. intros Ha. unfold with_asset. simpl. by rewrite list_lookup_alter_eq, Ha. Qed.

Lemma updateProgress_heard q w a :
  observing i k w -> store w !! i = Some a ->
  heard i k (log (updateProgress unsubs i q w))
  = heard i k (log w) ++ [(PROGRESS, Some (q, loading a))]
  /\ observing i k (updateProgress unsubs i q w)
  /\ exists a', store (updateProgress unsubs i q w) !! i = Some a'
       /\ bare a' = bare (set_p q a).
Proof.
  intros Ho Ha. unfold updateProgress.
  apply (broadcast_heard PROGRESS (with_asset i (set_p q) w) (set_p q a)).
  - by apply observing_with_asset.
  - by apply lookup_with_asset.
Qed.

Lemma reports_heard qs w a :
  observing i k w -> store w !! i = Some a ->
  let w' := fold_left (fun w q => updateProgress unsubs i q w) qs w in
  heard i k (log w')
  = heard i k (log w) ++ ((fun q => (PROGRESS, Some (q, loading a))) <$> qs)
  /\ observing i k w'
  /\ exists a', store w' !! i = Some a'
       /\ nop a' = nop a /\ p a' = default (p a) (last qs).
Proof.
  revert w a. induction qs as [|q qs IH]; intros w a Ho Ha.
  { simpl. rewrite app_nil_r. split; [done|]. split; [done|]. by exists a. }
  cbv zeta. simpl fold_left.
  destruct (updateProgress_heard q w a Ho Ha) as (Hh & Ho1 & a1 & Ha1 & Hb1).
  destruct (IH _ a1 Ho1 Ha1) as (Hh' & Ho' & a' & Ha' & Hn' & Hp').
  split; [|split; [done|]].
  - assert (loading a1 = loading a) as Hl1 by exact (f_equal loading Hb1).
    rewrite Hh', Hh, Hl1. simpl. by rewrite <- app_assoc.
  - exists a'. split; [done|]. split.
    + rewrite Hn'. exact (f_equal (set_p 0%float) Hb1).
    + rewrite Hp'. rewrite last_cons. destruct (last qs); [done|].
      simpl. exact (f_equal p Hb1).
Qed.

Lemma settle_heard r w a :
  observing i k w -> store w !! i = Some a ->
  heard i k (log (settle unsubs i r w))
  = heard i k (log w)
    ++ match r with
       | inr _ => [(LOADED, Some (1%float, false))]
       | inl _ => [(ERROR, Some (p a, loading a)); (LOADED, Some (1%float, false))]
       end.
Proof.
  intros Ho Ha. unfold settle. destruct r as [e|v].
  - set (w1 := with_asset i (set_error e) w).
    destruct (broadcast_heard ERROR w1 (set_error e a))
      as (Hh1 & Ho1 & a1 & Ha1 & Hb1).
    { by apply observing_with_asset. }
    { by apply lookup_with_asset. }
    set (w2 := with_asset i (fun a => set_p 1%float (set_loading false a)) _).
    destruct (broadcast_heard LOADED w2 (set_p 1%float (set_loading false a1)))
      as (Hh2 & _).
    { by apply (observing_with_asset (fun a => set_p 1%float (set_loading false a))). }
    { by apply (lookup_with_asset (fun a => set_p 1%float (set_loading false a))). }
    rewrite Hh2. change (log w2) with (log (broadcast unsubs i ERROR w1)).
    rewrite Hh1. by rewrite <- app_assoc.
  - set (w2 := with_asset i (fun a => set_p 1%float (set_loading false a)) _).
    destruct (broadcast_heard LOADED w2 (set_p 1%float (set_loading false (set_data v a))))
      as (Hh2 & _).
    { apply (observing_with_asset (fun a => set_p 1%float (set_loading false a)));
        [done|]. by apply observing_with_asset. }
    { apply (lookup_with_asset (fun a => set_p 1%float (set_loading false a))).
      by apply lookup_with_asset. }
    by rewrite Hh2.
Qed.

Lemma run_reports qs w :
  run unsubs (OReport i <$> qs) w
  = fold_left (fun w q => updateProgress unsubs i q w) qs w.
Proof. revert w. induction qs as [|q qs IH]; intros w; [done|]. simpl. apply IH. Qed.

Lemma run_app (ops1 ops2 : list (@Op T)) w :
  run unsubs (ops1 ++ ops2) w = run unsubs ops2 (run unsubs ops1 w).
Proof. apply fold_left_app. Qed.

(** The world in which the load function has returned, as a subscriber
    heard it come about. *)
Lemma begun_heard w a :
  observing i k w -> store w !! i = Some a ->
  let qs0 := reports (a_loader a (invocations a)) in
  heard i k (log (begun unsubs i a w))
  = heard i k (log w) ++ [(LOADING, Some (p a, true))]
    ++ ((fun q => (PROGRESS, Some (q, true))) <$> qs0)
  /\ observing i k (begun unsubs i a w)
  /\ exists a', store (begun unsubs i a w) !! i = Some a'
       /\ loading a' = true /\ p a' = default (p a) (last qs0).
Proof.
  intros Ho Ha qs0. unfold begun. fold qs0.
  set (w1 := with_asset i (set_loading true) w).
  destruct (broadcast_heard LOADING w1 (set_loading true a))
    as (Hh1 & Ho1 & a1 & Ha1 & Hb1).
  { by apply observing_with_asset. }
  { by apply lookup_with_asset. }
  set (w2 := with_asset i count_invocation (broadcast unsubs i LOADING w1)).
  destruct (reports_heard qs0 w2 (count_invocation a1))
    as (Hh3 & Ho3 & a3 & Ha3 & Hn3 & Hp3).
  { by apply observing_with_asset. }
  { by apply lookup_with_asset. }
  assert (loading a1 = true) as Hl1 by exact (f_equal loading Hb1).
  split; [|split; [done|]].
  - rewrite Hh3. change (log w2) with (log (broadcast unsubs i LOADING w1)).
    rewrite Hh1. change (log w1) with (log w). simpl loading.
    rewrite Hl1. by rewrite <- app_assoc.
  - exists a3. split; [done|]. split.
    + transitivity (loading a1); [exact (f_equal loading Hn3)|done].
    + rewrite Hp3. destruct (last qs0); [done|]. simpl. exact (f_equal p Hb1).
Qed.



(** X25: one load of an idle asset, as a subscriber that is never
    unsubscribed hears it: [LOADING] with [loading] set, one [PROGRESS] per
    report with the reported value as [progress], then [LOADED] with
    [progress] 1 and [loading] reset, preceded by [ERROR] when the load
    failed. For a load function that returns a promise, a value, or
    throws. *)
Theorem one_load_as_a_subscriber_hears_it w a qs r :
  store w !! i = Some a -> loading a = false ->
  NoDup (subscribers a) -> User k ∈ subscribers a ->
  let qs0 := reports (a_loader a (invocations a)) in
  let before := heard i k (log w) ++ [(LOADING, Some (p a, true))] in
  match result (a_loader a (invocations a)) with
  | Promised =>
      heard i k (log (run unsubs ([OLoad i] ++ (OReport i <$> qs) ++ [OSettle i r]) w))
      = before ++ ((fun q => (PROGRESS, Some (q, true))) <$> (qs0 ++ qs))
          ++ ending_events (default (p a) (last (qs0 ++ qs))) r
  | Value v =>
      heard i k (log (fst (load unsubs i w)))
      = before ++ ((fun q => (PROGRESS, Some (q, true))) <$> qs0)
          ++ ending_events (default (p a) (last qs0)) (inr v)
  | Raise e =>
      heard i k (log (fst (load unsubs i w)))
      = before ++ ((fun q => (PROGRESS, Some (q, true))) <$> qs0)
          ++ ending_events (default (p a) (last qs0)) (@inl _ (option T) e)
  end.
Proof.
  intros Ha Hl Hn Hk qs0 before.
  assert (observing i k w) as Ho.
  { unfold observing. by rewrite (subs_of_lookup i w a Ha). }
  destruct (begun_heard w a Ho Ha) as (Hh & Hob & a3 & Ha3 & Hl3 & Hp3).
  fold qs0 in Hh, Hp3.
  pose proof (load_idle unsubs i w a Ha Hl) as Hload.
  destruct (result (a_loader a (invocations a))) as [v|e|].
  - rewrite Hload. simpl fst.
    rewrite (settle_heard (inr v) _ a3 Hob Ha3), Hh. unfold before.
    by rewrite <- !app_assoc.
  - rewrite Hload. simpl fst.
    rewrite (settle_heard (inl e) _ a3 Hob Ha3), Hh. unfold before.
    rewrite Hl3, Hp3. by rewrite <- !app_assoc.
  - rewrite !run_app, run_reports.
    change (run unsubs [OLoad i] w) with (fst (load unsubs i w)).
    rewrite Hload. simpl fst.
    set (w4 := with_asset i (set_promise (Some (invocations a))) _).
    destruct (reports_heard qs w4 (set_promise (Some (invocations a)) a3))
      as (Hh5 & Ho5 & a5 & Ha5 & Hn5 & Hp5).
    { by apply observing_with_asset. }
    { by apply lookup_with_asset. }
    cbv zeta in Hh5, Ho5, Ha5.
    set (w5 := fold_left _ qs w4) in *.
    assert (loading a5 = true) as Hl5.
    { transitivity (loading a3); [exact (f_equal loading Hn5)|done]. }
    change (run unsubs [OSettle i r] w5) with (resume unsubs i r w5).
    rewrite (resume_log unsubs i r w5 a5 Ha5 Hl5).
    rewrite (settle_heard r w5 a5 Ho5 Ha5), Hh5.
    change (log w4) with (log (begun unsubs i a w)). rewrite Hh.
    assert (p a5 = default (p a) (last (qs0 ++ qs))) as Hp.
    { rewrite Hp5, last_app. destruct (last qs); [done|]. simpl. exact Hp3. }
    unfold before, ending_events. simpl loading. rewrite Hl3, Hl5, Hp.
    rewrite fmap_app, <- !app_assoc. by destruct r.
Qed.

End Protocol.

(** ** The events of an asset, as the loader forwards them *)

Section Forwarding.
Context {T : Type} (unsubs : nat -> Status -> list nat).
Implicit Types (w : World T).

Lemma aggregate_stays st x : Aggregate ∉ removed_by unsubs st x.
Proof.
  destruct x as [j|]; simpl; [|apply not_elem_of_nil].
  by intros (y & [=] & _)%list_elem_of_fmap.
Qed.

Lemma forEach_users i st pending w :
  (Aggregate ∉ pending) ->
  let w' := forEach (subs_of i) (a_notify unsubs i st) pending w in
  recomputations (log w') = recomputations (log w)
  /\ (forall k, statuses OfLoader (User k) (log w')
                = statuses OfLoader (User k) (log w))
  /\ ldr w' = ldr w
  /\ (Aggregate ∈ subs_of i w -> Aggregate ∈ subs_of i w').
Proof.
  revert w. induction pending as [|x rest IH]; intros w Hp; [done|].
  apply not_elem_of_cons in Hp as [Hx Hp]. cbv zeta. simpl forEach.
  case_decide as Hin; [|by apply IH].
  destruct (IH (a_notify unsubs i st x w) Hp) as (-> & Hst & -> & Hag).
  destruct x as [j|]; [|done]. unfold a_notify. simpl.
  split; [|split; [|split; [done|]]].
  - unfold recomputations. rewrite omap_app. simpl. apply app_nil_r.
  - intros k. rewrite Hst. unfold statuses. simpl. by rewrite seen_other.
  - intros Ha. apply Hag. rewrite (subs_of_a_notify unsubs i st (User j) w).
    apply list_elem_of_difference. split; [done|]. apply aggregate_stays.
Qed.

Lemma l_broadcast_recomputations st w :
  recomputations (log (l_broadcast unsubs st w)) = recomputations (log w).
Proof.
  log_frame (@l_broadcast_view T unsubs) (fun (_ : Source) (_ : Status) => True);
    try done.
  intros l src cb st' c _. unfold recomputations. rewrite omap_app. apply app_nil_r.
Qed.

Lemma addToLoader_subscribes i w :
  is_Some (store w !! i) -> Aggregate ∈ subs_of i (addToLoader i w).
Proof.
  intros [a Ha]. unfold addToLoader, subscribe, subs_of, with_asset. simpl.
  rewrite list_lookup_alter_eq.
  assert (forall w' : World T, store w' = store w ->
            Aggregate ∈ match (fun a => set_subscribers
                                          (set_add Aggregate (subscribers a)) a)
                                <$> store w' !! i with
                        | Some a => subscribers a
                        | None => []
                        end) as Hany.
  { intros w' ->. rewrite Ha. simpl. unfold set_add. case_decide; [done|].
    apply elem_of_app. right. by apply list_elem_of_singleton. }
  destruct (id_of i _) as [s|]; [case_decide|]; by apply Hany.
Qed.

(** X26: [addToLoader] subscribes the loader's [updateProgress] to the
    asset, and from then on every broadcast of that asset, whatever its
    status, makes the loader recompute its progress once (the mean over the
    registered assets, as the code computes it in the arithmetic of numbers)
    and send [PROGRESS] to its subscribers; no callback of the asset can
    unsubscribe it. *)
Theorem child_event_reaches_the_loader_as_progress i st w k :
  (is_Some (store w !! i) -> Aggregate ∈ subs_of i (addToLoader i w))
  /\ (NoDup (subs_of i w) -> Aggregate ∈ subs_of i w ->
      (exists c, recomputations (log (broadcast unsubs i st w))
                 = recomputations (log w) ++ [c]
                 /\ averaged c)
      /\ (NoDup (l_subscribers (ldr w)) -> k ∈ l_subscribers (ldr w) ->
          (forall x, x ∈ l_subscribers (ldr w) -> x <> k -> k ∉ unsubs x PROGRESS) ->
          statuses OfLoader (User k) (log (broadcast unsubs i st w))
          = statuses OfLoader (User k) (log w) ++ [PROGRESS])
      /\ Aggregate ∈ subs_of i (broadcast unsubs i st w)).
Proof.
  split; [apply addToLoader_subscribes|]. intros Hn Ha.
  destruct (list_elem_of_split _ _ Ha) as (pre & post & Hsplit).
  assert ((Aggregate ∉ pre) /\ (Aggregate ∉ post)) as [Hpre Hpost].
  { rewrite Hsplit in Hn. apply NoDup_app in Hn as (_ & Hd & Hpost).
    split.
    - intros Hin. apply (Hd _ Hin). left.
    - by apply NoDup_cons in Hpost as [? _]. }
  destruct (forEach_users i st pre w Hpre) as (Hr1 & Hs1 & Hl1 & Ha1).
  set (w1 := forEach (subs_of i) (a_notify unsubs i st) pre w) in *.
  set (w2 := a_notify unsubs i st Aggregate w1).
  destruct (forEach_users i st post w2 Hpost) as (Hr3 & Hs3 & Hl3 & Ha3).
  assert (broadcast unsubs i st w
          = forEach (subs_of i) (a_notify unsubs i st) post w2) as ->.
  { unfold broadcast. rewrite Hsplit at 1.
    rewrite (forEach_app (subs_of i) (a_notify unsubs i st) pre (Aggregate :: post)).
    fold w1. simpl forEach. by rewrite decide_True by by apply Ha1. }
  set (wr := record (Called (OfAsset i) Aggregate st (snap w1)) w1).
  assert (recomputations (log w2)
          = recomputations (log w) ++ [snap (recompute wr)]) as Hr2.
  { unfold w2, a_notify, l_updateProgress. fold wr.
    rewrite l_broadcast_recomputations. simpl.
    unfold recomputations. rewrite !omap_app. simpl. rewrite app_nil_r.
    fold (recomputations (log w1)). by rewrite Hr1. }
  split; [|split].
  - exists (snap (recompute wr)). rewrite Hr3. split; [done|].
    apply recompute_averaged.
  - intros Hnl Hk Hrm. rewrite Hs3. unfold w2, a_notify, l_updateProgress. fold wr.
    rewrite (l_broadcast_log_statuses unsubs PROGRESS); simpl; rewrite ?Hl1; try done.
    f_equal. unfold statuses. rewrite seen_recomputed. rewrite seen_other by done.
    apply Hs1.
  - apply Ha3. unfold w2. rewrite (subs_of_a_notify unsubs i st Aggregate w1).
    apply list_elem_of_difference. split; [by apply Ha1|apply not_elem_of_nil].
Qed.

End Forwarding.

(** ** Instances of the properties above *)



Lemma fetchWithProgress_passes_the_body_through_witness :
  exists events,
    fetchWithProgress (inr five_bytes) true = Streamed events tt 200%nat
    /\ enqueued events = [[Byte.x68; Byte.x65]; [Byte.x6c; Byte.x6c; Byte.x6f]].
Proof.
  destruct (fetchWithProgress_passes_the_body_through five_bytes
              [[Byte.x68; Byte.x65]; [Byte.x6c; Byte.x6c; Byte.x6f]] Ends true
              eq_refl) as (events & He & Hq & _).
  by exists events.
Defined.

Lemma fetchWithProgress_reports_the_fraction_received_witness :
  exists events,
    fetchWithProgress (inr five_bytes) true = Streamed events tt 200%nat
    /\ progressed events = [(2 / 5)%float; 1%float].
Proof.
  destruct (fetchWithProgress_reports_the_fraction_received five_bytes
              [[Byte.x68; Byte.x65]; [Byte.x6c; Byte.x6c; Byte.x6f]] Ends 5%float
              eq_refl eq_refl) as (events & He & Hlen & Hp).
  exists events. split; [done|].
  pose proof (Hp 0%nat) as H0. pose proof (Hp 1%nat) as H1.
  destruct (progressed events) as [|x [|y [|z l]]]; try discriminate Hlen.
  simpl in H0, H1.
  injection (H0 ltac:(simpl; lia)) as ->. injection (H1 ltac:(simpl; lia)) as ->.
  vm_compute. reflexivity.
Defined.

Lemma fetchWithProgress_without_length_reports_NaN_witness :
  exists events,
    fetchWithProgress
      (inr (mkResponse (Some ([[Byte.x68; Byte.x65]], Ends)) None tt 200)) true
    = Streamed events tt 200%nat
    /\ progressed events = [nan].
Proof.
  apply (fetchWithProgress_without_length_reports_NaN
           (mkResponse (Some ([[Byte.x68; Byte.x65]], Ends)) None tt 200)
           [[Byte.x68; Byte.x65]] Ends eq_refl).
  by left.
Defined.

Lemma unsubscribed_callback_is_not_invoked_witness :
  let w := unsubscribe 0 (User 5) one_observed in
  seen (OfAsset 0) (User 5)
       (log (run passive [OLoad 0; OSettle 0 (inr (Some "a"%string))] w))
  = seen (OfAsset 0) (User 5) (log w).
Proof.
  intros w.
  apply (unsubscribed_callback_is_not_invoked passive 0 5 w
           [OLoad 0; OSettle 0 (inr (Some "a"%string))]).
  - apply (bool_decide_unpack _). vm_compute. exact I.
  - intros Hin. apply elem_of_cons in Hin as [Hin|Hin]; [discriminate|].
    apply elem_of_cons in Hin as [Hin|Hin]; [discriminate|].
    by apply elem_of_nil in Hin.
Defined.

Lemma settle_keeps_the_other_field_witness :
  exists a', store (settle passive 0 (inl (Some (mkError "x"))) one_pending) !! 0%nat
             = Some a'
    /\ error a' = Some (mkError "x").
Proof.
  destruct (settle_keeps_the_other_field passive 0 (inl (Some (mkError "x"))) one_pending
              (asset resolves_later None) eq_refl) as (a' & Ha' & [He _] & _).
  by exists a'.
Defined.

Lemma subscribing_twice_is_subscribing_once_witness :
  unsubscribe 0 (User 5) (subscribe 0 (User 5) one_pending) = one_pending.
Proof.
  destruct (subscribing_twice_is_subscribing_once 0 (User 5) 0 one_pending)
    as (_ & _ & Hback & _).
  apply Hback. apply (bool_decide_unpack _). vm_compute. exact I.
Defined.

Lemma broadcast_follows_subscription_order_witness :
  invoked (OfAsset 0) (log (broadcast passive 0 LOADED two_observers))
  = [User 1; User 2].
Proof.
  destruct (broadcast_follows_subscription_order passive 0 LOADED (User 1) 0
              two_observers) as (_ & _ & Horder & _).
  apply Horder. intros x _. by destruct x.
Defined.

Lemma report_is_stored_as_given_witness :
  exists a', store (updateProgress passive 0 2%float one_pending) !! 0%nat = Some a'
    /\ p a' = 2%float.
Proof.
  destruct (report_is_stored_as_given passive 0 2%float (inr None) one_pending
              (asset resolves_later None) eq_refl)
    as ((a' & Ha' & Hp & _) & _).
  by exists a'.
Defined.

Lemma load_resolves_with_the_data_witness :
  snd (load passive 0 (init [asset returns_a None] [])) = Resolved (Some "a"%string).
Proof.
  apply (load_resolves_with_the_data passive 0 (init [asset returns_a None] [])
           (asset returns_a None)); reflexivity.
Defined.

Lemma failing_load_is_retried_on_every_read_witness :
  exists a',
    store (run passive (replicate 3 (OReadData 0)) (init [asset throws_x None] []))
      !! 0%nat = Some a'
    /\ invocations a' = 3%nat.
Proof.
  destruct (failing_load_is_retried_on_every_read passive 0
              (init [asset throws_x None] []) (asset throws_x None) 3
              eq_refl eq_refl eq_refl)
    as (a' & Ha' & Hi & _).
  - intros m. by exists (Some (mkError "x")).
  - by exists a'.
Defined.

Lemma first_rejection_is_recorded_witness :
  let w : World string :=
    factory_rejected 0 (Some (mkError "x"))
      (run passive [OStart] (init [] [Factory 0; Factory 1])) in
  let w' := joined passive (run passive [OFactoryReject 1 (Some (mkError "y"))] w) in
  l_error (ldr w') = Some (mkError "x")
  /\ join (ldr w') = Caught
  /\ l_error (ldr (run passive [OJoined] w')) = Some (mkError "x")
  /\ join (ldr (run passive [OJoined] w')) = Handled.
Proof.
  intros w w'.
  destruct (first_rejection_is_recorded passive w (Some (mkError "x"))
              [OFactoryReject 1 (Some (mkError "y"))] [OJoined])
    as (_ & He & Hc & He' & _ & Hh).
  - reflexivity.
  - intros Hin. apply elem_of_cons in Hin as [Hin|Hin]; [discriminate|].
    by apply elem_of_nil in Hin.
  - split; [exact He|]. split; [exact Hc|]. split; [exact He'|].
    apply Hh. left.
Defined.

Lemma factory_rejection_is_reported_witness :
  let w : World string :=
    run passive [OLSubscribe 3; OStart]
        (init (constructed [(resolves_later, None)]) [Factory 0; Direct 0]) in
  let w1 := joined passive (factory_rejected 0 (Some (mkError "x")) w) in
  let w3 := joined passive (run passive [OSettle 0 (inr (Some "a"%string))] w1) in
  (l_error (ldr w1) = Some (mkError "x") /\ l_loading (ldr w1) = true)
  /\ (l_error (ldr w3) = Some (mkError "x") /\ l_loading (ldr w3) = false)
  /\ statuses OfLoader (User 3) (log w3)
     = [LOADING; PROGRESS; ERROR; PROGRESS; LOADED].
Proof.
  intros w w1 w3.
  destruct (factory_rejection_is_reported (T := string) passive
              [(resolves_later, None)] [Factory 0; Direct 0]
              [OLSubscribe 3; OStart] 0 0 (Some (mkError "x")) 3
              [OSettle 0 (inr (Some "a"%string))])
    as ((He1 & Hl1 & _) & _ & (He3 & Hl3 & _) & Hst); [reflexivity|reflexivity| |].
  - intros Hin. apply elem_of_cons in Hin as [Hin|Hin]; [discriminate|].
    by apply elem_of_nil in Hin.
  - split; [split; [exact He1|exact Hl1]|]. split; [split; [exact He3|exact Hl3]|].
    destruct Hst as [_ Hst].
    + vm_compute. left.
    + intros x _ _. apply not_elem_of_nil.
    + destruct Hst as [Hst _].
      * vm_compute. left.
      * intros x _ _. apply not_elem_of_nil.
      * exact Hst.
Defined.

Lemma registration_is_append_only_witness :
  let w : World string :=
    run passive [OStart]
        (init [asset resolves_later None; asset resolves_later None]
              [Factory 0; Direct 1]) in
  _assets (ldr w) = [1%nat]
  /\ _assets (ldr (factory_resolved 0 [0%nat] w)) = [1%nat; 0%nat].
Proof.
  intros w.
  destruct (registration_is_append_only passive
              (init [asset resolves_later None; asset resolves_later None]
                    [Factory 0; Direct 1]) [] 0 0 [0%nat]) as (_ & Hstart & _).
  destruct (registration_is_append_only passive w [] 0 0 [0%nat])
    as (_ & _ & Hres).
  split; [exact (Hstart eq_refl)|exact (Hres eq_refl)].
Defined.

Lemma loading_assets_do_not_hold_the_join_witness :
  let w : World string :=
    run passive [OLoad 0] (init [asset resolves_later None] [Direct 0]) in
  join (ldr (fst (start passive w))) = Fulfilled.
Proof.
  intros w.
  destruct (loading_assets_do_not_hold_the_join passive [0%nat] w)
    as (Hj & _); [reflexivity|reflexivity|reflexivity| |exact Hj].
  intros i Hi. apply list_elem_of_singleton in Hi as ->.
  eexists. split; [vm_compute; reflexivity|reflexivity].
Defined.

Lemma one_load_as_a_subscriber_hears_it_witness :
  heard 0 5
        (log (run passive ([OLoad 0] ++ (OReport 0 <$> [0.5%float])
                           ++ [OSettle 0 (inr (Some "a"%string))]) one_observed))
  = [(LOADING, Some (0%float, true)); (PROGRESS, Some (0.5%float, true));
     (LOADED, Some (1%float, false))].
Proof.
  pose proof (one_load_as_a_subscriber_hears_it passive 0 5
                (fun _ _ => not_elem_of_nil _) one_observed
                (set_subscribers [User 5] (asset resolves_later None))
                [0.5%float] (inr (Some "a"%string)) eq_refl eq_refl) as Hheard.
  apply Hheard.
  - apply (bool_decide_unpack _). vm_compute. exact I.
  - apply (bool_decide_unpack _). vm_compute. exact I.
Defined.

Lemma child_event_reaches_the_loader_as_progress_witness :
  let w := run passive [OLSubscribe 7; OStart] two_assets in
  statuses OfLoader (User 7) (log (broadcast passive 0 LOADED w))
  = statuses OfLoader (User 7) (log w) ++ [PROGRESS].
Proof.
  intros w.
  destruct (child_event_reaches_the_loader_as_progress passive 0 LOADED w 7)
    as (_ & Hfw).
  destruct Hfw as (_ & Hst & _).
  - apply (bool_decide_unpack _). vm_compute. exact I.
  - apply (bool_decide_unpack _). vm_compute. exact I.
  - apply Hst.
    + apply (bool_decide_unpack _). vm_compute. exact I.
    + apply (bool_decide_unpack _). vm_compute. exact I.
    + intros x _ _. apply not_elem_of_nil.
Defined.
